(** * Verification of the obsidian-copy-external synchroniser

    A shallow embedding of [src/main.ts] (class [CopyExternalPlugin], the
    version with notification toggles and the start-up reconciliation pass)
    together with a model of the parts of Node.js it calls: [path.join],
    [path.dirname], [String.prototype.replace] and the [fs/promises]
    operations [stat], [mkdir], [writeFile], [rm] and [rename]. *)

From Stdlib Require Import ZArith Ascii String.
From Stdlib.Strings Require Import Byte.
From stdpp Require Import gmap strings list fin_maps pretty.

Open Scope string_scope.
Open Scope list_scope.
Open Scope Z_scope.

(** ** Strings as JavaScript code-unit sequences *)

Module JsString.

(** [startsWith] on strings. *)
Fixpoint starts_with (pat s : string) : bool :=
  match pat, s with
  | EmptyString, _ => true
  | String a pat', String b s' => if Ascii.eqb a b then starts_with pat' s' else false
  | String _ _, EmptyString => false
  end.

(** [s.slice(n)]. *)
Fixpoint drop (n : nat) (s : string) : string :=
  match n, s with
  | O, _ => s
  | S n', String _ s' => drop n' s'
  | S _, EmptyString => EmptyString
  end.

(** [s.indexOf(pat)] returned as the text before and after the first
    occurrence of [pat]; [None] when [pat] does not occur. *)
Fixpoint split_first (pat s : string) : option (string * string) :=
  if starts_with pat s then Some (EmptyString, drop (String.length pat) s)
  else match s with
       | EmptyString => None
       | String c s' =>
           match split_first pat s' with
           | Some (before, after) => Some (String c before, after)
           | None => None
           end
       end.

(** ECMAScript [GetSubstitution] for a string pattern: there are no
    captures, so the only active patterns of the replacement text are
    [$$], [$&], [$`] and [$']; every other character, a dollar followed by
    anything else included, is copied. *)
Fixpoint get_substitution (matched before after repl : string) : string :=
  match repl with
  | EmptyString => EmptyString
  | String "$" (String "$" r) =>
      String "$" (get_substitution matched before after r)
  | String "$" (String "&" r) =>
      matched +:+ get_substitution matched before after r
  | String "$" (String "`" r) =>
      before +:+ get_substitution matched before after r
  | String "$" (String "'" r) =>
      after +:+ get_substitution matched before after r
  | String c r => String c (get_substitution matched before after r)
  end.

(** [s.replace(pat, repl)] with a string [pat]: only the first occurrence
    is replaced, and the replacement text goes through
    [get_substitution]. *)
Definition replace (s pat repl : string) : string :=
  match split_first pat s with
  | None => s
  | Some (before, after) =>
      before +:+ get_substitution pat before after repl +:+ after
  end.

(** The replacement text contains no dollar sign. *)
Fixpoint dollar_free (s : string) : bool :=
  match s with
  | EmptyString => true
  | String c s' => if Ascii.eqb c "$" then false else dollar_free s'
  end.

End JsString.

(** ** Node's [path] module, POSIX flavour *)

Module Path.

Definition slash : ascii := "/"%char.

(** [s.split("/")]. *)
Fixpoint split_slash_aux (cur : string) (s : string) : list string :=
  match s with
  | EmptyString => [String.rev cur]
  | String c s' =>
      if Ascii.eqb c slash then String.rev cur :: split_slash_aux EmptyString s'
      else split_slash_aux (String c cur) s'
  end.

Definition split_slash (s : string) : list string :=
  split_slash_aux EmptyString s.

Fixpoint join_slash (segs : list string) : string :=
  match segs with
  | [] => EmptyString
  | [s] => s
  | s :: rest => s +:+ "/" +:+ join_slash rest
  end.

Definition is_absolute (s : string) : bool :=
  match s with String c _ => Ascii.eqb c slash | EmptyString => false end.

Fixpoint ends_with_slash (s : string) : bool :=
  match s with
  | EmptyString => false
  | String c EmptyString => Ascii.eqb c slash
  | String _ s' => ends_with_slash s'
  end.

(** [normalizeString]: the stack [acc] holds the kept segments, last
    first. Empty and dot segments disappear; a dot-dot removes the
    previous segment unless that is itself a dot-dot or there is none, in
    which case it is kept only when the path may climb above its root. *)
Fixpoint normalize_segments (allow_above_root : bool)
    (acc : list string) (segs : list string) : list string :=
  match segs with
  | [] => List.rev acc
  | seg :: rest =>
      if String.eqb seg "" || String.eqb seg "." then
        normalize_segments allow_above_root acc rest
      else if String.eqb seg ".." then
        match acc with
        | top :: acc' =>
            if String.eqb top ".." then
              if allow_above_root then
                normalize_segments allow_above_root (seg :: acc) rest
              else normalize_segments allow_above_root acc rest
            else normalize_segments allow_above_root acc' rest
        | [] =>
            if allow_above_root then
              normalize_segments allow_above_root [seg] rest
            else normalize_segments allow_above_root [] rest
        end
      else normalize_segments allow_above_root (seg :: acc) rest
  end.

(** [path.normalize]. *)
Definition normalize (p : string) : string :=
  if String.eqb p "" then "."
  else
    let abs := is_absolute p in
    let trailing := ends_with_slash p in
    let body := join_slash (normalize_segments (negb abs) [] (split_slash p)) in
    if String.eqb body "" then
      if abs then "/" else if trailing then "./" else "."
    else
      let body := if trailing then body +:+ "/" else body in
      if abs then "/" +:+ body else body.

(** [path.join(a, b)]: empty arguments are skipped, the rest is joined
    with a slash and normalised. *)
Definition join (a b : string) : string :=
  if String.eqb a "" then
    if String.eqb b "" then "." else normalize b
  else if String.eqb b "" then normalize a
  else normalize (a +:+ "/" +:+ b).

(** [path.dirname]: scanning from the end, trailing slashes are skipped,
    then the last segment, and the path is cut at the slash before it.
    The first character is never examined. [rev_tail] is the path
    without its first character, reversed. *)
Fixpoint drop_slashes (l : list ascii) : list ascii :=
  match l with
  | c :: l' => if Ascii.eqb c slash then drop_slashes l' else l
  | [] => []
  end.

Fixpoint drop_segment (l : list ascii) : list ascii :=
  match l with
  | c :: l' => if Ascii.eqb c slash then l else drop_segment l'
  | [] => []
  end.

Definition dirname (p : string) : string :=
  match p with
  | EmptyString => "."
  | String c0 tl =>
      let has_root := Ascii.eqb c0 slash in
      let rev_tail := List.rev (list_ascii_of_string tl) in
      match drop_segment (drop_slashes rev_tail) with
      | [] => if has_root then "/" else "."
      | _ :: before =>
          if has_root && Nat.eqb (List.length before) 0 then "//"
          else String c0 (string_of_list_ascii (List.rev before))
      end
  end.

End Path.

(** ** The target filesystem

    A model of a POSIX filesystem as Node's [fs/promises] sees it, without
    symbolic links, permissions or quotas. An entry is addressed by the list
    of its path segments, innermost first, so that the parent of an entry is
    the tail of its key and the root directory is the empty key. *)

Module Fs.

Inductive errno : Set :=
| ENOENT | EEXIST | ENOTDIR | EISDIR | ENOTEMPTY | EINVAL.

Inductive node : Type :=
| File (data : list byte) (mtime : Z)
| Dir (mtime : Z).

Abbreviation key := (list string).

(** What [fs.Stats] exposes to the plugin: [isDirectory()] and
    [mtime.getTime()], in milliseconds. *)
Record Stats : Type := { isDirectory : bool; mtime_getTime : Z }.

Definition stats_of (n : node) : Stats :=
  match n with
  | File _ m => {| isDirectory := false; mtime_getTime := m |}
  | Dir m => {| isDirectory := true; mtime_getTime := m |}
  end.

Definition is_dir (o : option node) : bool :=
  match o with Some (Dir _) => true | _ => false end.

Definition parent (k : key) : key := tail k.

(** Path resolution: an absolute path starts at the root, a relative one
    at the working directory; empty and dot segments are skipped and a
    dot-dot goes to the parent (the root is its own parent), whatever the
    segment before it names. A trailing slash is ignored, and the empty
    path names nothing. There are no symbolic links. This is the walk of
    the system for a path in which no dot-dot follows a name, which is
    what [path.join] hands to every call but the [stat] of the target
    root; for a path with a dot-dot after a name that is not a directory
    the system refuses the walk, and this resolution does not. *)
Definition step (acc : key) (seg : string) : key :=
  if String.eqb seg "" || String.eqb seg "." then acc
  else if String.eqb seg ".." then parent acc
  else seg :: acc.

Definition resolve (cwd : key) (p : string) : option key :=
  if String.eqb p "" then None
  else Some (fold_left step (Path.split_slash p)
               (if Path.is_absolute p then [] else cwd)).

(** Creating or removing an entry stamps the directory that holds it. *)
Definition touch (k : key) (t : Z) (fs : gmap key node) : gmap key node :=
  match fs !! k with
  | Some (Dir _) => <[k := Dir t]> fs
  | _ => fs
  end.

(** The refusal a lookup meets on its way down to [k], the entry [k]
    itself left aside: the walk starts at the root, and the first ancestor
    that is not a directory decides, with [ENOENT] when it is missing and
    [ENOTDIR] when it is a regular file. *)
Fixpoint blocked (k : key) (fs : gmap key node) : option errno :=
  match k with
  | [] => None
  | _ :: up =>
      match blocked up fs with
      | Some e => Some e
      | None =>
          match fs !! up with
          | Some (Dir _) => None
          | Some (File _ _) => Some ENOTDIR
          | None => Some ENOENT
          end
      end
  end.

(** The error for a path that names nothing: [ENOTDIR] below a regular
    file, [ENOENT] otherwise. *)
Definition missing (k : key) (fs : gmap key node) : errno :=
  default ENOENT (blocked k fs).

Definition stat (k : key) (fs : gmap key node) : errno + Stats :=
  match fs !! k with
  | Some n => inr (stats_of n)
  | None => inl (missing k fs)
  end.

(** [mkdir] without options. *)
Definition mkdir (t : Z) (k : key) (fs : gmap key node) : errno + gmap key node :=
  match fs !! k with
  | Some _ => inl EEXIST
  | None =>
      match fs !! parent k with
      | Some (Dir _) => inr (<[k := Dir t]> (touch (parent k) t fs))
      | _ => inl (missing k fs)
      end
  end.

(** [mkdir] with [{ recursive: true }]: an existing directory is
    accepted as it is, a missing one is created after its parent has been
    ensured in the same way. A regular file in the way is refused, with
    [EEXIST] when it is the requested path itself and [ENOTDIR] when it
    is one of its ancestors; nothing is created in that case. *)
Fixpoint mkdirp (t : Z) (k : key) (fs : gmap key node) : errno + gmap key node :=
  match fs !! k with
  | Some (Dir _) => inr fs
  | Some (File _ _) => inl EEXIST
  | None =>
      match k with
      | [] => inl ENOENT
      | _ :: up =>
          match mkdirp t up fs with
          | inl EEXIST => inl ENOTDIR
          | inl e => inl e
          | inr fs' => inr (<[k := Dir t]> (touch up t fs'))
          end
      end
  end.

(** [writeFile] with the default flag: create or truncate. *)
Definition writeFile (t : Z) (k : key) (data : list byte)
    (fs : gmap key node) : errno + gmap key node :=
  match fs !! k with
  | Some (Dir _) => inl EISDIR
  | Some (File _ _) => inr (<[k := File data t]> fs)
  | None =>
      match fs !! parent k with
      | Some (Dir _) => inr (<[k := File data t]> (touch (parent k) t fs))
      | _ => inl (missing k fs)
      end
  end.

(** [rm] without options: neither recursive nor forced, so a path that
    names nothing and a directory are both refused. *)
Definition rm (t : Z) (k : key) (fs : gmap key node) : errno + gmap key node :=
  match fs !! k with
  | None => inl (missing k fs)
  | Some (Dir _) => inl EISDIR
  | Some (File _ _) => inr (delete k (touch (parent k) t fs))
  end.

(** The call [fs.rm] reports a refusal under: it looks the path up with
    [lstat] before it removes anything, so a path that names nothing is
    refused by the [lstat]; a directory is refused by [rm] itself. *)
Definition rm_syscall (e : errno) : string :=
  match e with
  | EISDIR => "rm"
  | _ => "lstat"
  end.

(** The entries at or below [root]. *)
Definition under (root : key) (kn : key * node) : Prop := suffix root kn.1.

#[global] Instance under_dec root kn : Decision (under root kn).
Proof. unfold under. apply _. Defined.

Definition rekey (old new : key) (kn : key * node) : key * node :=
  (take (length kn.1 - length old)%nat kn.1 ++ new, kn.2).

Definition has_children (k : key) (fs : gmap key node) : bool :=
  bool_decide (filter (λ kn : key * node, under k kn ∧ kn.1 ≠ k) fs ≠ ∅).

(** Moves the entry at [old], with everything below it, to [new]. *)
Definition move (t : Z) (old new : key) (fs : gmap key node) : gmap key node :=
  let moved : gmap key node :=
    list_to_map (rekey old new <$> map_to_list (filter (under old) fs)) in
  let kept : gmap key node := filter (λ kn, ¬ under old kn) fs in
  touch (parent new) t (touch (parent old) t (moved ∪ kept)).

(** [rename]: the source must exist and the parent of the destination
    must be a directory; a file replaces a file, a directory cannot move
    below itself, and it replaces an empty directory only. *)
Definition rename (t : Z) (old new : key) (fs : gmap key node) : errno + gmap key node :=
  match fs !! old with
  | None => inl (missing old fs)
  | Some src =>
      if decide (old = new) then inr fs
      else
        match fs !! parent new with
        | Some (Dir _) =>
            match src, fs !! new with
            | File _ _, Some (Dir _) => inl EISDIR
            | Dir _, Some (File _ _) => inl ENOTDIR
            | Dir _, Some (Dir _) =>
                if bool_decide (suffix old new) then inl EINVAL
                else if has_children new fs then inl ENOTEMPTY
                else inr (move t old new fs)
            | Dir _, None =>
                if bool_decide (suffix old new) then inl EINVAL
                else inr (move t old new fs)
            | File _ _, _ => inr (move t old new fs)
            end
        | _ => inl (missing new fs)
        end
  end.

(** How entries live on while files are written and directories made at
    time [t]: an entry stays, keeps its kind, and either is exactly as it
    was or carries the stamp [t]. *)
Definition mtime_of (n : node) : Z := mtime_getTime (stats_of n).

Definition persists (t : Z) (fs fs' : gmap key node) : Prop :=
  ∀ k n, fs !! k = Some n →
    ∃ n', fs' !! k = Some n' ∧
          isDirectory (stats_of n') = isDirectory (stats_of n) ∧
          (n' = n ∨ mtime_of n' = t).

(** A filesystem is a tree: the parent of every entry is a directory. *)
Definition tree_shaped (fs : gmap key node) : Prop :=
  ∀ seg up, is_Some (fs !! (seg :: up)) → is_dir (fs !! up) = true.

End Fs.

(** ** The world the plugin runs in *)

(** Promises that reject and statements that throw. *)
Inductive exn : Type :=
| FsError (code : Fs.errno) (syscall : string) (path : string)
| AdapterError (path : string).

Inductive level : Set := Log | Warn | Error.

(** One call of an [fs/promises] function, with its arguments as passed. *)
Inductive fs_call : Type :=
| Stat (path : string)
| Mkdir (path : string) (recursive : bool)
| WriteFile (path : string) (data : list byte)
| Rm (path : string)
| Rename (oldPath newPath : string).

Definition is_write (c : fs_call) : bool :=
  match c with Stat _ => false | _ => true end.

(** What a handler lets the outside see, in the order it happens: lines
    on the console, notices shown to the user, and filesystem calls. *)
Inductive event : Type :=
| Console (l : level) (msg : string)
| Notify (msg : string)
| Call (c : fs_call).

Definition notices (tr : list event) : list string :=
  omap (λ e, match e with Notify msg => Some msg | _ => None end) tr.

Definition fs_calls (tr : list event) : list fs_call :=
  omap (λ e, match e with Call c => Some c | _ => None end) tr.

Definition writes (tr : list event) : list fs_call :=
  List.filter is_write (fs_calls tr).

(** What a handler can change: the target filesystem, and the number of
    time stamps handed out so far. *)
Record state : Type := mkState {
  disk : gmap Fs.key Fs.node;
  ticks : nat
}.

Inductive outcome (A : Type) : Type :=
| Returns (a : A)
| Throws (e : exn).
Arguments Returns {A} a.
Arguments Throws {A} e.

(** An asynchronous function, awaited: it runs on a state and either
    returns or throws; in both cases it leaves a state behind and has
    emitted some events. *)
Definition M (A : Type) : Type := state → outcome A * state * list event.

Definition ret {A} (a : A) : M A := λ s, (Returns a, s, []).

Definition bind {A B} (m : M A) (k : A → M B) : M B :=
  λ s, match m s with
       | (Returns a, s1, tr1) =>
           match k a s1 with (r, s2, tr2) => (r, s2, tr1 ++ tr2) end
       | (Throws e, s1, tr1) => (Throws e, s1, tr1)
       end.

Definition throw {A} (e : exn) : M A := λ s, (Throws e, s, []).

Definition emit (e : event) : M unit := λ s, (Returns tt, s, [e]).

(** [try { body } catch { handler }]. *)
Definition try_catch {A} (body : M A) (handler : M A) : M A :=
  λ s, match body s with
       | (Returns a, s1, tr1) => (Returns a, s1, tr1)
       | (Throws _, s1, tr1) =>
           match handler s1 with (r, s2, tr2) => (r, s2, tr1 ++ tr2) end
       end.

Notation "'let*' x ':=' m 'in' k" := (bind m (λ x, k))
  (at level 10, x name, m at level 100, k at level 200).
Notation "m '>>>' k" := (bind m (λ _, k))
  (at level 90, right associativity).

Definition console_print (l : level) (msg : string) : M unit :=
  emit (Console l msg).

(** [new Notice(msg)]. *)
Definition Notice (msg : string) : M unit := emit (Notify msg).

(** The source side: what [this.app.vault] offers. [getFiles()] lists the
    files with their cached modification time; the adapter reads the vault's
    own storage. *)
Record TAbstractFile : Type := { path : string; name : string }.

Record TFile : Type := { file_path : string; file_name : string; stat_mtime : Z }.

Record adapter_entry : Type := { type : string; data : list byte }.

Record Vault : Type := {
  getFiles : list TFile;
  adapter : gmap string adapter_entry
}.

Record CopyExternalPluginSettings : Type := {
  targetDirectory : string;
  notifyCreate : bool;
  notifyModify : bool;
  notifyDelete : bool;
  notifyRename : bool
}.

Definition DEFAULT_SETTINGS : CopyExternalPluginSettings :=
  {| targetDirectory := "$HOME/cs/test-notes";
     notifyCreate := true;
     notifyModify := false;
     notifyDelete := true;
     notifyRename := true |}.

(** What a handler reads and never writes: the plugin's settings, the
    vault, [process.env.HOME], the working directory of the process, and
    the clock, given as the time stamp (in milliseconds) that the n-th
    modifying filesystem call sees. *)
Record Plugin : Type := {
  settings : CopyExternalPluginSettings;
  vault : Vault;
  env_HOME : option string;
  cwd : Fs.key;
  clock : nat → Z
}.

(** *** [fs/promises] *)

Section FsPromises.
Variable this : Plugin.

Definition locate (syscall p : string) : M Fs.key :=
  match Fs.resolve (cwd this) p with
  | Some k => ret k
  | None => throw (FsError Fs.ENOENT syscall p)
  end.

(** A call that only reads. *)
Definition fs_stat (p : string) : M Fs.Stats :=
  emit (Call (Stat p)) >>>
  let* k := locate "stat" p in
  λ s, match Fs.stat k (disk s) with
       | inr st => (Returns st, s, [])
       | inl e => (Throws (FsError e "stat" p), s, [])
       end.

(** A call that modifies: it takes the next time stamp, and the filesystem
    changes only when the operation is accepted. *)
Definition modify (syscall p : string)
    (op : Z → gmap Fs.key Fs.node → Fs.errno + gmap Fs.key Fs.node) : M unit :=
  λ s, match op (clock this (ticks s)) (disk s) with
       | inr fs' => (Returns tt, mkState fs' (S (ticks s)), [])
       | inl e => (Throws (FsError e syscall p), mkState (disk s) (S (ticks s)), [])
       end.

Definition fs_mkdir (p : string) (recursive : bool) : M unit :=
  emit (Call (Mkdir p recursive)) >>>
  let* k := locate "mkdir" p in
  modify "mkdir" p (λ t, if recursive then Fs.mkdirp t k else Fs.mkdir t k).

Definition fs_writeFile (p : string) (content : list byte) : M unit :=
  emit (Call (WriteFile p content)) >>>
  let* k := locate "open" p in
  modify "open" p (λ t, Fs.writeFile t k content).

Definition fs_rm (p : string) : M unit :=
  emit (Call (Rm p)) >>>
  let* k := locate "lstat" p in
  λ s, match Fs.rm (clock this (ticks s)) k (disk s) with
       | inr fs' => (Returns tt, mkState fs' (S (ticks s)), [])
       | inl e =>
           (Throws (FsError e (Fs.rm_syscall e) p), mkState (disk s) (S (ticks s)), [])
       end.

Definition fs_rename (oldPath newPath : string) : M unit :=
  emit (Call (Rename oldPath newPath)) >>>
  let* old := locate "rename" oldPath in
  let* new := locate "rename" newPath in
  modify "rename" oldPath (λ t, Fs.rename t old new).

(** *** The vault adapter *)

(** [adapter.stat(path)] resolves to [null] for a path that is not there. *)
Definition adapter_stat (p : string) : M (option adapter_entry) :=
  ret (adapter (vault this) !! p).

(** [adapter.readBinary(path)] rejects unless the path is a file. *)
Definition adapter_readBinary (p : string) : M (list byte) :=
  match adapter (vault this) !! p with
  | Some e => if String.eqb (type e) "file" then ret (data e)
              else throw (AdapterError p)
  | None => throw (AdapterError p)
  end.

(** The entry a path names in a state, if any. *)
Definition entry (s : state) (p : string) : option Fs.node :=
  k ← Fs.resolve (cwd this) p; disk s !! k.

(** The error a lookup of [p] meets in [s] when [p] names nothing. *)
Definition lookup_errno (s : state) (p : string) : Fs.errno :=
  match Fs.resolve (cwd this) p with
  | Some k => Fs.missing k (disk s)
  | None => Fs.ENOENT
  end.

End FsPromises.

(** ** The plugin: [class CopyExternalPlugin] *)

Section CopyExternalPlugin.
Variable this : Plugin.

(** [expandTargetPath()]: expands the home placeholder of the configured
    target directory when [process.env.HOME] is a string. *)
Definition expandTargetPath : string :=
  match env_HOME this with
  | Some home => JsString.replace (targetDirectory (settings this)) "$HOME" home
  | None => targetDirectory (settings this)
  end.

(** [targetPathExists()]. *)
Definition targetPathExists : M bool :=
  try_catch
    (let* targetStat := fs_stat this expandTargetPath in
     ret (Fs.isDirectory targetStat))
    (ret false).

(** [safeStat(file)]: [None] is JavaScript's [null]. *)
Definition safeStat (file : string) : M (option Fs.Stats) :=
  try_catch
    (let* st := fs_stat this file in ret (Some st))
    (ret None).

(** [ensureParentDirectory(targetPath)]. *)
Definition ensureParentDirectory (targetPath : string) : M unit :=
  let targetParent := Path.dirname targetPath in
  let* targetStat := safeStat targetParent in
  match targetStat with
  | Some st =>
      if Fs.isDirectory st then ret tt
      else fs_mkdir this targetParent true
  | None => fs_mkdir this targetParent true
  end.

(** [ensureTargetPath(file)]. *)
Definition ensureTargetPath (file : string) : M string :=
  let targetPath := Path.join expandTargetPath file in
  ensureParentDirectory targetPath >>>
  ret targetPath.

Definition unavailable_message : string :=
  "Target path '" +:+ targetDirectory (settings this)
    +:+ "' does not exist; no synching will take place.".

(** The running totals of [syncExistingFiles]. *)
Record counters : Type := { fileCount : nat; updated : nat; created : nat }.

Definition summary_message (c : counters) : string :=
  "Synced " +:+ pretty (fileCount c) +:+ " files; " +:+ pretty (created c)
    +:+ " created, " +:+ pretty (updated c) +:+ " updated.".

(** One turn of the [for ... of this.app.vault.getFiles()] loop. *)
Definition syncExistingFile (targetDir : string) (file : TFile)
    (c : counters) : M counters :=
  let c := {| fileCount := fileCount c + 1; updated := updated c; created := created c |} in
  let targetPath := Path.join targetDir (file_path file) in
  let* targetStat := safeStat targetPath in
  match targetStat with
  | None =>
      let* content := adapter_readBinary this (file_path file) in
      ensureParentDirectory targetPath >>>
      fs_writeFile this targetPath content >>>
      ret {| fileCount := fileCount c; updated := updated c; created := created c + 1 |}
  | Some st =>
      if Fs.mtime_getTime st <? stat_mtime file then
        let* content := adapter_readBinary this (file_path file) in
        fs_writeFile this targetPath content >>>
        ret {| fileCount := fileCount c; updated := updated c + 1; created := created c |}
      else ret c
  end.

Fixpoint for_of {A S : Type} (body : A → S → M S) (items : list A) (acc : S) : M S :=
  match items with
  | [] => ret acc
  | x :: rest => let* acc' := body x acc in for_of body rest acc'
  end.

(** [syncExistingFiles()]: the reconciliation pass. *)
Definition syncExistingFiles : M unit :=
  let* available := targetPathExists in
  if negb available then console_print Warn unavailable_message
  else
    console_print Log "Syncing existing files ..." >>>
    let targetDir := expandTargetPath in
    let* c := for_of (syncExistingFile targetDir) (getFiles (vault this))
                {| fileCount := 0; updated := 0; created := 0 |} in
    let message := summary_message c in
    console_print Log message >>>
    Notice message.

(** [fileStat?.type], and how a template literal prints it. *)
Definition optional_type (fileStat : option adapter_entry) : option string :=
  type <$> fileStat.

Definition template (v : option string) : string := default "undefined" v.

(** [syncFileCreate(file)]. *)
Definition syncFileCreate (file : TAbstractFile) : M unit :=
  console_print Log ("Syncing new file: '" +:+ path file +:+ "'") >>>
  let* available := targetPathExists in
  if negb available then console_print Warn unavailable_message
  else
    let* fileStat := adapter_stat this (path file) in
    let* targetPath := ensureTargetPath (path file) in
    if bool_decide (optional_type fileStat = Some "folder") then
      fs_mkdir this targetPath false
    else if bool_decide (optional_type fileStat = Some "file") then
      let* content := adapter_readBinary this (path file) in
      fs_writeFile this targetPath content >>>
      if notifyCreate (settings this) then
        Notice ("Synced new file '" +:+ name file +:+ "'")
      else ret tt
    else
      console_print Warn
        ("Unknown file type: '" +:+ template (optional_type fileStat) +:+ "'").

(** [syncFileModify(file)]. *)
Definition syncFileModify (file : TAbstractFile) : M unit :=
  console_print Log ("Synching modified file: '" +:+ path file +:+ "'") >>>
  let* available := targetPathExists in
  if negb available then console_print Warn unavailable_message
  else
    let* targetPath := ensureTargetPath (path file) in
    let* content := adapter_readBinary this (path file) in
    fs_writeFile this targetPath content >>>
    if notifyModify (settings this) then
      Notice ("Synced modified file '" +:+ name file +:+ "'")
    else ret tt.

(** [syncFileDelete(file)]. *)
Definition syncFileDelete (file : TAbstractFile) : M unit :=
  console_print Log ("Syncing deletion of file '" +:+ path file +:+ "'") >>>
  let* available := targetPathExists in
  if negb available then console_print Warn unavailable_message
  else
    let targetPath := Path.join expandTargetPath (path file) in
    fs_rm this targetPath >>>
    if notifyDelete (settings this) then
      Notice ("Synced deleted file '" +:+ name file +:+ "'")
    else ret tt.

Definition rename_failure_message (oldTargetPath newTargetPath : string) : string :=
  "Failed to rename '" +:+ oldTargetPath +:+ "' to '" +:+ newTargetPath +:+ "'".

(** [syncFileRename(file, oldPath)]. *)
Definition syncFileRename (file : TAbstractFile) (oldPath : string) : M unit :=
  console_print Log
    ("Syncing file rename from '" +:+ oldPath +:+ "' to '" +:+ path file +:+ "'") >>>
  let* available := targetPathExists in
  if negb available then console_print Warn unavailable_message
  else
    let expandedTarget := expandTargetPath in
    let oldTargetPath := Path.join expandedTarget oldPath in
    let newTargetPath := Path.join expandedTarget (path file) in
    ensureParentDirectory newTargetPath >>>
    try_catch
      (fs_rename this oldTargetPath newTargetPath >>>
       if notifyRename (settings this) then
         Notice ("Synced rename file '" +:+ name file +:+ "' (was '" +:+ oldPath +:+ "')")
       else ret tt)
      (console_print Error (rename_failure_message oldTargetPath newTargetPath) >>>
       Notice (rename_failure_message oldTargetPath newTargetPath)).

(** The operations [onload] installs: one handler per vault event, and the
    reconciliation pass it runs once at the end. *)
Inductive operation : Type :=
| OnCreate (file : TAbstractFile)
| OnModify (file : TAbstractFile)
| OnDelete (file : TAbstractFile)
| OnRename (file : TAbstractFile) (oldPath : string)
| Reconcile.

Definition run (op : operation) : M unit :=
  match op with
  | OnCreate file => syncFileCreate file
  | OnModify file => syncFileModify file
  | OnDelete file => syncFileDelete file
  | OnRename file oldPath => syncFileRename file oldPath
  | Reconcile => syncExistingFiles
  end.

End CopyExternalPlugin.

(** ** Notions used to state the properties *)

(** From [s] to [s'] the target filesystem has only grown: every entry of
    [s] is still there with its kind, and is either exactly as it was or
    stamped by one of the modifying calls made in between. *)
Definition advances (this : Plugin) (s s' : state) : Prop :=
  (ticks s ≤ ticks s')%nat ∧
  ∀ k n, disk s !! k = Some n →
    ∃ n', disk s' !! k = Some n' ∧
          Fs.isDirectory (Fs.stats_of n') = Fs.isDirectory (Fs.stats_of n) ∧
          (n' = n ∨ ∃ i, (ticks s ≤ i < ticks s')%nat ∧ Fs.mtime_of n' = clock this i).

(** The item is a file of the source tree with the given bytes. *)
Definition source_file (this : Plugin) (p : string) (content : list byte) : Prop :=
  adapter (vault this) !! p = Some {| type := "file"; data := content |}.

(** The target path of a source path. *)
Definition target_of (this : Plugin) (p : string) : string :=
  Path.join (expandTargetPath this) p.

(** The counters after a turn of the reconciliation loop that left the
    file alone, created it, or updated it. *)
Definition seen (c : counters) : counters :=
  {| fileCount := fileCount c + 1; updated := updated c; created := created c |}.
Definition seen_created (c : counters) : counters :=
  {| fileCount := fileCount c + 1; updated := updated c; created := created c + 1 |}.
Definition seen_updated (c : counters) : counters :=
  {| fileCount := fileCount c + 1; updated := updated c + 1; created := created c |}.

(** The target of a listed file is there and is not older than the file. *)
Definition settled (this : Plugin) (s : state) (f : TFile) : Prop :=
  ∃ n, entry this s (target_of this (file_path f)) = Some n ∧
       stat_mtime f ≤ Fs.mtime_of n.

(** No listed file carries a modification time later than a time stamp the
    target filesystem hands out from state [s] on. *)
Definition clock_not_behind (this : Plugin) (s : state) : Prop :=
  ∀ f i, f ∈ getFiles (vault this) → (ticks s ≤ i)%nat → stat_mtime f ≤ clock this i.

(** The [writeFile] calls among the events. *)
Definition is_writeFile (c : fs_call) : bool :=
  match c with WriteFile _ _ => true | _ => false end.

Definition file_writes (tr : list event) : list fs_call :=
  List.filter is_writeFile (fs_calls tr).

(** The number of listed files whose turn of the loop returned without a
    modifying filesystem call. *)
Fixpoint untouched (this : Plugin) (files : list TFile) (c : counters)
    (s : state) : nat :=
  match files with
  | [] => 0
  | f :: rest =>
      match syncExistingFile this (expandTargetPath this) f c s with
      | (Returns c', s', tr) =>
          (match writes tr with [] => 1 | _ => 0 end + untouched this rest c' s')%nat
      | (Throws _, _, _) => 0%nat
      end
  end.

Definition no_counts : counters := {| fileCount := 0; updated := 0; created := 0 |}.

(** The number of listed files whose target path, when their turn of the
    loop began, named an entry of the given description. The turns are
    taken in the order of the listing, each in the state the turn before
    it left. *)
Fixpoint turns_where (P : option Fs.node → TFile → bool) (this : Plugin)
    (files : list TFile) (c : counters) (s : state) : nat :=
  match files with
  | [] => 0
  | f :: rest =>
      ((if P (entry this s (target_of this (file_path f))) f then 1 else 0) +
       match syncExistingFile this (expandTargetPath this) f c s with
       | (Returns c', s', _) => turns_where P this rest c' s'
       | (Throws _, _, _) => 0
       end)%nat
  end.

(** The target path names nothing. *)
Definition is_missing (o : option Fs.node) (f : TFile) : bool :=
  match o with None => true | Some _ => false end.

(** The target path names an entry that is older than the file. *)
Definition is_stale (o : option Fs.node) (f : TFile) : bool :=
  match o with Some n => Fs.mtime_of n <? stat_mtime f | None => false end.

Definition found_missing : Plugin → list TFile → counters → state → nat :=
  turns_where is_missing.
Definition found_stale : Plugin → list TFile → counters → state → nat :=
  turns_where is_stale.

(** What the target paths of the listed files name, in the order of the
    listing. *)
Definition target_keys (this : Plugin) : list (option Fs.key) :=
  (λ f, Fs.resolve (cwd this) (target_of this (file_path f))) <$> getFiles (vault this).

(** An asynchronous function keeps the target filesystem a tree, however
    it ends. *)
Definition keeps_tree {A : Type} (m : M A) : Prop :=
  ∀ s r s' tr, m s = (r, s', tr) →
    Fs.tree_shaped (disk s) → Fs.tree_shaped (disk s').

(** ** Concrete worlds *)

Module Demo.

Definition bytes (s : string) : list byte := list_byte_of_string s.

(** The vault holds the folder [a] and the file [a/b.md] with content [x];
    the listing gives the file the modification time [mtime]. *)
Definition note (mtime : Z) : TFile :=
  {| file_path := "a/b.md"; file_name := "b.md"; stat_mtime := mtime |}.

Definition vault_at (mtime : Z) : Vault :=
  {| getFiles := [note mtime];
     adapter := list_to_map [("a", {| type := "folder"; data := [] |});
                             ("a/b.md", {| type := "file"; data := bytes "x" |})] |}.

(** Default settings, home [/home/u], and a clock that reads 1000 at the
    first modifying call and one millisecond more at each further one. *)
Definition plugin_with (home : option string) (mtime : Z) : Plugin :=
  {| settings := DEFAULT_SETTINGS;
     vault := vault_at mtime;
     env_HOME := home;
     cwd := [];
     clock := λ n, 1000 + Z.of_nat n |}.

Definition plugin : Plugin := plugin_with (Some "/home/u") 500.

(** The same with the file dated after every reading of the clock that the
    examples reach. *)
Definition late_plugin : Plugin := plugin_with (Some "/home/u") 5000.

(** The same with a home value that contains two dollar signs. *)
Definition dollar_plugin : Plugin := plugin_with (Some "/mnt/$$vol") 500.

Definition created_note : TAbstractFile := {| path := "a/b.md"; name := "b.md" |}.

(** An item the vault adapter knows nothing about. *)
Definition ghost : TAbstractFile := {| path := "c/d.md"; name := "d.md" |}.

Definition renamed : TAbstractFile := {| path := "e/new.md"; name := "new.md" |}.

Definition dirs (keys : list Fs.key) : gmap Fs.key Fs.node :=
  list_to_map ((λ k, (k, Fs.Dir 0)) <$> keys).

Definition root_key : Fs.key := ["test-notes"; "cs"; "u"; "home"].

Definition above_root : list Fs.key :=
  [[]; ["home"]; ["u"; "home"]; ["cs"; "u"; "home"]].

(** The target root is missing. *)
Definition no_mirror : state := mkState (dirs above_root) 0.

(** The target root is an empty directory. *)
Definition empty_mirror : state := mkState (dirs (above_root ++ [root_key])) 0.

(** The target root holds a regular file named [e]. *)
Definition file_in_the_way : state :=
  mkState (<["e" :: root_key := Fs.File (bytes "z") 0]> (dirs (above_root ++ [root_key]))) 0.

(** The target root holds the directory [a], and in it a directory named
    [b.md]. *)
Definition dir_at_note : state :=
  mkState (dirs (above_root ++ [root_key; "a" :: root_key; "b.md" :: "a" :: root_key])) 0.

(** The target root holds [a/b.md] with other bytes, stamped [mtime]. *)
Definition copied (mtime : Z) : state :=
  mkState (<["b.md" :: "a" :: root_key := Fs.File (bytes "old") mtime]>
             (dirs (above_root ++ [root_key; "a" :: root_key]))) 0.

End Demo.

(** ** The claims that do not hold as they are stated *)

(** C2 as stated: in every reconciliation pass with the target root
    available, for every listed file whose target path names an entry,
    [writeFile] is called on the target path exactly when the entry is
    older than the file. *)
Definition staleness_as_stated : Prop :=
  ∀ (this : Plugin) (s : state) (f : TFile) (n : Fs.node),
    Fs.is_dir (entry this s (expandTargetPath this)) = true →
    f ∈ getFiles (vault this) →
    entry this s (target_of this (file_path f)) = Some n →
    ∃ r s' tr,
      syncExistingFiles this s = (r, s', tr) ∧
      ((∃ content, Call (WriteFile (target_of this (file_path f)) content) ∈ tr)
       ↔ Fs.mtime_of n < stat_mtime f).

(** C3 as stated: every Renamed event whose old target path names nothing
    makes the handler return normally with the error line and the failure
    notice among its events. *)
Definition rename_safety_as_stated : Prop :=
  ∀ (this : Plugin) (file : TAbstractFile) (oldPath : string) (s : state),
    entry this s (target_of this oldPath) = None →
    ∃ s' tr,
      syncFileRename this file oldPath s = (Returns tt, s', tr) ∧
      Console Error (rename_failure_message (target_of this oldPath)
                       (target_of this (path file))) ∈ tr ∧
      Notify (rename_failure_message (target_of this oldPath)
                (target_of this (path file))) ∈ tr.

(** C4 as stated: for every file item and available target root, two
    applications of the Created handler in a row leave the source bytes in
    the target file, and the second one returns normally. *)
Definition create_idempotent_as_stated : Prop :=
  ∀ (this : Plugin) (file : TAbstractFile) (content : list byte) (s : state),
    Fs.is_dir (entry this s (expandTargetPath this)) = true →
    source_file this (path file) content →
    ∃ r1 s1 tr1 s2 tr2 m,
      syncFileCreate this file s = (r1, s1, tr1) ∧
      syncFileCreate this file s1 = (Returns tt, s2, tr2) ∧
      entry this s2 (target_of this (path file)) = Some (Fs.File content m).

(** C5 as stated: for every source tree and available target root, the
    second of two passes in a row calls [writeFile] for no file and reports
    none created and none updated. *)
Definition convergence_as_stated : Prop :=
  ∀ (this : Plugin) (s : state),
    Fs.is_dir (entry this s (expandTargetPath this)) = true →
    ∀ r1 s1 tr1, syncExistingFiles this s = (r1, s1, tr1) →
    ∃ r2 s2 tr2,
      syncExistingFiles this s1 = (r2, s2, tr2) ∧
      file_writes tr2 = [] ∧
      ∀ msg, msg ∈ notices tr2 →
        msg = summary_message {| fileCount := length (getFiles (vault this));
                                 updated := 0; created := 0 |}.

(** C6 as stated: a Created event for an item that is neither a file nor a
    folder leaves the target filesystem entirely unchanged. *)
Definition unknown_kind_frame_as_stated : Prop :=
  ∀ (this : Plugin) (file : TAbstractFile) (s : state),
    optional_type (adapter (vault this) !! path file) ≠ Some "folder" →
    optional_type (adapter (vault this) !! path file) ≠ Some "file" →
    ∃ r s' tr, syncFileCreate this file s = (r, s', tr) ∧ disk s' = disk s.

(** C7 as stated: [ensureParentDirectory] always returns normally, with the
    parent a directory afterwards, and without changes when it was one
    already. *)
Definition ensureParent_as_stated : Prop :=
  ∀ (this : Plugin) (targetPath : string) (s : state),
    ∃ s' tr,
      ensureParentDirectory this targetPath s = (Returns tt, s', tr) ∧
      Fs.is_dir (entry this s' (Path.dirname targetPath)) = true ∧
      (Fs.is_dir (entry this s (Path.dirname targetPath)) = true → s' = s).

(** C8 as stated: with a home value in the environment, the result is the
    configured text with the placeholder replaced by that value. *)
Definition expansion_as_stated : Prop :=
  ∀ (this : Plugin) (home before after : string),
    env_HOME this = Some home →
    JsString.split_first "$HOME" (targetDirectory (settings this)) = Some (before, after) →
    expandTargetPath this = before +:+ home +:+ after.

(** C9 as stated: whenever the target root is available, the pass shows
    exactly one notice. *)
Definition summary_as_stated : Prop :=
  ∀ (this : Plugin) (s : state),
    Fs.is_dir (entry this s (expandTargetPath this)) = true →
    ∃ r s' tr msg,
      syncExistingFiles this s = (r, s', tr) ∧ notices tr = [msg].

(** ** The settings and their storage *)

(** What [loadData()] resolves to: [None] is [null], nothing stored yet;
    otherwise the stored object, in which any key can be missing. *)
Record StoredSettings : Type := {
  stored_targetDirectory : option string;
  stored_notifyCreate : option bool;
  stored_notifyModify : option bool;
  stored_notifyDelete : option bool;
  stored_notifyRename : option bool
}.

(** [Object.assign({}, DEFAULT_SETTINGS, data)]: the keys of [data]
    replace the defaults, and [null] contributes nothing. *)
Definition Object_assign (defaults : CopyExternalPluginSettings)
    (data : option StoredSettings) : CopyExternalPluginSettings :=
  match data with
  | None => defaults
  | Some d =>
      {| targetDirectory := default (targetDirectory defaults) (stored_targetDirectory d);
         notifyCreate := default (notifyCreate defaults) (stored_notifyCreate d);
         notifyModify := default (notifyModify defaults) (stored_notifyModify d);
         notifyDelete := default (notifyDelete defaults) (stored_notifyDelete d);
         notifyRename := default (notifyRename defaults) (stored_notifyRename d) |}
  end.

(** [loadSettings()], as a function of what [loadData()] resolves to. *)
Definition loadSettings (data : option StoredSettings) : CopyExternalPluginSettings :=
  Object_assign DEFAULT_SETTINGS data.

(** [saveSettings()]: what [saveData(this.settings)] stores. *)
Definition saveSettings (st : CopyExternalPluginSettings) : option StoredSettings :=
  Some {| stored_targetDirectory := Some (targetDirectory st);
          stored_notifyCreate := Some (notifyCreate st);
          stored_notifyModify := Some (notifyModify st);
          stored_notifyDelete := Some (notifyDelete st);
          stored_notifyRename := Some (notifyRename st) |}.

(** The five controls of [CopyExternalSettingTab.display()], each with
    the value its [onChange] receives. *)
Inductive change : Type :=
| TargetDirectory (value : string)
| NotifyCreate (value : bool)
| NotifyModify (value : bool)
| NotifyDelete (value : bool)
| NotifyRename (value : bool).

(** The assignment an [onChange] makes to [this.plugin.settings]. *)
Definition assign (c : change) (st : CopyExternalPluginSettings) : CopyExternalPluginSettings :=
  match c with
  | TargetDirectory value =>
      {| targetDirectory := value; notifyCreate := notifyCreate st;
         notifyModify := notifyModify st; notifyDelete := notifyDelete st;
         notifyRename := notifyRename st |}
  | NotifyCreate value =>
      {| targetDirectory := targetDirectory st; notifyCreate := value;
         notifyModify := notifyModify st; notifyDelete := notifyDelete st;
         notifyRename := notifyRename st |}
  | NotifyModify value =>
      {| targetDirectory := targetDirectory st; notifyCreate := notifyCreate st;
         notifyModify := value; notifyDelete := notifyDelete st;
         notifyRename := notifyRename st |}
  | NotifyDelete value =>
      {| targetDirectory := targetDirectory st; notifyCreate := notifyCreate st;
         notifyModify := notifyModify st; notifyDelete := value;
         notifyRename := notifyRename st |}
  | NotifyRename value =>
      {| targetDirectory := targetDirectory st; notifyCreate := notifyCreate st;
         notifyModify := notifyModify st; notifyDelete := notifyDelete st;
         notifyRename := value |}
  end.

(** What an [onChange] prints before it assigns: the handler of the text
    field logs the value, the toggles print nothing. *)
Definition change_log (c : change) : list event :=
  match c with
  | TargetDirectory value => [Console Log ("Target Directory: " +:+ value)]
  | _ => []
  end.

(** An [onChange]: the log, the assignment, then [saveSettings()]. It
    yields the settings of the plugin, what is stored, and what was
    printed. *)
Definition onChange (c : change) (st : CopyExternalPluginSettings)
    : CopyExternalPluginSettings * option StoredSettings * list event :=
  let st' := assign c st in (st', saveSettings st', change_log c).

(** ** The first version of the class

    [src/main.ts] opens with an earlier [CopyExternalPlugin]: its settings
    hold the target directory only, it shows no notices, it has no
    reconciliation pass, its [ensureParentDirectory] stats the parent with
    [fs.stat] itself, and its rename handler has no [try]. The path
    expansion and the availability check are those of the second version. *)

Module V1.

Section CopyExternalPlugin.
Variable this : Plugin.

(** [ensureParentDirectory(targetPath)]. *)
Definition ensureParentDirectory (targetPath : string) : M unit :=
  let targetParent := Path.dirname targetPath in
  let* targetStat := fs_stat this targetParent in
  if Fs.isDirectory targetStat then ret tt
  else fs_mkdir this targetParent true.

(** [syncFileCreate(file)]. *)
Definition syncFileCreate (file : TAbstractFile) : M unit :=
  console_print Log ("Syncing new file: '" +:+ path file +:+ "'") >>>
  let* available := targetPathExists this in
  if negb available then console_print Warn (unavailable_message this)
  else
    let* fileStat := adapter_stat this (path file) in
    let targetPath := Path.join (expandTargetPath this) (path file) in
    ensureParentDirectory targetPath >>>
    if bool_decide (optional_type fileStat = Some "folder") then
      fs_mkdir this targetPath false
    else if bool_decide (optional_type fileStat = Some "file") then
      let* content := adapter_readBinary this (path file) in
      fs_writeFile this targetPath content
    else
      console_print Warn
        ("Unknown file type: '" +:+ template (optional_type fileStat) +:+ "'").

(** [syncFileModify(file)]. *)
Definition syncFileModify (file : TAbstractFile) : M unit :=
  console_print Log ("Synching modified file: '" +:+ path file +:+ "'") >>>
  let* available := targetPathExists this in
  if negb available then console_print Warn (unavailable_message this)
  else
    let targetPath := Path.join (expandTargetPath this) (path file) in
    ensureParentDirectory targetPath >>>
    let* content := adapter_readBinary this (path file) in
    fs_writeFile this targetPath content.

(** [syncFileDelete(file)]. *)
Definition syncFileDelete (file : TAbstractFile) : M unit :=
  console_print Log ("Syncing deletion of file '" +:+ path file +:+ "'") >>>
  let* available := targetPathExists this in
  if negb available then console_print Warn (unavailable_message this)
  else
    let targetPath := Path.join (expandTargetPath this) (path file) in
    fs_rm this targetPath.

(** [syncFileRename(file, oldPath)]. *)
Definition syncFileRename (file : TAbstractFile) (oldPath : string) : M unit :=
  console_print Log
    ("Syncing file rename from '" +:+ oldPath +:+ "' to '" +:+ path file +:+ "'") >>>
  let* available := targetPathExists this in
  if negb available then console_print Warn (unavailable_message this)
  else
    let expandedTarget := expandTargetPath this in
    let oldTargetPath := Path.join expandedTarget oldPath in
    let newTargetPath := Path.join expandedTarget (path file) in
    ensureParentDirectory newTargetPath >>>
    fs_rename this oldTargetPath newTargetPath.

End CopyExternalPlugin.

End V1.

(** ** The vault events *)

(** The four events [onload] subscribes to, in both versions. *)
Inductive vault_event : Type :=
| Created (file : TAbstractFile)
| Modified (file : TAbstractFile)
| Deleted (file : TAbstractFile)
| Renamed (file : TAbstractFile) (oldPath : string).

(** The handler each version registers for an event. *)
Definition handle_v1 (this : Plugin) (ev : vault_event) : M unit :=
  match ev with
  | Created file => V1.syncFileCreate this file
  | Modified file => V1.syncFileModify this file
  | Deleted file => V1.syncFileDelete this file
  | Renamed file oldPath => V1.syncFileRename this file oldPath
  end.

Definition handle (this : Plugin) (ev : vault_event) : M unit :=
  match ev with
  | Created file => syncFileCreate this file
  | Modified file => syncFileModify this file
  | Deleted file => syncFileDelete this file
  | Renamed file oldPath => syncFileRename this file oldPath
  end.

(** The item an event is about. *)
Definition event_file (ev : vault_event) : TAbstractFile :=
  match ev with
  | Created file | Modified file | Deleted file | Renamed file _ => file
  end.

(** ** Further notions *)

(** An asynchronous function only lets the target filesystem grow,
    however it ends. *)
Definition grows (this : Plugin) {A : Type} (m : M A) : Prop :=
  ∀ s r s' tr, m s = (r, s', tr) → advances this s s'.

(** The text contains the pattern. *)
Definition occurs (pat s : string) : Prop :=
  ∃ before after, s = before +:+ pat +:+ after.

(** A path segment without a slash, and one that also is neither empty
    nor a dot nor a dot-dot. *)
Definition slash_free (s : string) : Prop :=
  Forall (λ c, c ≠ Path.slash) (list_ascii_of_string s).

Definition proper (s : string) : Prop :=
  s ≠ "" ∧ s ≠ "." ∧ s ≠ ".." ∧ slash_free s.

(** No regular file sits at the directory that is to hold the entry [k] or
    at an ancestor of that directory. *)
Definition clear_way (fs : gmap Fs.key Fs.node) (k : Fs.key) : Prop :=
  ∀ a d m, suffix a (Fs.parent k) → fs !! a ≠ Some (Fs.File d m).

(** Two runs end the same way, in the same state, after the same
    filesystem calls: they differ in what is shown or printed at most. *)
Definition same_copying {A : Type} (x y : outcome A * state * list event) : Prop :=
  x.1 = y.1 ∧ fs_calls x.2 = fs_calls y.2.

(** Two asynchronous functions that copy the same from every state. *)
Definition agree {A : Type} (m m' : M A) : Prop :=
  ∀ s, same_copying (m s) (m' s).

(** ** Deciding the shape of a filesystem *)

(** Every entry but the root has a directory as its parent. *)
Definition tree_shapedb (fs : gmap Fs.key Fs.node) : bool :=
  forallb (λ kn : Fs.key * Fs.node,
             match kn.1 with
             | [] => true
             | _ :: up => Fs.is_dir (fs !! up)
             end)
          (map_to_list fs).

(** A key with all the keys above it. *)
Fixpoint upwards (k : Fs.key) : list Fs.key :=
  k :: match k with
       | [] => []
       | _ :: up => upwards up
       end.

Definition clear_wayb (fs : gmap Fs.key Fs.node) (k : Fs.key) : bool :=
  forallb (λ a, match fs !! a with Some (Fs.File _ _) => false | _ => true end)
          (upwards (Fs.parent k)).

(** ** Further scenes *)

Module Scenes.

(** The folder [a] of the vault of [Demo]. *)
Definition folder_a : TAbstractFile := {| path := "a"; name := "a" |}.

(** A note two folders down, below [e]. *)
Definition deep_note : TAbstractFile := {| path := "e/sub/new.md"; name := "new.md" |}.

(** The same folder under the name [e]. *)
Definition folder_e : TAbstractFile := {| path := "e"; name := "e" |}.

(** The plugin of [Demo] with every notification turned off. *)
Definition quiet_plugin : Plugin :=
  {| settings := {| targetDirectory := "$HOME/cs/test-notes";
                    notifyCreate := false; notifyModify := false;
                    notifyDelete := false; notifyRename := false |};
     vault := vault Demo.plugin;
     env_HOME := env_HOME Demo.plugin;
     cwd := cwd Demo.plugin;
     clock := clock Demo.plugin |}.

(** The plugin of [Demo] with another target directory. *)
Definition plugin_at (targetDirectory : string) (home : option string) : Plugin :=
  {| settings := assign (TargetDirectory targetDirectory) DEFAULT_SETTINGS;
     vault := vault Demo.plugin;
     env_HOME := home;
     cwd := cwd Demo.plugin;
     clock := clock Demo.plugin |}.

(** The key of the copy of [a/b.md], and of the copy of [e/new.md]. *)
Definition note_key : Fs.key := "b.md" :: "a" :: Demo.root_key.
Definition renamed_key : Fs.key := "new.md" :: "e" :: Demo.root_key.

(** A vault with two notes, [e/new.md] listed before [a/b.md], both dated
    500, and the plugin of [Demo] on it. *)
Definition new_note : TFile :=
  {| file_path := "e/new.md"; file_name := "new.md"; stat_mtime := 500 |}.

Definition pair_vault : Vault :=
  {| getFiles := [new_note; Demo.note 500];
     adapter := list_to_map [("e", {| type := "folder"; data := [] |});
                             ("e/new.md", {| type := "file"; data := Demo.bytes "y" |});
                             ("a", {| type := "folder"; data := [] |});
                             ("a/b.md", {| type := "file"; data := Demo.bytes "x" |})] |}.

Definition pair_plugin : Plugin :=
  {| settings := DEFAULT_SETTINGS;
     vault := pair_vault;
     env_HOME := env_HOME Demo.plugin;
     cwd := cwd Demo.plugin;
     clock := clock Demo.plugin |}.

(** The mirror holds the copy of [a/b.md], stamped 0, and a stray regular
    file named [e]. *)
Definition stray_file : state :=
  mkState (<["e" :: Demo.root_key := Fs.File (Demo.bytes "z") 0]> (disk (Demo.copied 0))) 0.

End Scenes.

(** * Properties *)

(** ** The path and string models on examples *)

Example join_default :
  Path.join "/home/u/cs/test-notes" "a/b.md" = "/home/u/cs/test-notes/a/b.md".
Proof. reflexivity. Qed.
Example join_dots : Path.join "/t/" "../x/./y//z/" = "/x/y/z/".
Proof. reflexivity. Qed.
Example join_rel : Path.join "../a" "../../b" = "../../b".
Proof. reflexivity. Qed.
Example dirname_file : Path.dirname "/t/a/b.md" = "/t/a".
Proof. reflexivity. Qed.
Example dirname_trailing : Path.dirname "/t/a/" = "/t".
Proof. reflexivity. Qed.
Example dirname_top : Path.dirname "/t" = "/".
Proof. reflexivity. Qed.
Example dirname_bare : Path.dirname "t" = ".".
Proof. reflexivity. Qed.
Example dirname_double : Path.dirname "a//b" = "a/".
Proof. reflexivity. Qed.
Example replace_home :
  JsString.replace "$HOME/cs/test-notes" "$HOME" "/home/u" = "/home/u/cs/test-notes".
Proof. reflexivity. Qed.

(** ** Running a sequence *)

Section Running.
Context {A B : Type}.
Implicit Types (m : M A) (k : A → M B) (s : state).

Lemma bind_returns m k s a s1 tr1 :
  m s = (Returns a, s1, tr1) →
  bind m k s = match k a s1 with (r, s2, tr2) => (r, s2, tr1 ++ tr2) end.
Proof. unfold bind. by intros ->. Qed.

Lemma bind_throws m k s e s1 tr1 :
  m s = (Throws e, s1, tr1) → bind m k s = (Throws e, s1, tr1).
Proof. unfold bind. by intros ->. Qed.

Lemma bind_ret (a : A) k s : bind (ret a) k s = k a s.
Proof. unfold bind, ret. by destruct (k a s) as [[??]?]. Qed.

Lemma bind_emit (e : event) (k : unit → M B) s :
  bind (emit e) k s = match k tt s with (r, s2, tr2) => (r, s2, e :: tr2) end.
Proof. done. Qed.

Lemma bind_assoc {C} m k (h : B → M C) s :
  bind (bind m k) h s = bind m (λ a, bind (k a) h) s.
Proof.
  unfold bind. destruct (m s) as [[[a|e] s1] tr1]; [|done].
  destruct (k a s1) as [[[b|e] s2] tr2]; [|done].
  destruct (h b s2) as [[r s3] tr3]. by rewrite app_assoc.
Qed.

End Running.

(** ** The helpers of the plugin, evaluated *)

Section Evaluation.
Variable this : Plugin.
Implicit Types (s : state) (p : string).

Lemma fs_stat_eq p s :
  fs_stat this p s =
    (match entry this s p with
     | Some n => Returns (Fs.stats_of n)
     | None => Throws (FsError (lookup_errno this s p) "stat" p)
     end, s, [Call (Stat p)]).
Proof.
  unfold fs_stat, entry, lookup_errno, locate, bind, emit, Fs.stat.
  destruct (Fs.resolve (cwd this) p) as [k|]; simpl; [|done].
  by destruct (disk s !! k).
Qed.

Lemma safeStat_eq p s :
  safeStat this p s = (Returns (Fs.stats_of <$> entry this s p), s, [Call (Stat p)]).
Proof.
  unfold safeStat, try_catch, bind. rewrite fs_stat_eq.
  by destruct (entry this s p).
Qed.

Lemma targetPathExists_eq s :
  targetPathExists this s =
    (Returns (Fs.is_dir (entry this s (expandTargetPath this))), s,
     [Call (Stat (expandTargetPath this))]).
Proof.
  unfold targetPathExists, try_catch, bind. rewrite fs_stat_eq.
  by destruct (entry this s _) as [[]|].
Qed.

(** [ensureParentDirectory] stats the parent, and calls the recursive
    [mkdir] on it unless the stat found a directory. *)
Lemma ensureParentDirectory_eq p s :
  ensureParentDirectory this p s =
    if Fs.is_dir (entry this s (Path.dirname p)) then
      (Returns tt, s, [Call (Stat (Path.dirname p))])
    else
      match fs_mkdir this (Path.dirname p) true s with
      | (r, s', tr) => (r, s', Call (Stat (Path.dirname p)) :: tr)
      end.
Proof.
  unfold ensureParentDirectory, bind. rewrite safeStat_eq.
  destruct (entry this s (Path.dirname p)) as [[]|]; simpl; try done;
    by destruct (fs_mkdir this _ true s) as [[??]?].
Qed.

End Evaluation.

(** ** The filesystem model *)

Section FsFacts.
Implicit Types (fs : gmap Fs.key Fs.node) (k key : Fs.key) (t : Z) (n : Fs.node).

Lemma touch_lookup k t fs key :
  Fs.touch k t fs !! key =
    match fs !! key with
    | Some (Fs.Dir m) => Some (Fs.Dir (if decide (key = k) then t else m))
    | o => o
    end.
Proof.
  unfold Fs.touch. destruct (fs !! k) as [[d m|m]|] eqn:Hk.
  - destruct (fs !! key) as [[]|] eqn:Hkey; try done.
    case_decide; [congruence|done].
  - rewrite lookup_insert. case_decide as Heq.
    + subst. by rewrite Hk, decide_True.
    + destruct (fs !! key) as [[]|] eqn:Hkey; try done.
      by rewrite decide_False by congruence.
  - destruct (fs !! key) as [[]|] eqn:Hkey; try done.
    case_decide; [congruence|done].
Qed.

Lemma persists_refl t fs : Fs.persists t fs fs.
Proof. intros key n Hn. exists n. auto. Qed.

Lemma persists_touch k t fs : Fs.persists t fs (Fs.touch k t fs).
Proof.
  intros key n Hn. rewrite touch_lookup, Hn. destruct n as [d m|m].
  - eexists; eauto.
  - eexists; split; [done|]. split; [done|].
    case_decide; [by right|by left].
Qed.

Lemma persists_trans t fs1 fs2 fs3 :
  Fs.persists t fs1 fs2 → Fs.persists t fs2 fs3 → Fs.persists t fs1 fs3.
Proof.
  intros H12 H23 key n Hn.
  destruct (H12 _ _ Hn) as (n2 & Hn2 & Hk2 & Hm2).
  destruct (H23 _ _ Hn2) as (n3 & Hn3 & Hk3 & Hm3).
  exists n3. split; [done|]. split; [congruence|].
  destruct Hm3 as [->|?]; [done|by right].
Qed.

Lemma persists_insert_fresh k n t fs :
  fs !! k = None → Fs.persists t fs (<[k := n]> fs).
Proof.
  intros Hk key n' Hn'. exists n'.
  rewrite lookup_insert_ne by congruence. auto.
Qed.

(** An accepted recursive [mkdir] leaves a directory at its path and keeps
    every entry that was there. *)
Lemma mkdirp_is_dir t k fs fs' :
  Fs.mkdirp t k fs = inr fs' → Fs.is_dir (fs' !! k) = true.
Proof.
  destruct k as [|seg up]; simpl.
  - destruct (fs !! []) as [[]|] eqn:H0; try done.
    intros [= <-]. by rewrite H0.
  - destruct (fs !! (seg :: up)) as [[]|] eqn:Hk; try done.
    + intros [= <-]. by rewrite Hk.
    + destruct (Fs.mkdirp t up fs) as [[]|fs1]; try done.
      intros [= <-]. by rewrite lookup_insert_eq.
Qed.

Lemma mkdirp_persists t k fs fs' :
  Fs.mkdirp t k fs = inr fs' → Fs.persists t fs fs'.
Proof.
  revert fs'. induction k as [|seg up IH]; intros fs'; simpl.
  - destruct (fs !! []) as [[]|]; try done.
    intros [= <-]. apply persists_refl.
  - destruct (fs !! (seg :: up)) as [[]|] eqn:Hk; try done.
    + intros [= <-]. apply persists_refl.
    + destruct (Fs.mkdirp t up fs) as [[]|fs1] eqn:Hup; try done.
      intros [= <-].
      intros key n Hn.
      destruct (IH _ eq_refl _ _ Hn) as (n1 & Hn1 & Hk1 & Hm1).
      destruct (persists_touch up t fs1 _ _ Hn1) as (n2 & Hn2 & Hk2 & Hm2).
      exists n2. rewrite lookup_insert_ne by congruence.
      split; [done|]. split; [congruence|].
      destruct Hm2 as [->|?]; [done|by right].
Qed.

(** The same for an accepted [writeFile], which leaves the written bytes. *)
Lemma writeFile_lookup t k content fs fs' :
  Fs.writeFile t k content fs = inr fs' → fs' !! k = Some (Fs.File content t).
Proof.
  unfold Fs.writeFile.
  destruct (fs !! k) as [[]|]; try done.
  - intros [= <-]. by rewrite lookup_insert_eq.
  - destruct (fs !! Fs.parent k) as [[]|]; try done.
    intros [= <-]. by rewrite lookup_insert_eq.
Qed.

Lemma writeFile_persists t k content fs fs' :
  Fs.writeFile t k content fs = inr fs' → Fs.persists t fs fs'.
Proof.
  unfold Fs.writeFile.
  destruct (fs !! k) as [[d m|m]|] eqn:Hk; try done.
  - intros [= <-] key n Hn. rewrite lookup_insert. case_decide as Heq.
    + subst. rewrite Hk in Hn. injection Hn as <-. eexists; eauto.
    + exists n. auto.
  - destruct (fs !! Fs.parent k) as [[]|]; try done.
    intros [= <-].
    eapply persists_trans; [apply persists_touch|].
    apply persists_insert_fresh.
    rewrite touch_lookup, Hk. done.
Qed.

End FsFacts.

(** ** The filesystem stays a tree *)

Section TreeShape.
Implicit Types (fs : gmap Fs.key Fs.node) (k : Fs.key) (t : Z) (n : Fs.node).

Lemma tree_shaped_no_children fs k seg :
  Fs.tree_shaped fs → Fs.is_dir (fs !! k) = false → fs !! (seg :: k) = None.
Proof.
  intros Htree Hk. destruct (fs !! (seg :: k)) as [n|] eqn:Hchild; [|done].
  rewrite (Htree seg k) in Hk; [done|by rewrite Hchild].
Qed.

Lemma tree_shaped_touch k t fs :
  Fs.tree_shaped fs → Fs.tree_shaped (Fs.touch k t fs).
Proof.
  intros Htree seg up. rewrite !touch_lookup. intros Hsome.
  assert (Hup : Fs.is_dir (fs !! up) = true).
  { apply (Htree seg). by destruct (fs !! (seg :: up)) as [[]|]. }
  by destruct (fs !! up) as [[]|].
Qed.

(** Putting a directory below a directory, or a file below a directory at
    a place that holds no directory, keeps the tree. *)
Lemma tree_shaped_insert seg up n fs :
  Fs.tree_shaped fs →
  Fs.is_dir (fs !! up) = true →
  (Fs.isDirectory (Fs.stats_of n) = false → Fs.is_dir (fs !! (seg :: up)) = false) →
  Fs.tree_shaped (<[seg :: up := n]> fs).
Proof.
  intros Htree Hup Hfile seg' up'. rewrite !lookup_insert.
  destruct (decide (seg :: up = seg' :: up')) as [[= <- <-]|Hne].
  - intros _. rewrite decide_False; [done|].
    intros Heq. apply (f_equal length) in Heq. simpl in Heq. lia.
  - intros Hsome. destruct (decide (seg :: up = up')) as [<-|Hne'].
    + destruct n as [d m|m]; [|done].
      rewrite (tree_shaped_no_children fs (seg :: up) seg' Htree) in Hsome.
      * by destruct Hsome.
      * by apply Hfile.
    + by apply (Htree seg').
Qed.

Lemma mkdirp_tree_shaped t k fs fs' :
  Fs.tree_shaped fs → Fs.mkdirp t k fs = inr fs' → Fs.tree_shaped fs'.
Proof.
  intros Htree. revert fs'. induction k as [|seg up IH]; intros fs'; simpl.
  - destruct (fs !! []) as [[]|]; try done. by intros [= <-].
  - destruct (fs !! (seg :: up)) as [[]|]; try done.
    + by intros [= <-].
    + destruct (Fs.mkdirp t up fs) as [[]|fs1] eqn:Hup; try done.
      intros [= <-]. apply tree_shaped_insert.
      * apply tree_shaped_touch. by apply IH.
      * rewrite touch_lookup.
        pose proof (mkdirp_is_dir _ _ _ _ Hup) as Hdir.
        by destruct (fs1 !! up) as [[]|].
      * done.
Qed.

Lemma writeFile_tree_shaped t k content fs fs' :
  Fs.tree_shaped fs → Fs.writeFile t k content fs = inr fs' → Fs.tree_shaped fs'.
Proof.
  intros Htree. unfold Fs.writeFile.
  destruct (fs !! k) as [[d m|m]|] eqn:Hk; try done.
  - intros [= <-]. destruct k as [|seg up].
    + intros seg' up'. rewrite !lookup_insert.
      rewrite decide_False by done. intros Hsome.
      destruct (decide ([] = up')) as [<-|Hne]; [|by apply (Htree seg')].
      rewrite (tree_shaped_no_children fs [] seg' Htree) in Hsome;
        [by destruct Hsome|by rewrite Hk].
    + apply tree_shaped_insert; [done| |by rewrite Hk].
      apply (Htree seg). by rewrite Hk.
  - destruct k as [|seg up]; simpl; [by rewrite Hk|].
    destruct (fs !! up) as [[]|] eqn:Hup; try done.
    intros [= <-]. apply tree_shaped_insert.
    + by apply tree_shaped_touch.
    + by rewrite touch_lookup, Hup.
    + intros _. by rewrite touch_lookup, Hk.
Qed.

End TreeShape.

(** ** The recursive [mkdir] *)

Section Mkdirp.
Implicit Types (fs : gmap Fs.key Fs.node) (k key a : Fs.key) (t : Z).

Lemma suffix_cons_cases a seg up :
  suffix a (seg :: up) → a = seg :: up ∨ suffix a up.
Proof.
  intros [l Hl]. destruct l as [|x l]; simpl in Hl; [by left|].
  right. injection Hl as -> ->. by exists l.
Qed.

Lemma tree_shaped_ancestors fs key a :
  Fs.tree_shaped fs → is_Some (fs !! key) → suffix a key → a ≠ key →
  Fs.is_dir (fs !! a) = true.
Proof.
  intros Htree. induction key as [|seg up IH]; intros Hkey Ha Hne.
  - apply suffix_nil_inv in Ha. congruence.
  - apply suffix_cons_cases in Ha as [->|Ha]; [done|].
    pose proof (Htree _ _ Hkey) as Hup.
    destruct (decide (a = up)) as [->|Hne']; [done|].
    apply IH; [|done|done].
    by destruct (fs !! up).
Qed.

(** The recursive [mkdir] is accepted when the root is there and no
    regular file sits on the way. *)
Lemma mkdirp_accepts t k fs :
  Fs.is_dir (fs !! []) = true →
  (∀ a d m, suffix a k → fs !! a ≠ Some (Fs.File d m)) →
  ∃ fs', Fs.mkdirp t k fs = inr fs'.
Proof.
  intros Hroot. induction k as [|seg up IH]; intros Hfree; simpl.
  - destruct (fs !! []) as [[]|]; try done. by eexists.
  - destruct (fs !! (seg :: up)) as [[d m|m]|] eqn:Hk.
    + by destruct (Hfree (seg :: up) d m).
    + by eexists.
    + destruct IH as [fs1 ->]; [|by eexists].
      intros a d m Ha. apply Hfree. by apply suffix_cons_r.
Qed.

(** Once accepted it has made directories of the path and, in a tree, of
    all its ancestors, and has touched nothing off that chain. *)
Lemma mkdirp_chain t k fs fs' :
  Fs.tree_shaped fs → Fs.mkdirp t k fs = inr fs' →
  ∀ a, suffix a k → Fs.is_dir (fs' !! a) = true.
Proof.
  intros Htree. revert fs'. induction k as [|seg up IH]; intros fs'; simpl.
  - destruct (fs !! []) as [[]|] eqn:H0; try done.
    intros [= <-] a Ha. apply suffix_nil_inv in Ha as ->. by rewrite H0.
  - destruct (fs !! (seg :: up)) as [[]|] eqn:Hk; try done.
    + intros [= <-] a Ha.
      destruct (decide (a = seg :: up)) as [->|Hne]; [by rewrite Hk|].
      eapply tree_shaped_ancestors; [done| |done|done]. by rewrite Hk.
    + destruct (Fs.mkdirp t up fs) as [[]|fs1] eqn:Hup; try done.
      intros [= <-] a Ha.
      apply suffix_cons_cases in Ha as [->|Ha]; [by rewrite lookup_insert_eq|].
      rewrite lookup_insert_ne.
      2:{ intros Heq. subst a. apply suffix_length in Ha. simpl in Ha. lia. }
      rewrite touch_lookup.
      specialize (IH _ eq_refl _ Ha). by destruct (fs1 !! a) as [[]|].
Qed.

Lemma mkdirp_frame t k fs fs' key :
  Fs.mkdirp t k fs = inr fs' → ¬ suffix key k → fs' !! key = fs !! key.
Proof.
  revert fs'. induction k as [|seg up IH]; intros fs'; simpl.
  - destruct (fs !! []) as [[]|]; try done. by intros [= <-].
  - destruct (fs !! (seg :: up)) as [[]|] eqn:Hk; try done.
    + by intros [= <-].
    + destruct (Fs.mkdirp t up fs) as [[]|fs1] eqn:Hup; try done.
      intros [= <-] Hkey.
      rewrite lookup_insert_ne by (intros Heq; subst key; by apply Hkey).
      rewrite touch_lookup.
      assert (key ≠ up) by (intros Heq; subst key; apply Hkey; by apply suffix_cons_r).
      rewrite (IH _ eq_refl).
      * destruct (fs !! key) as [[]|]; try done. by rewrite decide_False.
      * intros Hs. apply Hkey. by apply suffix_cons_r.
Qed.

End Mkdirp.

(** ** What the filesystem calls do to a state *)

Section Calls.
Variable this : Plugin.
Implicit Types (s : state) (p : string).

Lemma advances_refl s : advances this s s.
Proof. split; [done|]. intros k n Hn. exists n. auto. Qed.

Lemma advances_trans s1 s2 s3 :
  advances this s1 s2 → advances this s2 s3 → advances this s1 s3.
Proof.
  intros [Ht12 H12] [Ht23 H23]. split; [lia|].
  intros k n Hn.
  destruct (H12 _ _ Hn) as (n2 & Hn2 & Hk2 & Hm2).
  destruct (H23 _ _ Hn2) as (n3 & Hn3 & Hk3 & Hm3).
  exists n3. split; [done|]. split; [congruence|].
  destruct Hm3 as [->|(i & Hi & Hm3)].
  - destruct Hm2 as [->|(i & Hi & Hm2)]; [by left|].
    right. exists i. split; [lia|done].
  - right. exists i. split; [lia|done].
Qed.

Lemma advances_is_dir s s' p :
  advances this s s' →
  Fs.is_dir (entry this s p) = true → Fs.is_dir (entry this s' p) = true.
Proof.
  intros [_ H]. unfold entry.
  destruct (Fs.resolve (cwd this) p) as [k|]; simpl; [|done].
  destruct (disk s !! k) as [[|m]|] eqn:Hk; try done.
  destruct (H _ _ Hk) as (n' & -> & Hkind & _).
  by destruct n'.
Qed.

(** A modifying call whose operation keeps entries advances the state,
    whether it is accepted or refused. *)
Lemma modify_advances syscall p op s r s' tr :
  (∀ t fs fs', op t fs = inr fs' → Fs.persists t fs fs') →
  modify this syscall p op s = (r, s', tr) →
  advances this s s' ∧ tr = [] ∧ ticks s' = S (ticks s) ∧
  (∀ e, r = Throws e → disk s' = disk s).
Proof.
  intros Hop. unfold modify.
  destruct (op (clock this (ticks s)) (disk s)) as [e|fs'] eqn:Hrun;
    intros [= <- <- <-]; simpl.
  - split; [|done]. split; [simpl; lia|].
    intros k n Hn. exists n. auto.
  - split; [|done]. split; [simpl; lia|].
    intros k n Hn. simpl.
    destruct (Hop _ _ _ Hrun _ _ Hn) as (n' & Hn' & Hkind & Hm).
    exists n'. split; [done|]. split; [done|].
    destruct Hm as [->|Hm]; [by left|].
    right. exists (ticks s). split; [lia|done].
Qed.

Lemma fs_mkdir_recursive_inv p s r s' tr :
  fs_mkdir this p true s = (r, s', tr) →
  tr = [Call (Mkdir p true)] ∧ advances this s s' ∧
  (r = Returns tt → Fs.is_dir (entry this s' p) = true) ∧
  (∀ e, r = Throws e → disk s' = disk s).
Proof.
  unfold fs_mkdir, bind, emit, locate, entry.
  destruct (Fs.resolve (cwd this) p) as [k|]; simpl.
  - destruct (modify this "mkdir" p _ s) as [[r0 s0] tr0] eqn:Hm.
    intros [= <- <- <-].
    pose proof Hm as Hm'.
    apply modify_advances in Hm' as (Hadv & -> & _ & Hthrow);
      [|intros ???; apply mkdirp_persists].
    split; [done|]. split; [done|]. split; [|done].
    intros ->. unfold modify in Hm.
    destruct (Fs.mkdirp _ k (disk s)) as [|fs'] eqn:Hrun; [done|].
    injection Hm as <-. simpl. eapply mkdirp_is_dir, Hrun.
  - intros [= <- <- <-]. split; [done|]. split; [apply advances_refl|].
    split; [done|]. done.
Qed.

Lemma fs_writeFile_inv p content s r s' tr :
  fs_writeFile this p content s = (r, s', tr) →
  tr = [Call (WriteFile p content)] ∧ advances this s s' ∧
  (r = Returns tt →
   entry this s' p = Some (Fs.File content (clock this (ticks s)))) ∧
  (∀ e, r = Throws e → disk s' = disk s).
Proof.
  unfold fs_writeFile, bind, emit, locate, entry.
  destruct (Fs.resolve (cwd this) p) as [k|]; simpl.
  - destruct (modify this "open" p _ s) as [[r0 s0] tr0] eqn:Hm.
    intros [= <- <- <-].
    pose proof Hm as Hm'.
    apply modify_advances in Hm' as (Hadv & -> & _ & Hthrow);
      [|intros ???; apply writeFile_persists].
    split; [done|]. split; [done|]. split; [|done].
    intros ->. unfold modify in Hm.
    destruct (Fs.writeFile _ k content (disk s)) as [|fs'] eqn:Hrun; [done|].
    injection Hm as <-. simpl. eapply writeFile_lookup, Hrun.
  - intros [= <- <- <-]. split; [done|]. split; [apply advances_refl|].
    split; [done|]. done.
Qed.

(** Writing over a regular file is always accepted. *)
Lemma fs_writeFile_over_file p k content d m s :
  Fs.resolve (cwd this) p = Some k →
  disk s !! k = Some (Fs.File d m) →
  fs_writeFile this p content s =
    (Returns tt,
     mkState (<[k := Fs.File content (clock this (ticks s))]> (disk s)) (S (ticks s)),
     [Call (WriteFile p content)]).
Proof.
  intros Hk Hfile.
  unfold fs_writeFile, bind, emit, locate, modify, Fs.writeFile.
  by rewrite Hk; simpl; rewrite Hfile.
Qed.

Lemma ensureParentDirectory_inv p s r s' tr :
  ensureParentDirectory this p s = (r, s', tr) →
  advances this s s' ∧
  (r = Returns tt → Fs.is_dir (entry this s' (Path.dirname p)) = true) ∧
  (tr = [Call (Stat (Path.dirname p))] ∨
   tr = [Call (Stat (Path.dirname p)); Call (Mkdir (Path.dirname p) true)]).
Proof.
  rewrite ensureParentDirectory_eq.
  destruct (Fs.is_dir (entry this s (Path.dirname p))) eqn:Hdir.
  - intros [= <- <- <-]. split; [apply advances_refl|]. auto.
  - destruct (fs_mkdir this _ true s) as [[r0 s0] tr0] eqn:Hm.
    intros [= <- <- <-].
    apply fs_mkdir_recursive_inv in Hm as (-> & Hadv & Hret & _).
    auto.
Qed.

Lemma adapter_readBinary_source p content s :
  source_file this p content →
  adapter_readBinary this p s = (Returns content, s, []).
Proof. unfold source_file, adapter_readBinary. by intros ->. Qed.

End Calls.

(** ** One turn of the reconciliation loop *)

Section Turn.
Variable this : Plugin.
Implicit Types (s : state) (f : TFile) (c : counters).

Lemma adapter_readBinary_pure p s :
  ∃ r, adapter_readBinary this p s = (r, s, []).
Proof.
  unfold adapter_readBinary.
  destruct (adapter (vault this) !! p) as [e|]; [|by eexists].
  destruct (String.eqb (type e) "file"); by eexists.
Qed.

(** The turn for a file whose target path names an entry. *)
Lemma syncExistingFile_present root f c s n :
  entry this s (Path.join root (file_path f)) = Some n →
  syncExistingFile this root f c s =
    if Fs.mtime_of n <? stat_mtime f then
      match (let* content := adapter_readBinary this (file_path f) in
             fs_writeFile this (Path.join root (file_path f)) content >>>
             ret (seen_updated c)) s with
      | (r, s', tr) => (r, s', Call (Stat (Path.join root (file_path f))) :: tr)
      end
    else (Returns (seen c), s, [Call (Stat (Path.join root (file_path f)))]).
Proof.
  intros Hn. unfold syncExistingFile.
  rewrite (bind_returns _ _ _ _ _ _ (safeStat_eq this _ s)), Hn. simpl.
  fold (Fs.mtime_of n).
  destruct (Fs.mtime_of n <? stat_mtime f); [|done].
  by destruct (bind _ _ s) as [[??]?].
Qed.

(** The turn for a file whose target path names nothing. *)
Lemma syncExistingFile_absent root f c s :
  entry this s (Path.join root (file_path f)) = None →
  syncExistingFile this root f c s =
    match (let* content := adapter_readBinary this (file_path f) in
           ensureParentDirectory this (Path.join root (file_path f)) >>>
           fs_writeFile this (Path.join root (file_path f)) content >>>
           ret (seen_created c)) s with
    | (r, s', tr) => (r, s', Call (Stat (Path.join root (file_path f))) :: tr)
    end.
Proof.
  intros Hn. unfold syncExistingFile.
  rewrite (bind_returns _ _ _ _ _ _ (safeStat_eq this _ s)), Hn. simpl.
  by destruct (bind _ _ s) as [[??]?].
Qed.

(** A turn that returns took one of the three branches. *)
Lemma syncExistingFile_returns root f c s c' s' tr :
  syncExistingFile this root f c s = (Returns c', s', tr) →
  let targetPath := Path.join root (file_path f) in
  (∃ content s0 tr0,
      entry this s targetPath = None ∧
      ensureParentDirectory this targetPath s = (Returns tt, s0, tr0) ∧
      fs_writeFile this targetPath content s0 =
        (Returns tt, s', [Call (WriteFile targetPath content)]) ∧
      tr = Call (Stat targetPath) :: tr0 ++ [Call (WriteFile targetPath content)] ∧
      c' = seen_created c) ∨
  (∃ n content,
      entry this s targetPath = Some n ∧ Fs.mtime_of n < stat_mtime f ∧
      fs_writeFile this targetPath content s =
        (Returns tt, s', [Call (WriteFile targetPath content)]) ∧
      tr = [Call (Stat targetPath); Call (WriteFile targetPath content)] ∧
      c' = seen_updated c) ∨
  (∃ n,
      entry this s targetPath = Some n ∧ stat_mtime f ≤ Fs.mtime_of n ∧
      s' = s ∧ tr = [Call (Stat targetPath)] ∧ c' = seen c).
Proof.
  intros Hrun targetPath.
  destruct (entry this s targetPath) as [n|] eqn:Hn.
  - rewrite (syncExistingFile_present _ _ _ _ _ Hn) in Hrun.
    destruct (Z.ltb_spec (Fs.mtime_of n) (stat_mtime f)) as [Hlt|Hge].
    + right; left.
      destruct (adapter_readBinary_pure (file_path f) s) as [[content|e] Hread].
      * rewrite (bind_returns _ _ _ _ _ _ Hread) in Hrun. fold targetPath in Hrun.
        destruct (fs_writeFile this targetPath content s) as [[[[]|e] s1] tr1] eqn:Hw.
        -- rewrite (bind_returns _ _ _ _ _ _ Hw) in Hrun. simpl in Hrun.
           injection Hrun as <- <- <-.
           destruct (fs_writeFile_inv this _ _ _ _ _ _ Hw) as (-> & _).
           exists n, content. done.
        -- by rewrite (bind_throws _ _ _ _ _ _ Hw) in Hrun.
      * by rewrite (bind_throws _ _ _ _ _ _ Hread) in Hrun.
    + right; right. injection Hrun as <- <- <-. by exists n.
  - left. rewrite (syncExistingFile_absent _ _ _ _ Hn) in Hrun.
    destruct (adapter_readBinary_pure (file_path f) s) as [[content|e] Hread].
    + rewrite (bind_returns _ _ _ _ _ _ Hread) in Hrun. fold targetPath in Hrun.
      destruct (ensureParentDirectory this targetPath s) as [[[[]|e] s0] tr0] eqn:Hp.
      * rewrite (bind_returns _ _ _ _ _ _ Hp) in Hrun.
        destruct (fs_writeFile this targetPath content s0) as [[[[]|e] s1] tr1] eqn:Hw.
        -- rewrite (bind_returns _ _ _ _ _ _ Hw) in Hrun. simpl in Hrun.
           injection Hrun as <- <- <-.
           destruct (fs_writeFile_inv this _ _ _ _ _ _ Hw) as (-> & _).
           exists content, s0, tr0. by rewrite app_nil_r.
        -- by rewrite (bind_throws _ _ _ _ _ _ Hw) in Hrun.
      * by rewrite (bind_throws _ _ _ _ _ _ Hp) in Hrun.
    + by rewrite (bind_throws _ _ _ _ _ _ Hread) in Hrun.
Qed.

End Turn.

(** ** The handlers keep the filesystem a tree *)

Section Invariant.
Variable this : Plugin.

Lemma keeps_tree_ret {A} (a : A) : keeps_tree (ret a).
Proof. by intros s r s' tr [= <- <- <-]. Qed.

Lemma keeps_tree_throw {A} (e : exn) : keeps_tree (@throw A e).
Proof. by intros s r s' tr [= <- <- <-]. Qed.

Lemma keeps_tree_emit (e : event) : keeps_tree (emit e).
Proof. by intros s r s' tr [= <- <- <-]. Qed.

Lemma keeps_tree_bind {A B} (m : M A) (k : A → M B) :
  keeps_tree m → (∀ a, keeps_tree (k a)) → keeps_tree (bind m k).
Proof.
  intros Hm Hk s r s' tr. unfold bind.
  destruct (m s) as [[[a|e] s1] tr1] eqn:Hrun.
  - destruct (k a s1) as [[r2 s2] tr2] eqn:Hrest.
    intros [= <- <- <-] Htree. eapply Hk; [exact Hrest|]. by eapply Hm.
  - intros [= <- <- <-] Htree. by eapply Hm.
Qed.

Lemma keeps_tree_try_catch {A} (body handler : M A) :
  keeps_tree body → keeps_tree handler → keeps_tree (try_catch body handler).
Proof.
  intros Hb Hh s r s' tr. unfold try_catch.
  destruct (body s) as [[[a|e] s1] tr1] eqn:Hrun.
  - intros [= <- <- <-] Htree. by eapply Hb.
  - destruct (handler s1) as [[r2 s2] tr2] eqn:Hrest.
    intros [= <- <- <-] Htree. eapply Hh; [exact Hrest|]. by eapply Hb.
Qed.

Lemma keeps_tree_modify syscall p op :
  (∀ t fs fs', op t fs = inr fs' → Fs.tree_shaped fs → Fs.tree_shaped fs') →
  keeps_tree (modify this syscall p op).
Proof.
  intros Hop s r s' tr. unfold modify.
  destruct (op _ (disk s)) as [e|fs'] eqn:Hrun; intros [= <- <- <-] Htree; simpl.
  - done.
  - by eapply Hop.
Qed.

Lemma keeps_tree_locate syscall p : keeps_tree (locate this syscall p).
Proof.
  unfold locate. destruct (Fs.resolve _ p);
    [apply keeps_tree_ret|apply keeps_tree_throw].
Qed.

Lemma keeps_tree_fs_stat p : keeps_tree (fs_stat this p).
Proof.
  intros s r s' tr. rewrite fs_stat_eq. by intros [= <- <- <-].
Qed.

Lemma mkdir_tree_shaped t k fs fs' :
  Fs.tree_shaped fs → Fs.mkdir t k fs = inr fs' → Fs.tree_shaped fs'.
Proof.
  intros Htree. unfold Fs.mkdir.
  destruct (fs !! k) eqn:Hk; [done|].
  destruct k as [|seg up]; simpl; [by rewrite Hk|].
  destruct (fs !! up) as [[]|] eqn:Hup; try done.
  intros [= <-]. apply tree_shaped_insert.
  - by apply tree_shaped_touch.
  - by rewrite touch_lookup, Hup.
  - done.
Qed.

Lemma rm_tree_shaped t k fs fs' :
  Fs.tree_shaped fs → Fs.rm t k fs = inr fs' → Fs.tree_shaped fs'.
Proof.
  intros Htree. unfold Fs.rm.
  destruct (fs !! k) as [[d m|m]|] eqn:Hk; try done.
  intros [= <-] seg up. rewrite !lookup_delete. 
  destruct (decide (k = seg :: up)) as [->|Hne]; [by intros [? ?]|].
  intros Hsome. apply (tree_shaped_touch (Fs.parent k) t) in Htree.
  specialize (Htree seg up Hsome).
  destruct (decide (k = up)) as [->|Hne']; [|done].
  rewrite touch_lookup, Hk in Htree. done.
Qed.

Lemma keeps_tree_fs_mkdir p recursive : keeps_tree (fs_mkdir this p recursive).
Proof.
  unfold fs_mkdir.
  apply keeps_tree_bind; [apply keeps_tree_emit|intros _].
  apply keeps_tree_bind; [apply keeps_tree_locate|intros k].
  apply keeps_tree_modify. intros t fs fs' Hrun Htree.
  destruct recursive; [by eapply mkdirp_tree_shaped|by eapply mkdir_tree_shaped].
Qed.

Lemma keeps_tree_fs_writeFile p content : keeps_tree (fs_writeFile this p content).
Proof.
  unfold fs_writeFile.
  apply keeps_tree_bind; [apply keeps_tree_emit|intros _].
  apply keeps_tree_bind; [apply keeps_tree_locate|intros k].
  apply keeps_tree_modify. intros t fs fs' Hrun Htree.
  by eapply writeFile_tree_shaped.
Qed.

Lemma keeps_tree_fs_rm p : keeps_tree (fs_rm this p).
Proof.
  unfold fs_rm.
  apply keeps_tree_bind; [apply keeps_tree_emit|intros _].
  apply keeps_tree_bind; [apply keeps_tree_locate|intros k].
  intros s r s' tr.
  destruct (Fs.rm _ k (disk s)) as [e|fs'] eqn:Hrun; intros [= <- <- <-] Htree; simpl.
  - done.
  - by eapply rm_tree_shaped.
Qed.

Lemma keeps_tree_adapter_readBinary p : keeps_tree (adapter_readBinary this p).
Proof.
  intros s r s' tr Hrun.
  destruct (adapter_readBinary_pure this p s) as [r0 Hpure].
  rewrite Hpure in Hrun. by injection Hrun as <- <- <-.
Qed.

Lemma keeps_tree_for_of {A S} (body : A → S → M S) (items : list A) (acc : S) :
  (∀ x a, keeps_tree (body x a)) → keeps_tree (for_of body items acc).
Proof.
  intros Hbody. revert acc. induction items as [|x items IH]; intros acc; simpl.
  - apply keeps_tree_ret.
  - apply keeps_tree_bind; [apply Hbody|apply IH].
Qed.

End Invariant.

Create HintDb tree.

#[local] Hint Resolve keeps_tree_ret keeps_tree_throw keeps_tree_emit
  keeps_tree_fs_stat keeps_tree_fs_mkdir keeps_tree_fs_writeFile keeps_tree_fs_rm
  keeps_tree_adapter_readBinary keeps_tree_locate : tree.

(** Descends through the sequencing, the handlers and the branches of an
    asynchronous function down to the calls the hints know. *)
Ltac solve_keeps_tree :=
  repeat first
    [ progress eauto with tree
    | apply keeps_tree_bind; [|intros ?]
    | apply keeps_tree_try_catch
    | apply keeps_tree_for_of; intros ? ?
    | match goal with
      | |- keeps_tree (if ?b then _ else _) => destruct b
      | |- keeps_tree (match ?o with Some _ => _ | None => _ end) => destruct o
      end ].

(** The Created, Modified and Deleted handlers and the reconciliation pass
    keep the target filesystem a tree, whether they return or throw. *)
Lemma handlers_keep_tree (this : Plugin) (op : operation) :
  (∀ file oldPath, op ≠ OnRename file oldPath) → keeps_tree (run this op).
Proof.
  intros Hop. destruct op as [file|file|file|file oldPath|]; simpl.
  - unfold syncFileCreate, targetPathExists, ensureTargetPath,
      ensureParentDirectory, safeStat, adapter_stat, console_print, Notice.
    solve_keeps_tree.
  - unfold syncFileModify, targetPathExists, ensureTargetPath,
      ensureParentDirectory, safeStat, console_print, Notice.
    solve_keeps_tree.
  - unfold syncFileDelete, targetPathExists, console_print, Notice.
    solve_keeps_tree.
  - by destruct (Hop file oldPath).
  - unfold syncExistingFiles, syncExistingFile, targetPathExists,
      ensureParentDirectory, safeStat, console_print, Notice.
    solve_keeps_tree.
Qed.

(** ** The reconciliation pass *)

Section Pass.
Variable this : Plugin.
Implicit Types (s : state) (f : TFile) (c : counters) (files : list TFile).

Let root := expandTargetPath this.
Let turn := syncExistingFile this root.

Lemma notices_calls (cs : list fs_call) : notices (Call <$> cs) = [].
Proof. induction cs; [done|]. done. Qed.

Lemma fs_calls_calls (cs : list fs_call) : fs_calls (Call <$> cs) = cs.
Proof. induction cs as [|c cs IH]; [done|]. cbn. f_equal. exact IH. Qed.

(** A turn emits filesystem calls only, however it ends. *)
Lemma turn_calls_only f c s r s' tr :
  turn f c s = (r, s', tr) → ∃ cs, tr = Call <$> cs.
Proof.
  unfold turn. intros Hrun.
  destruct (entry this s (Path.join root (file_path f))) as [n|] eqn:Hn.
  - rewrite (syncExistingFile_present _ _ _ _ _ _ Hn) in Hrun.
    destruct (Fs.mtime_of n <? stat_mtime f).
    + destruct (adapter_readBinary_pure this (file_path f) s) as [[content|e] Hread].
      * rewrite (bind_returns _ _ _ _ _ _ Hread) in Hrun.
        destruct (fs_writeFile this (Path.join root (file_path f)) content s)
          as [[[[]|e] s1] tr1] eqn:Hw;
          destruct (fs_writeFile_inv this _ _ _ _ _ _ Hw) as (-> & _).
        -- rewrite (bind_returns _ _ _ _ _ _ Hw) in Hrun. injection Hrun as <- <- <-.
           by exists [Stat (Path.join root (file_path f));
                      WriteFile (Path.join root (file_path f)) content].
        -- rewrite (bind_throws _ _ _ _ _ _ Hw) in Hrun. injection Hrun as <- <- <-.
           by exists [Stat (Path.join root (file_path f));
                      WriteFile (Path.join root (file_path f)) content].
      * rewrite (bind_throws _ _ _ _ _ _ Hread) in Hrun. injection Hrun as <- <- <-.
        by exists [Stat (Path.join root (file_path f))].
    + injection Hrun as <- <- <-. by exists [Stat (Path.join root (file_path f))].
  - rewrite (syncExistingFile_absent _ _ _ _ _ Hn) in Hrun.
    destruct (adapter_readBinary_pure this (file_path f) s) as [[content|e] Hread].
    + rewrite (bind_returns _ _ _ _ _ _ Hread) in Hrun.
      destruct (ensureParentDirectory this (Path.join root (file_path f)) s)
        as [[r0 s0] tr0] eqn:Hp.
      destruct (ensureParentDirectory_inv this _ _ _ _ _ Hp) as (_ & _ & Htr0).
      assert (∃ cs0, tr0 = Call <$> cs0) as [cs0 ->].
      { destruct Htr0 as [->| ->]; [by eexists [_]|by eexists [_; _]]. }
      destruct r0 as [[]|e].
      * rewrite (bind_returns _ _ _ _ _ _ Hp) in Hrun.
        destruct (fs_writeFile this (Path.join root (file_path f)) content s0)
          as [[[[]|e] s1] tr1] eqn:Hw;
          destruct (fs_writeFile_inv this _ _ _ _ _ _ Hw) as (-> & _).
        -- rewrite (bind_returns _ _ _ _ _ _ Hw) in Hrun. injection Hrun as <- <- <-.
           exists (Stat (Path.join root (file_path f)) :: cs0 ++
                   [WriteFile (Path.join root (file_path f)) content]).
           simpl. by rewrite fmap_app.
        -- rewrite (bind_throws _ _ _ _ _ _ Hw) in Hrun. injection Hrun as <- <- <-.
           exists (Stat (Path.join root (file_path f)) :: cs0 ++
                   [WriteFile (Path.join root (file_path f)) content]).
           simpl. by rewrite fmap_app.
      * rewrite (bind_throws _ _ _ _ _ _ Hp) in Hrun. injection Hrun as <- <- <-.
        by exists (Stat (Path.join root (file_path f)) :: cs0).
    + rewrite (bind_throws _ _ _ _ _ _ Hread) in Hrun. injection Hrun as <- <- <-.
      by exists [Stat (Path.join root (file_path f))].
Qed.

Lemma for_of_calls_only files c s r s' tr :
  for_of turn files c s = (r, s', tr) → ∃ cs, tr = Call <$> cs.
Proof.
  revert c s r s' tr. induction files as [|f files IH]; intros c s r s' tr; simpl.
  - intros [= <- <- <-]. by exists [].
  - destruct (turn f c s) as [[[c1|e] s1] tr1] eqn:Hturn;
      destruct (turn_calls_only _ _ _ _ _ _ Hturn) as [cs1 ->].
    + rewrite (bind_returns _ _ _ _ _ _ Hturn).
      destruct (for_of turn files c1 s1) as [[r2 s2] tr2] eqn:Hrest.
      destruct (IH _ _ _ _ _ Hrest) as [cs2 ->].
      intros [= <- <- <-]. exists (cs1 ++ cs2). by rewrite fmap_app.
    + rewrite (bind_throws _ _ _ _ _ _ Hturn).
      intros [= <- <- <-]. by exists cs1.
Qed.

(** With the target root available the pass is its loop between two
    console lines, followed by the summary when the loop returns. *)
Lemma syncExistingFiles_eq s :
  Fs.is_dir (entry this s root) = true →
  syncExistingFiles this s =
    match for_of turn (getFiles (vault this)) no_counts s with
    | (Returns c, s', tr) =>
        (Returns tt, s',
         Call (Stat root) :: Console Log "Syncing existing files ..." :: tr ++
           [Console Log (summary_message c); Notify (summary_message c)])
    | (Throws e, s', tr) =>
        (Throws e, s',
         Call (Stat root) :: Console Log "Syncing existing files ..." :: tr)
    end.
Proof.
  intros Hroot. unfold syncExistingFiles, console_print, Notice.
  rewrite (bind_returns _ _ _ _ _ _ (targetPathExists_eq this s)).
  fold root. rewrite Hroot. simpl. rewrite bind_emit.
  fold turn. fold no_counts.
  destruct (for_of turn (getFiles (vault this)) no_counts s) as [[[c|e] s1] tr1] eqn:Hloop.
  - by rewrite (bind_returns _ _ _ _ _ _ Hloop).
  - by rewrite (bind_throws _ _ _ _ _ _ Hloop).
Qed.

End Pass.

Section PassCounts.
Variable this : Plugin.
Implicit Types (s : state) (f : TFile) (c : counters) (files : list TFile).

Let root := expandTargetPath this.
Let turn := syncExistingFile this root.

Lemma file_writes_app (tr1 tr2 : list event) :
  file_writes (tr1 ++ tr2) = file_writes tr1 ++ file_writes tr2.
Proof. unfold file_writes, fs_calls. by rewrite omap_app, List.filter_app. Qed.

(** A turn that returns counts its file once, and as created or updated
    exactly when it called [writeFile], which it does at most once. *)
Lemma turn_counts f c s c' s' tr :
  turn f c s = (Returns c', s', tr) →
  fileCount c' = S (fileCount c) ∧
  (created c' + updated c' = created c + updated c + length (file_writes tr))%nat ∧
  (length (file_writes tr) + match writes tr with [] => 1 | _ => 0 end = 1)%nat.
Proof.
  intros Hrun. apply syncExistingFile_returns in Hrun. simpl in Hrun.
  destruct Hrun as [(content & s0 & tr0 & _ & Hp & _ & -> & ->)
                   |[(n & content & _ & _ & _ & -> & ->)
                    |(n & _ & _ & _ & -> & ->)]]; simpl.
  - apply ensureParentDirectory_inv in Hp as (_ & _ & [-> | ->]);
      (split; [lia|]); cbn; lia.
  - split; [lia|]. cbn. lia.
  - split; [lia|]. cbn. lia.
Qed.

Lemma for_of_counts files c s c' s' tr :
  for_of turn files c s = (Returns c', s', tr) →
  fileCount c' = (fileCount c + length files)%nat ∧
  (created c' + updated c' = created c + updated c + length (file_writes tr))%nat ∧
  (fileCount c' + created c + updated c =
   fileCount c + created c' + updated c' + untouched this files c s)%nat.
Proof.
  revert c s tr. induction files as [|f files IH]; intros c s tr; simpl.
  - intros [= <- <- <-]. cbn. lia.
  - fold root. fold turn.
    destruct (turn f c s) as [[[c1|e] s1] tr1] eqn:Hturn.
    + rewrite (bind_returns _ _ _ _ _ _ Hturn).
      destruct (for_of turn files c1 s1) as [[r2 s2] tr2] eqn:Hrest.
      intros [= -> <- <-].
      destruct (IH _ _ _ Hrest) as (Hn & Hw & Hu).
      destruct (turn_counts _ _ _ _ _ _ Hturn) as (Hn1 & Hw1 & Hu1).
      rewrite file_writes_app, length_app. lia.
    + by rewrite (bind_throws _ _ _ _ _ _ Hturn).
Qed.

End PassCounts.

Section Convergence.
Variable this : Plugin.
Implicit Types (s : state) (f : TFile) (c : counters) (files : list TFile).

Let root := expandTargetPath this.
Let turn := syncExistingFile this root.

Lemma turn_advances f c s c' s' tr :
  turn f c s = (Returns c', s', tr) → advances this s s'.
Proof.
  intros Hrun. apply syncExistingFile_returns in Hrun. simpl in Hrun.
  destruct Hrun as [(content & s0 & tr0 & _ & Hp & Hw & _)
                   |[(n & content & _ & _ & Hw & _)
                    |(n & _ & _ & -> & _)]].
  - apply ensureParentDirectory_inv in Hp as (Hadv0 & _).
    apply fs_writeFile_inv in Hw as (_ & Hadv1 & _).
    by eapply advances_trans.
  - by apply fs_writeFile_inv in Hw as (_ & Hadv1 & _).
  - apply advances_refl.
Qed.

(** After its turn, the target of a file is there and not older than the
    file, provided the clock is not behind the file's own time. *)
Lemma turn_settles f c s c' s' tr :
  turn f c s = (Returns c', s', tr) →
  (∀ i, (ticks s ≤ i)%nat → stat_mtime f ≤ clock this i) →
  settled this s' f.
Proof.
  intros Hrun Hclock. apply syncExistingFile_returns in Hrun. simpl in Hrun.
  unfold settled, target_of. fold root.
  destruct Hrun as [(content & s0 & tr0 & _ & Hp & Hw & _)
                   |[(n & content & _ & _ & Hw & _)
                    |(n & Hn & Hle & -> & _)]].
  - apply ensureParentDirectory_inv in Hp as ([Ht _] & _).
    apply fs_writeFile_inv in Hw as (_ & _ & Hfile & _).
    eexists. split; [apply Hfile; done|]. cbn. by apply Hclock.
  - apply fs_writeFile_inv in Hw as (_ & _ & Hfile & _).
    eexists. split; [apply Hfile; done|]. cbn. by apply Hclock.
  - by exists n.
Qed.

Lemma settled_advances f s s' :
  advances this s s' →
  (∀ i, (ticks s ≤ i)%nat → stat_mtime f ≤ clock this i) →
  settled this s f → settled this s' f.
Proof.
  intros [_ Hadv] Hclock (n & Hn & Hle). unfold settled, entry in *.
  destruct (Fs.resolve (cwd this) _) as [k|]; [|done]. simpl in *.
  destruct (Hadv _ _ Hn) as (n' & Hn' & _ & Hm).
  exists n'. split; [done|].
  destruct Hm as [->|(i & Hi & ->)]; [done|].
  apply Hclock. lia.
Qed.

Lemma for_of_settles files c s c' s' tr :
  for_of turn files c s = (Returns c', s', tr) →
  (∀ f i, f ∈ files → (ticks s ≤ i)%nat → stat_mtime f ≤ clock this i) →
  advances this s s' ∧ Forall (settled this s') files.
Proof.
  revert c s tr. induction files as [|f files IH]; intros c s tr; simpl.
  - intros [= <- <- <-] _. split; [apply advances_refl|constructor].
  - destruct (turn f c s) as [[[c1|e] s1] tr1] eqn:Hturn.
    + rewrite (bind_returns _ _ _ _ _ _ Hturn).
      destruct (for_of turn files c1 s1) as [[r2 s2] tr2] eqn:Hrest.
      intros [= -> <- <-] Hclock.
      pose proof (turn_advances _ _ _ _ _ _ Hturn) as Hadv1.
      assert (Hclock1 : ∀ g i, g ∈ files → (ticks s1 ≤ i)%nat →
                          stat_mtime g ≤ clock this i).
      { intros g i Hg Hi. apply Hclock; [by right|]. destruct Hadv1. lia. }
      destruct (IH _ _ _ Hrest Hclock1) as (Hadv2 & Hall).
      split; [by eapply advances_trans|].
      constructor; [|done].
      eapply settled_advances; [exact Hadv2| |].
      * intros i Hi. apply Hclock; [by left|]. destruct Hadv1. lia.
      * eapply turn_settles; [exact Hturn|].
        intros i Hi. apply Hclock; [by left|done].
    + by rewrite (bind_throws _ _ _ _ _ _ Hturn).
Qed.

(** Over settled files the loop only stats: it returns in the state it
    started in, having counted every file and nothing else. *)
Lemma for_of_settled files c s :
  Forall (settled this s) files →
  for_of turn files c s =
    (Returns {| fileCount := fileCount c + length files;
                updated := updated c; created := created c |},
     s, (λ f, Call (Stat (target_of this (file_path f)))) <$> files).
Proof.
  revert c. induction files as [|f files IH]; intros c Hall; simpl.
  - unfold ret. destruct c. simpl. by rewrite Nat.add_0_r.
  - inversion Hall as [|? ? (n & Hn & Hle) Hrest]; subst.
    assert (Hturn : turn f c s =
              (Returns (seen c), s, [Call (Stat (target_of this (file_path f)))])).
    { unfold turn. rewrite (syncExistingFile_present _ _ _ _ _ _ Hn).
      destruct (Z.ltb_spec (Fs.mtime_of n) (stat_mtime f)); [lia|done]. }
    rewrite (bind_returns _ _ _ _ _ _ Hturn), (IH _ Hrest). simpl.
    by replace (fileCount c + 1 + length files)%nat
      with (fileCount c + S (length files))%nat by lia.
Qed.

End Convergence.

(** ** What a turn leaves alone *)

Section PassFrame.
Variable this : Plugin.
Implicit Types (s : state) (f g : TFile) (c : counters) (files : list TFile) (k : Fs.key).

Let root := expandTargetPath this.
Let turn := syncExistingFile this root.

Lemma mkdirp_keeps_file (t : Z) k0 (fs fs' : gmap Fs.key Fs.node) k d m :
  Fs.mkdirp t k0 fs = inr fs' → fs !! k = Some (Fs.File d m) →
  fs' !! k = Some (Fs.File d m).
Proof.
  intros Hrun Hfile. revert fs' Hrun.
  induction k0 as [|seg up IH]; intros fs'; simpl.
  - destruct (fs !! []) as [[]|]; try done. by intros [= <-].
  - destruct (fs !! (seg :: up)) as [[]|] eqn:Hk0; try done.
    + by intros [= <-].
    + destruct (Fs.mkdirp t up fs) as [[]|fs1]; try done.
      intros [= <-].
      assert (k ≠ seg :: up) by (intros ->; congruence).
      rewrite lookup_insert_ne by done.
      by rewrite touch_lookup, (IH fs1 eq_refl).
Qed.

Lemma writeFile_keeps_file (t : Z) k0 (content : list byte)
    (fs fs' : gmap Fs.key Fs.node) k d m :
  Fs.writeFile t k0 content fs = inr fs' → k ≠ k0 →
  fs !! k = Some (Fs.File d m) → fs' !! k = Some (Fs.File d m).
Proof.
  unfold Fs.writeFile. intros Hrun Hne Hfile.
  destruct (fs !! k0) as [[]|]; try done.
  - injection Hrun as <-. by rewrite lookup_insert_ne.
  - destruct (fs !! Fs.parent k0) as [[]|]; try done.
    injection Hrun as <-. rewrite lookup_insert_ne by done.
    by rewrite touch_lookup, Hfile.
Qed.

Lemma ensureParentDirectory_keeps_file (p : string) s r s' tr k d m :
  ensureParentDirectory this p s = (r, s', tr) →
  disk s !! k = Some (Fs.File d m) → disk s' !! k = Some (Fs.File d m).
Proof.
  rewrite ensureParentDirectory_eq.
  destruct (Fs.is_dir (entry this s (Path.dirname p))); [by intros [= <- <- <-]|].
  unfold fs_mkdir, bind, emit, locate, ret, throw, modify.
  destruct (Fs.resolve (cwd this) (Path.dirname p)) as [k0|]; simpl;
    [|by intros [= <- <- <-]].
  destruct (Fs.mkdirp _ k0 (disk s)) as [e|fs'] eqn:Hrun; intros [= <- <- <-]; simpl.
  - done.
  - by eapply mkdirp_keeps_file.
Qed.

Lemma fs_writeFile_keeps_file (p : string) (content : list byte) s s' tr k d m :
  fs_writeFile this p content s = (Returns tt, s', tr) →
  Fs.resolve (cwd this) p ≠ Some k →
  disk s !! k = Some (Fs.File d m) → disk s' !! k = Some (Fs.File d m).
Proof.
  unfold fs_writeFile, bind, emit, locate, ret, throw, modify.
  destruct (Fs.resolve (cwd this) p) as [k0|]; simpl; [|done].
  destruct (Fs.writeFile _ k0 content (disk s)) as [e|fs'] eqn:Hrun; [done|].
  intros [= <- <-] Hne Hfile. simpl.
  eapply writeFile_keeps_file; [exact Hrun| |done]. intros ->. by apply Hne.
Qed.

(** A turn that returns leaves every regular file but its own target as
    it is, and calls [writeFile] on no other path. *)
Lemma turn_frame g c s c' s' tr k d m :
  turn g c s = (Returns c', s', tr) →
  Fs.resolve (cwd this) (Path.join root (file_path g)) ≠ Some k →
  disk s !! k = Some (Fs.File d m) →
  disk s' !! k = Some (Fs.File d m) ∧
  ∀ p content, Fs.resolve (cwd this) p = Some k → Call (WriteFile p content) ∉ tr.
Proof.
  intros Hrun Hother Hfile. apply syncExistingFile_returns in Hrun. simpl in Hrun.
  destruct Hrun as [(content & s0 & tr0 & _ & Hp & Hw & -> & _)
                   |[(n & content & _ & _ & Hw & -> & _)
                    |(n & _ & _ & -> & -> & _)]].
  - split.
    + eapply fs_writeFile_keeps_file; [exact Hw|done|].
      by eapply ensureParentDirectory_keeps_file.
    + intros p content' Hp' Hin.
      apply ensureParentDirectory_inv in Hp as (_ & _ & Htr0).
      apply elem_of_cons in Hin as [Heq|Hin]; [done|].
      apply elem_of_app in Hin as [Hin|Hin].
      * destruct Htr0 as [-> | ->];
          repeat (apply elem_of_cons in Hin as [Heq|Hin]; [done|]);
          by apply elem_of_nil in Hin.
      * apply list_elem_of_singleton in Hin. injection Hin as -> _. congruence.
  - split.
    + by eapply fs_writeFile_keeps_file.
    + intros p content' Hp' Hin.
      apply elem_of_cons in Hin as [Heq|Hin]; [done|].
      apply list_elem_of_singleton in Hin. injection Hin as -> _. congruence.
  - split; [done|]. intros p content' _ Hin.
    by apply list_elem_of_singleton in Hin.
Qed.

(** So do the turns of files with other target paths, one after the
    other. *)
Lemma for_of_frame files c s c' s' tr k d m :
  for_of turn files c s = (Returns c', s', tr) →
  Some k ∉ (λ g, Fs.resolve (cwd this) (Path.join root (file_path g))) <$> files →
  disk s !! k = Some (Fs.File d m) →
  disk s' !! k = Some (Fs.File d m) ∧
  ∀ p content, Fs.resolve (cwd this) p = Some k → Call (WriteFile p content) ∉ tr.
Proof.
  revert c s tr. induction files as [|g files IH]; intros c s tr; simpl.
  - intros [= <- <- <-] _ Hfile. split; [done|]. intros p content _ Hin.
    by apply elem_of_nil in Hin.
  - destruct (turn g c s) as [[[c1|e] s1] tr1] eqn:Hturn.
    + rewrite (bind_returns _ _ _ _ _ _ Hturn).
      destruct (for_of turn files c1 s1) as [[r2 s2] tr2] eqn:Hrest.
      intros [= -> <- <-] Hnot Hfile.
      apply not_elem_of_cons in Hnot as [Hg Hnot].
      destruct (turn_frame _ _ _ _ _ _ k d m Hturn) as [Hfile1 Hnone1];
        [by intros Heq; apply Hg|done|].
      destruct (IH _ _ _ Hrest Hnot Hfile1) as [Hfile2 Hnone2].
      split; [done|]. intros p content Hp Hin.
      apply elem_of_app in Hin as [Hin|Hin]; [by eapply Hnone1|by eapply Hnone2].
    + by rewrite (bind_throws _ _ _ _ _ _ Hturn).
Qed.

(** The turn of a file whose target path holds a regular file. *)
Lemma turn_own f c s c' s' tr k d m :
  turn f c s = (Returns c', s', tr) →
  Fs.resolve (cwd this) (Path.join root (file_path f)) = Some k →
  disk s !! k = Some (Fs.File d m) →
  (m < stat_mtime f ∧
   ∃ content,
     source_file this (file_path f) content ∧
     tr = [Call (Stat (Path.join root (file_path f)));
           Call (WriteFile (Path.join root (file_path f)) content)] ∧
     disk s' !! k = Some (Fs.File content (clock this (ticks s)))) ∨
  (stat_mtime f ≤ m ∧ s' = s ∧ tr = [Call (Stat (Path.join root (file_path f)))]).
Proof.
  intros Hrun Hk Hfile.
  assert (Hn : entry this s (Path.join root (file_path f)) = Some (Fs.File d m))
    by (unfold entry; by rewrite Hk).
  unfold turn in Hrun. rewrite (syncExistingFile_present _ _ _ _ _ _ Hn) in Hrun.
  change (Fs.mtime_of (Fs.File d m)) with m in Hrun.
  destruct (Z.ltb_spec m (stat_mtime f)) as [Hlt|Hge].
  - left. split; [done|].
    unfold adapter_readBinary in Hrun at 1.
    destruct (adapter (vault this) !! file_path f) as [[ty content]|] eqn:Hsrc;
      [|done].
    simpl in Hrun.
    destruct (String.eqb_spec ty "file") as [->|Hty]; [|done].
    rewrite bind_ret in Hrun.
    rewrite (bind_returns _ _ _ _ _ _
               (fs_writeFile_over_file this _ k content d m s Hk Hfile)) in Hrun.
    simpl in Hrun. injection Hrun as _ <- <-.
    exists content. split; [done|]. split; [done|]. simpl.
    by rewrite lookup_insert_eq.
  - right. injection Hrun as _ <- <-. done.
Qed.

(** Over a pass that returns: a regular file at the target path of a listed
    file, the target paths of the listing being distinct, is written
    exactly when it is older than the file, with the bytes of the file. *)
Lemma for_of_overwrites files c s c' s' tr f k d m :
  for_of turn files c s = (Returns c', s', tr) →
  NoDup ((λ g, Fs.resolve (cwd this) (Path.join root (file_path g))) <$> files) →
  f ∈ files →
  Fs.resolve (cwd this) (Path.join root (file_path f)) = Some k →
  disk s !! k = Some (Fs.File d m) →
  ((∃ content, Call (WriteFile (Path.join root (file_path f)) content) ∈ tr)
   ↔ m < stat_mtime f) ∧
  (m < stat_mtime f →
   ∃ content t,
     source_file this (file_path f) content ∧
     Call (WriteFile (Path.join root (file_path f)) content) ∈ tr ∧
     disk s' !! k = Some (Fs.File content t)) ∧
  (¬ m < stat_mtime f → disk s' !! k = Some (Fs.File d m)).
Proof.
  revert c s tr. induction files as [|g files IH]; intros c s tr; simpl.
  { intros _ _ Hin. by apply elem_of_nil in Hin. }
  destruct (turn g c s) as [[[c1|e] s1] tr1] eqn:Hturn;
    [|by rewrite (bind_throws _ _ _ _ _ _ Hturn)].
  rewrite (bind_returns _ _ _ _ _ _ Hturn).
  destruct (for_of turn files c1 s1) as [[r2 s2] tr2] eqn:Hrest.
  intros [= -> <- <-] Hdistinct Hin Hk Hfile.
  apply NoDup_cons in Hdistinct as [Hg Hdistinct].
  destruct (decide (Fs.resolve (cwd this) (Path.join root (file_path g)) = Some k))
    as [Hsame|Hother].
  - (* the turn of [g] is the one that decides *)
    assert (Hrest_out :
      Some k ∉ (λ g, Fs.resolve (cwd this) (Path.join root (file_path g))) <$> files)
      by (by rewrite <- Hsame).
    assert (Hf : f = g ∨ f ∈ files) by (by apply elem_of_cons in Hin).
    assert (Hpath : ∀ content,
      Call (WriteFile (Path.join root (file_path f)) content) ∉ tr2).
    { intros content Hw.
      destruct (turn_own _ _ _ _ _ _ _ _ _ Hturn Hsame Hfile)
        as [(_ & content' & _ & _ & Hfile1)|(_ & -> & _)].
      - destruct (for_of_frame _ _ _ _ _ _ k _ _ Hrest Hrest_out Hfile1) as [_ Hnone].
        exact (Hnone _ _ Hk Hw).
      - destruct (for_of_frame _ _ _ _ _ _ k _ _ Hrest Hrest_out Hfile) as [_ Hnone].
        exact (Hnone _ _ Hk Hw). }
    assert (Hfg : f = g).
    { destruct Hf as [?|Hf]; [done|]. destruct Hrest_out.
      apply list_elem_of_fmap. by exists f. }
    subst g.
    destruct (turn_own _ _ _ _ _ _ _ _ _ Hturn Hsame Hfile)
      as [(Hlt & content & Hsrc & -> & Hfile1)|(Hge & -> & ->)].
    + destruct (for_of_frame _ _ _ _ _ _ k _ _ Hrest Hrest_out Hfile1) as [Hfile2 _].
      assert (Hw : Call (WriteFile (Path.join root (file_path f)) content)
                     ∈ [Call (Stat (Path.join root (file_path f)));
                        Call (WriteFile (Path.join root (file_path f)) content)] ++ tr2).
      { apply elem_of_app. left. apply elem_of_cons. right. by apply elem_of_cons; left. }
      split; [split; [done|by exists content]|].
      split; [|lia]. intros _. by exists content, (clock this (ticks s)).
    + destruct (for_of_frame _ _ _ _ _ _ k _ _ Hrest Hrest_out Hfile) as [Hfile2 _].
      split; [|split; [lia|done]].
      split; [|lia]. intros (content & Hw).
      apply elem_of_app in Hw as [Hw|Hw]; [|by destruct (Hpath content)].
      by apply list_elem_of_singleton in Hw.
  - (* the turn of [g] leaves the file alone *)
    assert (Hf : f ∈ files).
    { apply elem_of_cons in Hin as [->|?]; [done|done]. }
    destruct (turn_frame _ _ _ _ _ _ k d m Hturn Hother Hfile) as [Hfile1 Hnone1].
    destruct (IH _ _ _ Hrest Hdistinct Hf Hk Hfile1) as (Hiff & Hstale & Hfresh).
    split; [|split; [|done]].
    + rewrite <- Hiff. split; intros (content & Hw); exists content.
      * apply elem_of_app in Hw as [Hw|Hw]; [by destruct (Hnone1 _ content Hk)|done].
      * apply elem_of_app. by right.
    + intros Hlt. destruct (Hstale Hlt) as (content & t & Hsrc & Hw & Hfile2).
      exists content, t. split; [done|]. split; [|done]. apply elem_of_app. by right.
Qed.

End PassFrame.

(** ** What the counters of the loop count *)

Section PassTally.
Variable this : Plugin.
Implicit Types (s : state) (f : TFile) (c : counters) (files : list TFile).

Let root := expandTargetPath this.
Let turn := syncExistingFile this root.

(** A turn that returns counts its file as created exactly when its target
    path named nothing, and as updated exactly when it named an older
    entry. *)
Lemma turn_tally f c s c' s' tr :
  turn f c s = (Returns c', s', tr) →
  created c' =
    (created c + if is_missing (entry this s (target_of this (file_path f))) f
                 then 1 else 0)%nat ∧
  updated c' =
    (updated c + if is_stale (entry this s (target_of this (file_path f))) f
                 then 1 else 0)%nat.
Proof.
  intros Hrun. apply syncExistingFile_returns in Hrun. simpl in Hrun.
  unfold target_of. fold root.
  destruct Hrun as [(content & s0 & tr0 & -> & _ & _ & _ & ->)
                   |[(n & content & -> & Hlt & _ & _ & ->)
                    |(n & -> & Hge & _ & _ & ->)]]; simpl.
  - lia.
  - apply Z.ltb_lt in Hlt. rewrite Hlt. lia.
  - apply Z.ltb_ge in Hge. rewrite Hge. lia.
Qed.

Lemma for_of_tally files c s c' s' tr :
  for_of turn files c s = (Returns c', s', tr) →
  created c' = (created c + found_missing this files c s)%nat ∧
  updated c' = (updated c + found_stale this files c s)%nat.
Proof.
  unfold found_missing, found_stale.
  revert c s tr. induction files as [|f files IH]; intros c s tr; simpl.
  - intros [= <- <- <-]. lia.
  - fold root. fold turn.
    destruct (turn f c s) as [[[c1|e] s1] tr1] eqn:Hturn.
    + rewrite (bind_returns _ _ _ _ _ _ Hturn).
      destruct (for_of turn files c1 s1) as [[r2 s2] tr2] eqn:Hrest.
      intros [= -> <- <-].
      destruct (turn_tally _ _ _ _ _ _ Hturn) as [Hc Hu].
      destruct (IH _ _ _ Hrest) as [Hc' Hu']. lia.
    + by rewrite (bind_throws _ _ _ _ _ _ Hturn).
Qed.

End PassTally.

(** ** The Created handler for a file *)

Section CreateFile.
Variable this : Plugin.
Variable file : TAbstractFile.
Variable content : list byte.
Hypothesis Hsource : source_file this (path file) content.

Let targetPath := target_of this (path file).

(** With the target root available, the handler for a file is the
    materialisation of the parent followed by the write. *)
Lemma syncFileCreate_file_eq s :
  Fs.is_dir (entry this s (expandTargetPath this)) = true →
  syncFileCreate this file s =
    let head := [Console Log ("Syncing new file: '" +:+ path file +:+ "'");
                 Call (Stat (expandTargetPath this))] in
    match ensureParentDirectory this targetPath s with
    | (Throws e, s0, tr0) => (Throws e, s0, head ++ tr0)
    | (Returns _, s0, tr0) =>
        match fs_writeFile this targetPath content s0 with
        | (Throws e, s1, tr1) => (Throws e, s1, head ++ tr0 ++ tr1)
        | (Returns _, s1, tr1) =>
            (Returns tt, s1,
             head ++ tr0 ++ tr1 ++
               if notifyCreate (settings this)
               then [Notify ("Synced new file '" +:+ name file +:+ "'")] else [])
        end
    end.
Proof.
  intros Hroot.
  unfold syncFileCreate, console_print. rewrite bind_emit.
  rewrite (bind_returns _ _ _ _ _ _ (targetPathExists_eq this s)), Hroot. simpl.
  unfold adapter_stat. rewrite bind_ret.
  red in Hsource. rewrite Hsource. simpl.
  unfold ensureTargetPath. rewrite bind_assoc. fold (target_of this (path file)).
  fold targetPath.
  destruct (ensureParentDirectory this targetPath s) as [[[[]|e] s0] tr0] eqn:Hparent.
  - rewrite (bind_returns _ _ _ _ _ _ Hparent), bind_ret.
    rewrite (bind_returns _ _ _ _ _ _ (adapter_readBinary_source this _ _ s0 Hsource)).
    simpl.
    destruct (fs_writeFile this targetPath content s0) as [[[[]|e] s1] tr1] eqn:Hwrite.
    + rewrite (bind_returns _ _ _ _ _ _ Hwrite).
      destruct (notifyCreate (settings this)); simpl; by rewrite ?app_nil_r.
    + by rewrite (bind_throws _ _ _ _ _ _ Hwrite).
  - by rewrite (bind_throws _ _ _ _ _ _ Hparent).
Qed.

End CreateFile.

(** ** The rename handler *)

Section RenameHandler.
Variable this : Plugin.
Variable file : TAbstractFile.
Variable oldPath : string.
Implicit Types (s : state).

Let oldTargetPath := target_of this oldPath.
Let newTargetPath := target_of this (path file).

Lemma fs_rename_inv old new s r s' tr :
  fs_rename this old new s = (r, s', tr) →
  tr = [Call (Rename old new)] ∧ (∀ e, r = Throws e → disk s' = disk s).
Proof.
  unfold fs_rename, bind, emit, locate, ret, throw, modify.
  destruct (Fs.resolve (cwd this) old) as [k|]; [|by intros [= <- <- <-]].
  destruct (Fs.resolve (cwd this) new) as [k'|]; [|by intros [= <- <- <-]].
  destruct (Fs.rename _ k k' (disk s)); by intros [= <- <- <-].
Qed.

(** Renaming a path that names nothing is refused. *)
Lemma fs_rename_missing old new s :
  entry this s old = None →
  ∃ e s', fs_rename this old new s = (Throws e, s', [Call (Rename old new)]).
Proof.
  unfold entry, fs_rename, bind, emit, locate, ret, throw, modify.
  destruct (Fs.resolve (cwd this) old) as [k|]; simpl; [|by eexists _, _].
  intros Hk. destruct (Fs.resolve (cwd this) new) as [k'|]; [|by eexists _, _].
  unfold Fs.rename. rewrite Hk. by eexists _, _.
Qed.

(** With the target root available, the handler is the materialisation of
    the new parent followed by the guarded rename. *)
Lemma syncFileRename_eq s :
  Fs.is_dir (entry this s (expandTargetPath this)) = true →
  syncFileRename this file oldPath s =
    let head :=
      [Console Log ("Syncing file rename from '" +:+ oldPath +:+ "' to '"
                      +:+ path file +:+ "'");
       Call (Stat (expandTargetPath this))] in
    match ensureParentDirectory this newTargetPath s with
    | (Throws e, s0, tr0) => (Throws e, s0, head ++ tr0)
    | (Returns _, s0, tr0) =>
        match fs_rename this oldTargetPath newTargetPath s0 with
        | (Returns _, s1, tr1) =>
            (Returns tt, s1,
             head ++ tr0 ++ tr1 ++
               if notifyRename (settings this)
               then [Notify ("Synced rename file '" +:+ name file +:+ "' (was '"
                               +:+ oldPath +:+ "')")]
               else [])
        | (Throws _, s1, tr1) =>
            (Returns tt, s1,
             head ++ tr0 ++ tr1 ++
               [Console Error (rename_failure_message oldTargetPath newTargetPath);
                Notify (rename_failure_message oldTargetPath newTargetPath)])
        end
    end.
Proof.
  intros Hroot. unfold syncFileRename, console_print, Notice. rewrite bind_emit.
  rewrite (bind_returns _ _ _ _ _ _ (targetPathExists_eq this s)), Hroot. simpl.
  fold (target_of this oldPath) (target_of this (path file)).
  fold oldTargetPath newTargetPath.
  destruct (ensureParentDirectory this newTargetPath s) as [[[[]|e] s0] tr0] eqn:Hp.
  - rewrite (bind_returns _ _ _ _ _ _ Hp). unfold try_catch.
    destruct (fs_rename this oldTargetPath newTargetPath s0) as [[[[]|e] s1] tr1] eqn:Hr.
    + rewrite (bind_returns _ _ _ _ _ _ Hr).
      destruct (notifyRename (settings this)); simpl; by rewrite ?app_nil_r.
    + by rewrite (bind_throws _ _ _ _ _ _ Hr).
  - by rewrite (bind_throws _ _ _ _ _ _ Hp).
Qed.

End RenameHandler.

(** ** Replacing the home placeholder *)

Section Replace.
Implicit Types (s pat repl before after : string).

Lemma append_cons (c : ascii) s1 s2 : String c s1 +:+ s2 = String c (s1 +:+ s2).
Proof. reflexivity. Qed.

Lemma starts_with_drop pat s :
  JsString.starts_with pat s = true →
  s = pat +:+ JsString.drop (String.length pat) s.
Proof.
  revert s. induction pat as [|a pat IH]; intros [|b s]; simpl; try done.
  destruct (Ascii.eqb_spec a b) as [->|]; [|done].
  intros H. rewrite append_cons. f_equal. by apply IH.
Qed.

(** [split_first] cuts the text at an occurrence of the pattern. *)
Lemma split_first_spec pat s before after :
  JsString.split_first pat s = Some (before, after) →
  s = before +:+ pat +:+ after.
Proof.
  revert before. induction s as [|c s IH]; intros before; simpl.
  - destruct (JsString.starts_with pat "") eqn:Hpat; [|done].
    intros [= <- <-]. by apply starts_with_drop in Hpat.
  - destruct (JsString.starts_with pat (String c s)) eqn:Hpat.
    + intros [= <- <-]. by apply starts_with_drop in Hpat.
    + destruct (JsString.split_first pat s) as [[b a]|]; [|done].
      intros [= <- <-]. rewrite append_cons. f_equal. by apply IH.
Qed.

(** A replacement text without a dollar sign is inserted as it is. *)
Lemma get_substitution_dollar_free pat before after repl :
  JsString.dollar_free repl = true →
  JsString.get_substitution pat before after repl = repl.
Proof.
  induction repl as [|c repl IH]; [done|].
  change (JsString.dollar_free (String c repl))
    with (if Ascii.eqb c "$" then false else JsString.dollar_free repl).
  destruct (Ascii.eqb_spec c "$"%char) as [->|Hc]; [done|].
  intros Hfree. specialize (IH Hfree).
  destruct c as [[] [] [] [] [] [] [] []]; try done; cbn; by rewrite IH.
Qed.

End Replace.

(** * The claims *)

(** ** C1: nothing is written while the target root is unavailable *)

(** C1. For each of the four event handlers and for the reconciliation
    pass: when the resolved target root names nothing or names something
    that is not a directory, the operation returns normally, leaves the
    filesystem and the clock untouched, shows no notice, and its only
    filesystem call is the [stat] of the target root, so no [mkdir],
    [writeFile], [rm] or [rename] is made. *)
Theorem unavailable_target_is_noop (this : Plugin) (op : operation) (s : state) :
  Fs.is_dir (entry this s (expandTargetPath this)) = false →
  ∃ tr, run this op s = (Returns tt, s, tr) ∧
        fs_calls tr = [Stat (expandTargetPath this)] ∧
        writes tr = [] ∧
        notices tr = [].
Proof.
  intros Hroot.
  destruct op; simpl;
    unfold syncFileCreate, syncFileModify, syncFileDelete, syncFileRename,
      syncExistingFiles, bind, console_print, emit;
    rewrite targetPathExists_eq, Hroot; simpl;
    eexists; (split; [reflexivity|]); done.
Qed.

(** C1 at work: a Created event while the target root is missing. *)
Lemma unavailable_target_is_noop_witness :
  ∃ tr,
    run Demo.plugin (OnCreate Demo.created_note) Demo.no_mirror =
      (Returns tt, Demo.no_mirror, tr) ∧
    fs_calls tr = [Stat (expandTargetPath Demo.plugin)] ∧
    writes tr = [] ∧
    notices tr = [].
Proof.
  apply (unavailable_target_is_noop Demo.plugin (OnCreate Demo.created_note)
           Demo.no_mirror).
  vm_compute. reflexivity.
Defined.

(** ** C2: staleness decides the overwrite *)

(** One turn of the loop for a source file whose target path names an
    entry: [writeFile] is called on the target path exactly when the
    entry's modification time is strictly less than the source's;
    otherwise, and so whenever the two times are equal, the turn makes no
    modifying call and leaves the state as it is. When the stale entry is a
    regular file the call is accepted and the file then holds the source
    bytes. *)
Lemma turn_overwrites_iff_stale (this : Plugin) (f : TFile)
    (c : counters) (s : state) (n : Fs.node) (content : list byte) :
  let targetPath := target_of this (file_path f) in
  entry this s targetPath = Some n →
  source_file this (file_path f) content →
  ∃ r s' tr,
    syncExistingFile this (expandTargetPath this) f c s = (r, s', tr) ∧
    (Call (WriteFile targetPath content) ∈ tr ↔ Fs.mtime_of n < stat_mtime f) ∧
    (writes tr ≠ [] ↔ Fs.mtime_of n < stat_mtime f) ∧
    (Fs.mtime_of n = stat_mtime f → writes tr = []) ∧
    (¬ Fs.mtime_of n < stat_mtime f → r = Returns (seen c) ∧ s' = s) ∧
    (Fs.mtime_of n < stat_mtime f → Fs.isDirectory (Fs.stats_of n) = false →
     r = Returns (seen_updated c) ∧
     entry this s' targetPath = Some (Fs.File content (clock this (ticks s)))).
Proof.
  intros targetPath Hn Hsrc.
  subst targetPath. unfold target_of in *.
  set (targetPath := Path.join (expandTargetPath this) (file_path f)) in *.
  rewrite (syncExistingFile_present this _ _ c _ _ Hn).
  destruct (Z.ltb_spec (Fs.mtime_of n) (stat_mtime f)) as [Hlt|Hge].
  - rewrite (bind_returns _ _ _ _ _ _ (adapter_readBinary_source this _ _ s Hsrc)).
    destruct (fs_writeFile this targetPath content s) as [[r1 s1] tr1] eqn:Hw.
    destruct (fs_writeFile_inv this _ _ _ _ _ _ Hw) as (-> & _ & Hret & _).
    assert (Hfile : Fs.isDirectory (Fs.stats_of n) = false →
              r1 = Returns tt ∧
              entry this s1 targetPath =
                Some (Fs.File content (clock this (ticks s)))).
    { intros Hkind. destruct n as [d m|m]; [|done].
      unfold entry in Hn.
      destruct (Fs.resolve (cwd this) _) as [k|] eqn:Hk; [|done]. simpl in Hn.
      rewrite (fs_writeFile_over_file this _ k content d m s Hk Hn) in Hw.
      injection Hw as <- <-. split; [done|].
      unfold entry. rewrite Hk. simpl. by rewrite lookup_insert_eq. }
    destruct r1 as [[]|e].
    + rewrite (bind_returns _ _ _ _ _ _ Hw). simpl.
      eexists _, _, _. split; [reflexivity|].
      split; [split; [done|]; intros _; by repeat constructor|].
      split; [done|]. split; [lia|]. split; [lia|].
      intros _ Hkind. by destruct (Hfile Hkind) as [_ ?].
    + rewrite (bind_throws _ _ _ _ _ _ Hw).
      eexists _, _, _. split; [reflexivity|].
      split; [split; [done|]; intros _; by repeat constructor|].
      split; [done|]. split; [lia|]. split; [lia|].
      intros _ Hkind. by destruct (Hfile Hkind) as [? _].
  - eexists _, _, _. split; [reflexivity|].
    split; [split; [|lia]; intros Hin|].
    { apply list_elem_of_singleton in Hin. done. }
    split; [split; [intros Hw; by destruct Hw|lia]|].
    split; [done|]. split; [done|]. lia.
Qed.

(** C2 (as amended). In a reconciliation pass that returns normally, with
    the target root available and no two listed files sharing a target
    path, for every listed file whose target path holds a regular file when
    the pass starts: [writeFile] is called on the target path exactly when
    the modification time of that file is strictly less than the source's.
    When it is, the call carries the bytes the vault has for the file and
    the target file holds them after the pass; when it is not, and so
    whenever the two times are equal, no [writeFile] on the target path
    occurs and the target file is after the pass exactly as it was. *)
Theorem reconcile_overwrites_iff_stale (this : Plugin) (s s' : state)
    (tr : list event) (f : TFile) (k : Fs.key) (d : list byte) (m : Z) :
  let targetPath := target_of this (file_path f) in
  Fs.is_dir (entry this s (expandTargetPath this)) = true →
  NoDup (target_keys this) →
  syncExistingFiles this s = (Returns tt, s', tr) →
  f ∈ getFiles (vault this) →
  Fs.resolve (cwd this) targetPath = Some k →
  disk s !! k = Some (Fs.File d m) →
  ((∃ content, Call (WriteFile targetPath content) ∈ tr) ↔ m < stat_mtime f) ∧
  (m < stat_mtime f →
   ∃ content t,
     source_file this (file_path f) content ∧
     Call (WriteFile targetPath content) ∈ tr ∧
     disk s' !! k = Some (Fs.File content t)) ∧
  (¬ m < stat_mtime f → disk s' !! k = Some (Fs.File d m)) ∧
  (m = stat_mtime f → ∀ content, Call (WriteFile targetPath content) ∉ tr).
Proof.
  intros targetPath Hroot Hdistinct Hrun Hf Hk Hfile.
  rewrite (syncExistingFiles_eq this s Hroot) in Hrun.
  destruct (for_of _ (getFiles (vault this)) no_counts s) as [[[c|e] s1] loop] eqn:Hloop;
    [|done].
  injection Hrun as <- <-.
  destruct (for_of_overwrites this _ _ _ _ _ _ f k d m Hloop Hdistinct Hf Hk Hfile)
    as (Hiff & Hstale & Hfresh).
  fold (target_of this (file_path f)) in Hiff, Hstale. fold targetPath in Hiff, Hstale.
  assert (Hloop_only : ∀ content,
    Call (WriteFile targetPath content)
      ∈ Call (Stat (expandTargetPath this)) :: Console Log "Syncing existing files ..."
          :: loop ++ [Console Log (summary_message c); Notify (summary_message c)]
    ↔ Call (WriteFile targetPath content) ∈ loop).
  { intros content. split.
    - intros Hin.
      apply elem_of_cons in Hin as [Heq|Hin]; [done|].
      apply elem_of_cons in Hin as [Heq|Hin]; [done|].
      apply elem_of_app in Hin as [Hin|Hin]; [done|].
      apply elem_of_cons in Hin as [Heq|Hin]; [done|].
      by apply list_elem_of_singleton in Hin.
    - intros Hin. do 2 (apply elem_of_cons; right). apply elem_of_app. by left. }
  assert (Hiff' :
    (∃ content,
       Call (WriteFile targetPath content)
         ∈ Call (Stat (expandTargetPath this)) :: Console Log "Syncing existing files ..."
             :: loop ++ [Console Log (summary_message c); Notify (summary_message c)])
    ↔ m < stat_mtime f).
  { rewrite <- Hiff. split; intros (content & Hin); exists content; by apply Hloop_only. }
  split; [exact Hiff'|]. split; [|split; [done|]].
  - intros Hlt. destruct (Hstale Hlt) as (content & t & Hsrc & Hin & Hk').
    exists content, t. split; [done|]. split; [by apply Hloop_only|done].
  - intros Heq content Hin.
    assert (m < stat_mtime f); [|lia]. apply Hiff'. by exists content.
Qed.

(** C2 as amended, at work: the copy is one millisecond older than the
    source, and the pass writes it. *)
Lemma reconcile_overwrites_iff_stale_witness :
  ∃ t,
    Call (WriteFile "/home/u/cs/test-notes/a/b.md" (Demo.bytes "x"))
      ∈ (syncExistingFiles Demo.plugin (Demo.copied 499)).2 ∧
    disk (syncExistingFiles Demo.plugin (Demo.copied 499)).1.2 !! Scenes.note_key =
      Some (Fs.File (Demo.bytes "x") t).
Proof.
  destruct (reconcile_overwrites_iff_stale Demo.plugin (Demo.copied 499)
              (syncExistingFiles Demo.plugin (Demo.copied 499)).1.2
              (syncExistingFiles Demo.plugin (Demo.copied 499)).2
              (Demo.note 500) Scenes.note_key (Demo.bytes "old") 499)
    as (_ & Hstale & _).
  - vm_compute. reflexivity.
  - apply NoDup_singleton.
  - vm_compute. reflexivity.
  - apply list_elem_of_singleton. reflexivity.
  - vm_compute. reflexivity.
  - vm_compute. reflexivity.
  - destruct Hstale as (content & t & Hsrc & Hin & Hk); [simpl; lia|].
    assert (content = Demo.bytes "x") as ->.
    { unfold source_file in Hsrc. vm_compute in Hsrc. injection Hsrc as <-.
      vm_compute. reflexivity. }
    exists t. split; [exact Hin|exact Hk].
Defined.

(** C2, as stated, fails when a turn of the loop throws: the pass ends
    there, and a stale target of a file listed later is never written. The
    vault lists [e/new.md] before [a/b.md]; the mirror holds a stray
    regular file [e] and a copy of [a/b.md] that is older than the note.
    The turn of [e/new.md] throws, since its parent cannot be made, and
    [writeFile] is never called on the copy of [a/b.md]. *)
Lemma staleness_counterexample :
  Fs.is_dir (entry Scenes.pair_plugin Scenes.stray_file
               (expandTargetPath Scenes.pair_plugin)) = true ∧
  entry Scenes.pair_plugin Scenes.stray_file
    (target_of Scenes.pair_plugin "a/b.md") = Some (Fs.File (Demo.bytes "old") 0) ∧
  0 < stat_mtime (Demo.note 500) ∧
  (syncExistingFiles Scenes.pair_plugin Scenes.stray_file).1.1 =
    Throws (FsError Fs.EEXIST "mkdir" "/home/u/cs/test-notes/e") ∧
  file_writes (syncExistingFiles Scenes.pair_plugin Scenes.stray_file).2 = [] ∧
  disk (syncExistingFiles Scenes.pair_plugin Scenes.stray_file).1.2 !! Scenes.note_key =
    Some (Fs.File (Demo.bytes "old") 0) ∧
  ¬ staleness_as_stated.
Proof.
  split; [vm_compute; reflexivity|]. split; [vm_compute; reflexivity|].
  split; [done|]. split; [vm_compute; reflexivity|].
  split; [vm_compute; reflexivity|]. split; [vm_compute; reflexivity|].
  intros Hclaim.
  destruct (Hclaim Scenes.pair_plugin Scenes.stray_file (Demo.note 500)
              (Fs.File (Demo.bytes "old") 0))
    as (r & s' & tr & Hrun & Hiff).
  - vm_compute. reflexivity.
  - apply elem_of_cons. right. apply list_elem_of_singleton. reflexivity.
  - vm_compute. reflexivity.
  - destruct Hiff as [_ Hwrite]. destruct Hwrite as (content & Hin); [by vm_compute|].
    vm_compute in Hrun. injection Hrun as <- <- <-.
    repeat (apply elem_of_cons in Hin as [Heq|Hin]; [discriminate Heq|]).
    by apply elem_of_nil in Hin.
Qed.

(** ** C3: a rename that fails *)

(** C3 (as amended). With the target root available and the parent of the
    new target path materialised without error: when the old target path
    then names nothing, or the rename fails for any other reason, the
    handler returns normally. The failure leaves the filesystem as the
    materialisation left it, and the last two events of the handler are the
    error line on the console and the failure notice. *)
Theorem rename_failure_is_contained (this : Plugin) (file : TAbstractFile)
    (oldPath : string) (s s0 : state) (tr0 : list event) :
  let oldTargetPath := target_of this oldPath in
  let newTargetPath := target_of this (path file) in
  Fs.is_dir (entry this s (expandTargetPath this)) = true →
  ensureParentDirectory this newTargetPath s = (Returns tt, s0, tr0) →
  (entry this s0 oldTargetPath = None ∨
   ∃ e s1 tr1, fs_rename this oldTargetPath newTargetPath s0 = (Throws e, s1, tr1)) →
  ∃ s1 before,
    syncFileRename this file oldPath s =
      (Returns tt, s1,
       before ++
         [Console Error (rename_failure_message oldTargetPath newTargetPath);
          Notify (rename_failure_message oldTargetPath newTargetPath)]) ∧
    notices before = [] ∧
    disk s1 = disk s0.
Proof.
  intros oldTargetPath newTargetPath Hroot Hp Hfail.
  assert (∃ e s1, fs_rename this oldTargetPath newTargetPath s0 =
                    (Throws e, s1, [Call (Rename oldTargetPath newTargetPath)]))
    as (e & s1 & Hr).
  { destruct Hfail as [Hmissing|(e & s1 & tr1 & Hr)].
    - by apply fs_rename_missing.
    - destruct (fs_rename_inv this _ _ _ _ _ _ Hr) as [-> _]. by eexists _, _. }
  rewrite (syncFileRename_eq this file oldPath s Hroot). simpl.
  fold oldTargetPath newTargetPath. rewrite Hp, Hr.
  destruct (fs_rename_inv this _ _ _ _ _ _ Hr) as [_ Hdisk].
  apply ensureParentDirectory_inv in Hp as (_ & _ & Htr0).
  eexists s1, (_ :: _ :: tr0 ++ [_]).
  split; [cbn; by rewrite <- app_assoc|].
  split; [|by eapply Hdisk].
  destruct Htr0 as [-> | ->]; done.
Qed.

(** C3 as amended, at work: nothing to rename in an empty mirror. *)
Lemma rename_failure_is_contained_witness :
  ∃ s1 before,
    syncFileRename Demo.plugin Demo.renamed "e/old.md" Demo.empty_mirror =
      (Returns tt, s1,
       before ++
         [Console Error
            (rename_failure_message (target_of Demo.plugin "e/old.md")
               (target_of Demo.plugin "e/new.md"));
          Notify
            (rename_failure_message (target_of Demo.plugin "e/old.md")
               (target_of Demo.plugin "e/new.md"))]) ∧
    notices before = [].
Proof.
  destruct (rename_failure_is_contained Demo.plugin Demo.renamed "e/old.md"
              Demo.empty_mirror
              (ensureParentDirectory Demo.plugin (target_of Demo.plugin "e/new.md")
                 Demo.empty_mirror).1.2
              (ensureParentDirectory Demo.plugin (target_of Demo.plugin "e/new.md")
                 Demo.empty_mirror).2)
    as (s1 & before & Hrun & Hnone & _).
  - vm_compute. reflexivity.
  - vm_compute. reflexivity.
  - left. vm_compute. reflexivity.
  - exists s1, before. split; [exact Hrun|exact Hnone].
Defined.

(** C3, as stated, fails where a regular file [e] sits in the mirror and
    [e/old.md] is renamed to [e/new.md]: the old target path names nothing,
    yet materialising the parent of the new one is refused, outside the
    [try], and the handler throws. *)
Lemma rename_safety_counterexample :
  entry Demo.plugin Demo.file_in_the_way (target_of Demo.plugin "e/old.md") = None ∧
  (syncFileRename Demo.plugin Demo.renamed "e/old.md" Demo.file_in_the_way).1.1 =
    Throws (FsError Fs.EEXIST "mkdir" "/home/u/cs/test-notes/e") ∧
  ¬ rename_safety_as_stated.
Proof.
  split; [vm_compute; reflexivity|]. split; [vm_compute; reflexivity|].
  intros Hclaim.
  destruct (Hclaim Demo.plugin Demo.renamed "e/old.md" Demo.file_in_the_way)
    as (s' & tr & Hrun & _); [vm_compute; reflexivity|].
  vm_compute in Hrun. discriminate Hrun.
Qed.

(** The same claim with the target root missing: the handler returns, but
    all it emits is the warning of the availability check. *)
Example rename_with_root_missing :
  entry Demo.plugin Demo.no_mirror (target_of Demo.plugin "e/old.md") = None ∧
  syncFileRename Demo.plugin Demo.renamed "e/old.md" Demo.no_mirror =
    (Returns tt, Demo.no_mirror,
     [Console Log "Syncing file rename from 'e/old.md' to 'e/new.md'";
      Call (Stat "/home/u/cs/test-notes");
      Console Warn
        "Target path '$HOME/cs/test-notes' does not exist; no synching will take place."]).
Proof. split; vm_compute; reflexivity. Qed.

(** ** C4: replaying a Created(file) event *)

(** C4 (as amended). With the target root available and the item a file
    of the source tree: when one application of the Created handler returns
    normally, a second application with the same source content returns
    normally too, and after each of them the target file holds exactly the
    source bytes; the second application changes nothing but the time stamp
    of the target file. *)
Theorem create_replay (this : Plugin) (file : TAbstractFile)
    (content : list byte) (s s1 : state) (tr1 : list event) :
  Fs.is_dir (entry this s (expandTargetPath this)) = true →
  source_file this (path file) content →
  syncFileCreate this file s = (Returns tt, s1, tr1) →
  ∃ s2 tr2 k m1,
    syncFileCreate this file s1 = (Returns tt, s2, tr2) ∧
    Fs.resolve (cwd this) (target_of this (path file)) = Some k ∧
    disk s1 !! k = Some (Fs.File content m1) ∧
    disk s2 = <[k := Fs.File content (clock this (ticks s1))]> (disk s1).
Proof.
  intros Hroot Hsrc Hrun.
  rewrite (syncFileCreate_file_eq this file content Hsrc s Hroot) in Hrun.
  simpl in Hrun.
  destruct (ensureParentDirectory this _ s) as [[[[]|e] s0] tr0] eqn:Hparent; [|done].
  destruct (fs_writeFile this _ content s0) as [[[[]|e] s1'] tr1'] eqn:Hwrite; [|done].
  injection Hrun as -> _.
  apply ensureParentDirectory_inv in Hparent as (Hadv0 & Hdir0 & _).
  apply fs_writeFile_inv in Hwrite as (_ & Hadv1 & Hfile & _).
  specialize (Hdir0 eq_refl). specialize (Hfile eq_refl).
  assert (Hroot1 : Fs.is_dir (entry this s1 (expandTargetPath this)) = true).
  { eapply advances_is_dir; [|apply Hroot]. by eapply advances_trans. }
  assert (Hdir1 : Fs.is_dir (entry this s1 (Path.dirname (target_of this (path file)))) = true).
  { eapply advances_is_dir; [apply Hadv1|apply Hdir0]. }
  unfold entry in Hfile.
  destruct (Fs.resolve (cwd this) (target_of this (path file))) as [k|] eqn:Hk; [|done].
  simpl in Hfile.
  rewrite (syncFileCreate_file_eq this file content Hsrc s1 Hroot1). simpl.
  rewrite ensureParentDirectory_eq, Hdir1.
  rewrite (fs_writeFile_over_file this _ k content _ _ s1 Hk Hfile).
  eexists _, _, k, _. split; [reflexivity|]. split; [done|]. split; [apply Hfile|].
  done.
Qed.

(** C4 as amended, at work: the note is created twice in an empty mirror. *)
Lemma create_replay_witness :
  ∃ s2 tr2 k m1,
    syncFileCreate Demo.plugin Demo.created_note
      (syncFileCreate Demo.plugin Demo.created_note Demo.empty_mirror).1.2 =
      (Returns tt, s2, tr2) ∧
    Fs.resolve (cwd Demo.plugin) (target_of Demo.plugin "a/b.md") = Some k ∧
    disk (syncFileCreate Demo.plugin Demo.created_note Demo.empty_mirror).1.2 !! k =
      Some (Fs.File (Demo.bytes "x") m1) ∧
    disk s2 !! k = Some (Fs.File (Demo.bytes "x") 1002).
Proof.
  destruct (create_replay Demo.plugin Demo.created_note (Demo.bytes "x")
              Demo.empty_mirror
              (syncFileCreate Demo.plugin Demo.created_note Demo.empty_mirror).1.2
              (syncFileCreate Demo.plugin Demo.created_note Demo.empty_mirror).2)
    as (s2 & tr2 & k & m1 & Hrun & Hk & Hfirst & Hsecond).
  - vm_compute. reflexivity.
  - vm_compute. reflexivity.
  - vm_compute. reflexivity.
  - exists s2, tr2, k, m1. split; [exact Hrun|]. split; [exact Hk|].
    split; [exact Hfirst|]. rewrite Hsecond. apply lookup_insert_eq.
Defined.

(** C4, as stated, fails where a directory sits at the target path of the
    file: both applications are refused with [EISDIR], and no target file
    comes to be. *)
Lemma create_idempotent_counterexample :
  Fs.is_dir (entry Demo.plugin Demo.dir_at_note (expandTargetPath Demo.plugin)) = true ∧
  source_file Demo.plugin "a/b.md" (Demo.bytes "x") ∧
  (syncFileCreate Demo.plugin Demo.created_note Demo.dir_at_note).1.1 =
    Throws (FsError Fs.EISDIR "open" "/home/u/cs/test-notes/a/b.md") ∧
  (syncFileCreate Demo.plugin Demo.created_note
     (syncFileCreate Demo.plugin Demo.created_note Demo.dir_at_note).1.2).1.1 =
    Throws (FsError Fs.EISDIR "open" "/home/u/cs/test-notes/a/b.md") ∧
  ¬ create_idempotent_as_stated.
Proof.
  split; [vm_compute; reflexivity|]. split; [vm_compute; reflexivity|].
  split; [vm_compute; reflexivity|]. split; [vm_compute; reflexivity|].
  intros Hclaim.
  destruct (Hclaim Demo.plugin Demo.created_note (Demo.bytes "x") Demo.dir_at_note)
    as (r1 & s1 & tr1 & s2 & tr2 & m & Hfirst & Hsecond & _);
    [vm_compute; reflexivity|vm_compute; reflexivity|].
  vm_compute in Hfirst. injection Hfirst as <- <- <-.
  vm_compute in Hsecond. discriminate Hsecond.
Qed.

(** ** C5: a second pass finds nothing to do *)

(** C5 (as amended). With the target root available and no listed file
    dated later than the time stamps the target filesystem hands out: when
    a reconciliation pass returns normally, a second pass right after it
    returns normally in the same state, makes no modifying filesystem call,
    and reports every file as seen, none as created and none as updated. *)
Theorem reconcile_twice (this : Plugin) (s s1 : state) (tr1 : list event) :
  Fs.is_dir (entry this s (expandTargetPath this)) = true →
  clock_not_behind this s →
  syncExistingFiles this s = (Returns tt, s1, tr1) →
  ∃ tr2,
    syncExistingFiles this s1 = (Returns tt, s1, tr2) ∧
    writes tr2 = [] ∧
    notices tr2 =
      [summary_message {| fileCount := length (getFiles (vault this));
                          updated := 0; created := 0 |}].
Proof.
  intros Hroot Hclock Hrun.
  rewrite (syncExistingFiles_eq this s Hroot) in Hrun.
  destruct (for_of _ (getFiles (vault this)) no_counts s) as [[[c|e] s1'] loop] eqn:Hloop;
    [|done].
  injection Hrun as <- _.
  destruct (for_of_settles this _ _ _ _ _ _ Hloop Hclock) as (Hadv & Hall).
  assert (Hroot1 : Fs.is_dir (entry this s1' (expandTargetPath this)) = true).
  { eapply advances_is_dir; [exact Hadv|exact Hroot]. }
  rewrite (syncExistingFiles_eq this s1' Hroot1).
  rewrite (for_of_settled this _ no_counts s1' Hall).
  eexists. split; [reflexivity|].
  set (stats := (λ f, Call (Stat (target_of this (file_path f)))) <$> _).
  assert (Hstats : ∃ cs, stats = Call <$> cs ∧ List.filter is_write cs = []).
  { subst stats. clear. induction (getFiles (vault this)) as [|f files IH].
    - by exists [].
    - destruct IH as (cs & IH1 & IH2).
      exists (Stat (target_of this (file_path f)) :: cs). cbn. by rewrite IH1, IH2. }
  destruct Hstats as (cs & -> & Hnone).
  split.
  - unfold writes. cbn. unfold fs_calls. rewrite omap_app.
    fold (fs_calls (Call <$> cs)). rewrite fs_calls_calls.
    rewrite List.filter_app, Hnone. done.
  - unfold notices. cbn. rewrite omap_app.
    fold (notices (Call <$> cs)). by rewrite notices_calls.
Qed.

(** C5 as amended, at work: two passes over an empty mirror. *)
Lemma reconcile_twice_witness :
  ∃ tr2,
    syncExistingFiles Demo.plugin (syncExistingFiles Demo.plugin Demo.empty_mirror).1.2 =
      (Returns tt, (syncExistingFiles Demo.plugin Demo.empty_mirror).1.2, tr2) ∧
    writes tr2 = [] ∧
    notices tr2 = ["Synced 1 files; 0 created, 0 updated."].
Proof.
  apply (reconcile_twice Demo.plugin Demo.empty_mirror
           (syncExistingFiles Demo.plugin Demo.empty_mirror).1.2
           (syncExistingFiles Demo.plugin Demo.empty_mirror).2).
  - vm_compute. reflexivity.
  - intros f i Hf _. apply list_elem_of_singleton in Hf as ->. simpl. lia.
  - vm_compute. reflexivity.
Defined.

(** C5, as stated, fails for a source file dated later than the clock of
    the target filesystem: the first pass creates the copy, and the second
    one finds it older than the source and writes it again. *)
Lemma convergence_counterexample :
  Fs.is_dir (entry Demo.late_plugin Demo.empty_mirror (expandTargetPath Demo.late_plugin)) = true ∧
  notices (syncExistingFiles Demo.late_plugin Demo.empty_mirror).2 =
    ["Synced 1 files; 1 created, 0 updated."] ∧
  notices (syncExistingFiles Demo.late_plugin
             (syncExistingFiles Demo.late_plugin Demo.empty_mirror).1.2).2 =
    ["Synced 1 files; 0 created, 1 updated."] ∧
  file_writes (syncExistingFiles Demo.late_plugin
                 (syncExistingFiles Demo.late_plugin Demo.empty_mirror).1.2).2 =
    [WriteFile "/home/u/cs/test-notes/a/b.md" (Demo.bytes "x")] ∧
  ¬ convergence_as_stated.
Proof.
  split; [vm_compute; reflexivity|]. split; [vm_compute; reflexivity|].
  split; [vm_compute; reflexivity|]. split; [vm_compute; reflexivity|].
  intros Hclaim.
  destruct (Hclaim Demo.late_plugin Demo.empty_mirror eq_refl _ _ _ eq_refl)
    as (r2 & s2 & tr2 & Hsecond & Hwrites & _).
  vm_compute in Hsecond. injection Hsecond as <- <- <-.
  vm_compute in Hwrites. discriminate Hwrites.
Qed.

(** ** C6: a Created event of an unrecognised kind *)

(** C6 (as amended). With the target root available, the handler for an
    item whose kind is neither file nor folder does what materialising the
    parent of the target path does, then logs the warning, and nothing
    else: it ends as [ensureParentDirectory] ends and in the same state, its
    only filesystem calls are the stat of the root, the stat of the parent
    and possibly the recursive [mkdir] of the parent, and it shows no
    notice. When the parent directory is already there, the filesystem is
    left entirely unchanged. *)
Theorem create_unknown_kind (this : Plugin) (file : TAbstractFile) (s : state) :
  let targetPath := target_of this (path file) in
  let kind := optional_type (adapter (vault this) !! path file) in
  kind ≠ Some "folder" → kind ≠ Some "file" →
  Fs.is_dir (entry this s (expandTargetPath this)) = true →
  ∃ r s' tr0,
    ensureParentDirectory this targetPath s = (r, s', tr0) ∧
    syncFileCreate this file s =
      (r, s',
       [Console Log ("Syncing new file: '" +:+ path file +:+ "'");
        Call (Stat (expandTargetPath this))] ++ tr0 ++
       match r with
       | Returns _ => [Console Warn ("Unknown file type: '" +:+ template kind +:+ "'")]
       | Throws _ => []
       end) ∧
    (tr0 = [Call (Stat (Path.dirname targetPath))] ∨
     tr0 = [Call (Stat (Path.dirname targetPath));
            Call (Mkdir (Path.dirname targetPath) true)]) ∧
    (Fs.is_dir (entry this s (Path.dirname targetPath)) = true →
     r = Returns tt ∧ s' = s ∧ tr0 = [Call (Stat (Path.dirname targetPath))]).
Proof.
  intros targetPath kind Hfolder Hfile Hroot.
  destruct (ensureParentDirectory this targetPath s) as [[r s'] tr0] eqn:Hp.
  exists r, s', tr0. split; [done|].
  split.
  - unfold syncFileCreate, console_print. rewrite bind_emit.
    rewrite (bind_returns _ _ _ _ _ _ (targetPathExists_eq this s)), Hroot. simpl.
    unfold adapter_stat. rewrite bind_ret. fold kind.
    rewrite !bool_decide_false by done.
    unfold ensureTargetPath. rewrite bind_assoc.
    fold (target_of this (path file)). fold targetPath.
    destruct r as [[]|e].
    + by rewrite (bind_returns _ _ _ _ _ _ Hp), bind_ret.
    + rewrite (bind_throws _ _ _ _ _ _ Hp). by rewrite app_nil_r.
  - pose proof Hp as Hp'.
    apply ensureParentDirectory_inv in Hp' as (_ & _ & Htr0).
    split; [done|]. intros Hdir.
    rewrite ensureParentDirectory_eq, Hdir in Hp. by injection Hp as <- <- <-.
Qed.

(** C6 as amended, at work: an unknown item below a directory that the
    mirror does not have yet. *)
Lemma create_unknown_kind_witness :
  ∃ r s' tr0,
    ensureParentDirectory Demo.plugin (target_of Demo.plugin "c/d.md")
      Demo.empty_mirror = (r, s', tr0) ∧
    syncFileCreate Demo.plugin Demo.ghost Demo.empty_mirror =
      (r, s',
       [Console Log "Syncing new file: 'c/d.md'";
        Call (Stat (expandTargetPath Demo.plugin))] ++ tr0 ++
       match r with
       | Returns _ => [Console Warn "Unknown file type: 'undefined'"]
       | Throws _ => []
       end).
Proof.
  destruct (create_unknown_kind Demo.plugin Demo.ghost Demo.empty_mirror)
    as (r & s' & tr0 & Hp & Hrun & _).
  - vm_compute. discriminate.
  - vm_compute. discriminate.
  - vm_compute. reflexivity.
  - exists r, s', tr0. split; [exact Hp|exact Hrun].
Defined.

(** C6, as stated, fails for an unknown item below a directory that the
    mirror does not have yet: the handler returns after the warning, and
    the directory has been made. *)
Lemma unknown_kind_frame_counterexample :
  optional_type (adapter (vault Demo.plugin) !! "c/d.md") = None ∧
  (syncFileCreate Demo.plugin Demo.ghost Demo.empty_mirror).1.1 = Returns tt ∧
  disk Demo.empty_mirror !! ("c" :: Demo.root_key) = None ∧
  disk (syncFileCreate Demo.plugin Demo.ghost Demo.empty_mirror).1.2
    !! ("c" :: Demo.root_key) = Some (Fs.Dir 1000) ∧
  ¬ unknown_kind_frame_as_stated.
Proof.
  split; [vm_compute; reflexivity|]. split; [vm_compute; reflexivity|].
  split; [vm_compute; reflexivity|]. split; [vm_compute; reflexivity|].
  intros Hclaim.
  destruct (Hclaim Demo.plugin Demo.ghost Demo.empty_mirror)
    as (r & s' & tr & Hrun & Hdisk); [vm_compute; discriminate..|].
  assert (Hc : disk s' !! ("c" :: Demo.root_key) = Some (Fs.Dir 1000)).
  { apply (f_equal (λ x, disk x.1.2 !! ("c" :: Demo.root_key))) in Hrun.
    simpl in Hrun. rewrite <- Hrun. vm_compute. reflexivity. }
  rewrite Hdisk in Hc. vm_compute in Hc. discriminate Hc.
Qed.

(** ** C7: materialising the parent directory *)

(** C7 (as amended). [ensureParentDirectory] takes [path.dirname] of the
    target path and stats it before anything else. If that is a directory
    it returns with the state unchanged and no further call. If it names
    nothing, it calls the recursive [mkdir] on it, which is accepted when
    the root is there and no regular file sits on the way; afterwards the
    parent is a directory, so are all its ancestors when the filesystem is a
    tree, and no entry off that chain has changed. If it is a regular file,
    the same recursive [mkdir] is refused with [EEXIST], the handler
    throws, and the filesystem is unchanged. *)
Theorem ensureParentDirectory_spec (this : Plugin) (targetPath : string) (s : state) :
  let targetParent := Path.dirname targetPath in
  ∃ r s' rest,
    ensureParentDirectory this targetPath s = (r, s', Call (Stat targetParent) :: rest) ∧
    (Fs.is_dir (entry this s targetParent) = true →
     r = Returns tt ∧ s' = s ∧ rest = []) ∧
    (∀ k, Fs.resolve (cwd this) targetParent = Some k → disk s !! k = None →
          Fs.is_dir (disk s !! []) = true →
          (∀ a d m, suffix a k → disk s !! a ≠ Some (Fs.File d m)) →
          r = Returns tt ∧ rest = [Call (Mkdir targetParent true)] ∧
          Fs.is_dir (disk s' !! k) = true ∧
          (Fs.tree_shaped (disk s) → ∀ a, suffix a k → Fs.is_dir (disk s' !! a) = true) ∧
          (∀ key, ¬ suffix key k → disk s' !! key = disk s !! key)) ∧
    (∀ d m, entry this s targetParent = Some (Fs.File d m) →
            r = Throws (FsError Fs.EEXIST "mkdir" targetParent) ∧
            rest = [Call (Mkdir targetParent true)] ∧
            disk s' = disk s).
Proof.
  intros targetParent. rewrite ensureParentDirectory_eq. fold targetParent.
  unfold entry.
  destruct (Fs.resolve (cwd this) targetParent) as [k|] eqn:Hk; simpl.
  - destruct (disk s !! k) as [[d m|m]|] eqn:Hnode; simpl.
    + unfold fs_mkdir, bind, emit, locate, ret, modify. rewrite Hk.
      assert (Hrun : ∀ t, Fs.mkdirp t k (disk s) = inl Fs.EEXIST).
      { intros t. destruct k; simpl; by rewrite Hnode. }
      rewrite Hrun. eexists _, _, _. split; [reflexivity|].
      split; [done|]. split; [intros ? [= <-] Hnone; congruence|]. done.
    + eexists _, _, _. split; [reflexivity|].
      split; [done|]. split; [intros ? [= <-] Hnone; congruence|]. done.
    + unfold fs_mkdir, bind, emit, locate, ret, modify. rewrite Hk.
      destruct (Fs.mkdirp _ k (disk s)) as [e|fs'] eqn:Hrun.
      * eexists _, _, _. split; [reflexivity|]. split; [done|]. split; [|done].
        intros ? [= <-] _ Hroot Hfree.
        destruct (mkdirp_accepts (clock this (ticks s)) k (disk s) Hroot Hfree)
          as [fs' Hok]. congruence.
      * eexists _, _, _. split; [reflexivity|]. split; [done|]. split; [|done].
        intros ? [= <-] _ Hroot Hfree. simpl.
        split; [done|]. split; [done|].
        split; [by eapply mkdirp_is_dir|].
        split; [intros Htree; by eapply mkdirp_chain|].
        intros key Hkey. by eapply mkdirp_frame.
  - unfold fs_mkdir, bind, emit, locate, throw. rewrite Hk.
    eexists _, _, _. split; [reflexivity|]. done.
Qed.

(** C7, as stated, fails where the parent of the target path is a regular
    file: the recursive [mkdir] is refused because the path already exists,
    and nothing is created. *)
Lemma ensureParent_counterexample :
  entry Demo.plugin Demo.file_in_the_way (Path.dirname "/home/u/cs/test-notes/e/new.md") =
    Some (Fs.File (Demo.bytes "z") 0) ∧
  (ensureParentDirectory Demo.plugin "/home/u/cs/test-notes/e/new.md"
     Demo.file_in_the_way).1.1 =
    Throws (FsError Fs.EEXIST "mkdir" "/home/u/cs/test-notes/e") ∧
  disk (ensureParentDirectory Demo.plugin "/home/u/cs/test-notes/e/new.md"
          Demo.file_in_the_way).1.2 = disk Demo.file_in_the_way ∧
  ¬ ensureParent_as_stated.
Proof.
  split; [vm_compute; reflexivity|]. split; [vm_compute; reflexivity|].
  split; [vm_compute; reflexivity|].
  intros Hclaim.
  destruct (Hclaim Demo.plugin "/home/u/cs/test-notes/e/new.md" Demo.file_in_the_way)
    as (s' & tr & Hrun & _).
  vm_compute in Hrun. discriminate Hrun.
Qed.

(** ** C8: expanding the home placeholder *)

(** What [expandTargetPath] returns when the home value contains no dollar
    sign: the configured text with its first placeholder replaced by the
    home value, and the configured text itself when there is no placeholder
    or no home value. *)
Lemma expandTargetPath_plain (this : Plugin) :
  match env_HOME this with
  | Some home =>
      JsString.dollar_free home = true →
      match JsString.split_first "$HOME" (targetDirectory (settings this)) with
      | Some (before, after) =>
          targetDirectory (settings this) = before +:+ "$HOME" +:+ after ∧
          expandTargetPath this = before +:+ home +:+ after
      | None => expandTargetPath this = targetDirectory (settings this)
      end
  | None => expandTargetPath this = targetDirectory (settings this)
  end.
Proof.
  unfold expandTargetPath, JsString.replace.
  destruct (env_HOME this) as [home|]; [|done].
  intros Hfree.
  destruct (JsString.split_first _ _) as [[before after]|] eqn:Hsplit; [|done].
  split; [by apply split_first_spec|].
  by rewrite get_substitution_dollar_free.
Qed.

(** C8 fails on the code for a home value with a replacement pattern in
    it: of the two dollar signs of [/mnt/$$vol] only one reaches the
    result, so the placeholder has not been replaced by the home value. *)
Theorem expandTargetPath_dollar_home :
  env_HOME Demo.dollar_plugin = Some "/mnt/$$vol" ∧
  targetDirectory (settings Demo.dollar_plugin) = "$HOME/cs/test-notes" ∧
  expandTargetPath Demo.dollar_plugin = "/mnt/$vol/cs/test-notes" ∧
  expandTargetPath Demo.dollar_plugin ≠ "/mnt/$$vol/cs/test-notes" ∧
  ¬ expansion_as_stated.
Proof.
  split; [reflexivity|]. split; [reflexivity|]. split; [vm_compute; reflexivity|].
  split; [vm_compute; discriminate|].
  intros Hclaim.
  specialize (Hclaim Demo.dollar_plugin "/mnt/$$vol" "" "/cs/test-notes" eq_refl eq_refl).
  vm_compute in Hclaim. discriminate Hclaim.
Qed.

(** ** C9: one summary notice, after the listing *)

(** C9 (as amended). With the target root available, the reconciliation
    pass either exhausts the listing and then returns, or a turn of the
    loop throws and the pass throws with it. In the first case its very
    last event is a notice, the only one of the whole pass, and it reads
    [Synced N files; C created, U updated.], where N is the number of
    listed files, C the number of them whose target path named nothing
    when their turn began, and U the number of them whose target path
    named an older entry when their turn began; C and U together count the
    [writeFile] calls of the pass, and N is the sum of C, U and the files
    whose turn made no modifying call. In the second case no notice is
    shown at all. *)
Theorem reconcile_summary (this : Plugin) (s : state) :
  Fs.is_dir (entry this s (expandTargetPath this)) = true →
  ∃ r s' tr,
    syncExistingFiles this s = (r, s', tr) ∧
    match r with
    | Returns _ =>
        let files := getFiles (vault this) in
        let created := found_missing this files no_counts s in
        let updated := found_stale this files no_counts s in
        let message :=
          "Synced " +:+ pretty (length files) +:+ " files; " +:+ pretty created
            +:+ " created, " +:+ pretty updated +:+ " updated." in
        (∃ before, tr = before ++ [Notify message] ∧ notices before = []) ∧
        notices tr = [message] ∧
        (created + updated)%nat = length (file_writes tr) ∧
        length files =
          (created + updated + untouched this files no_counts s)%nat
    | Throws _ => notices tr = []
    end.
Proof.
  intros Hroot. rewrite (syncExistingFiles_eq this s Hroot).
  destruct (for_of _ (getFiles (vault this)) no_counts s) as [[[c|e] s1] tr1] eqn:Hloop.
  - destruct (for_of_calls_only _ _ _ _ _ _ _ Hloop) as [cs ->].
    destruct (for_of_counts _ _ _ _ _ _ _ Hloop) as (Hn & Hw & Hu).
    destruct (for_of_tally _ _ _ _ _ _ _ Hloop) as (Hc & Hup).
    simpl in Hn, Hw, Hu, Hc, Hup.
    eexists _, _, _. split; [reflexivity|]. cbv zeta.
    assert (Hmsg : summary_message c =
      "Synced " +:+ pretty (length (getFiles (vault this))) +:+ " files; "
        +:+ pretty (found_missing this (getFiles (vault this)) no_counts s)
        +:+ " created, "
        +:+ pretty (found_stale this (getFiles (vault this)) no_counts s)
        +:+ " updated.").
    { unfold summary_message. by rewrite Hn, Hc, Hup. }
    rewrite <- Hmsg, <- Hc, <- Hup.
    assert (Hnone : ∀ tl, notices ((Call <$> cs) ++ tl) = notices tl).
    { intros tl. unfold notices. rewrite omap_app.
      fold (notices (Call <$> cs)). by rewrite notices_calls. }
    split.
    { exists (Call (Stat (expandTargetPath this))
                :: Console Log "Syncing existing files ..."
                :: (Call <$> cs) ++ [Console Log (summary_message c)]).
      split; [cbn; by rewrite <- app_assoc|]. cbn. apply Hnone. }
    split; [cbn; apply Hnone|].
    split; [|lia].
    rewrite Hw.
    change (file_writes (Call (Stat (expandTargetPath this))
              :: Console Log "Syncing existing files ..."
              :: (Call <$> cs) ++ [Console Log (summary_message c);
                                   Notify (summary_message c)]))
      with (file_writes ((Call <$> cs) ++ [Console Log (summary_message c);
                                            Notify (summary_message c)])).
    rewrite file_writes_app. cbn. by rewrite app_nil_r.
  - destruct (for_of_calls_only _ _ _ _ _ _ _ Hloop) as [cs ->].
    eexists _, _, _. split; [reflexivity|].
    cbn. apply notices_calls.
Qed.

(** C9 as amended, at work: the pass over an empty mirror. *)
Lemma reconcile_summary_witness :
  ∃ s' before,
    syncExistingFiles Demo.plugin Demo.empty_mirror =
      (Returns tt, s', before ++ [Notify "Synced 1 files; 1 created, 0 updated."]) ∧
    notices before = [].
Proof.
  destruct (reconcile_summary Demo.plugin Demo.empty_mirror)
    as (r & s' & tr & Hrun & Hres).
  - vm_compute. reflexivity.
  - destruct r as [[]|e]; [|vm_compute in Hrun; discriminate Hrun].
    destruct Hres as ((before & Htr & Hnone) & _).
    exists s', before. split; [|exact Hnone].
    rewrite Hrun, Htr. reflexivity.
Defined.

(** C9, as stated, fails when a turn of the loop throws: the target root
    is available, and the pass shows no notice at all. Here a directory
    sits where the copy of [a/b.md] belongs; it is older than the note, the
    write is refused, and the pass throws before the summary. *)
Lemma summary_counterexample :
  Fs.is_dir (entry Demo.plugin Demo.dir_at_note (expandTargetPath Demo.plugin)) = true ∧
  (syncExistingFiles Demo.plugin Demo.dir_at_note).1.1 =
    Throws (FsError Fs.EISDIR "open" "/home/u/cs/test-notes/a/b.md") ∧
  notices (syncExistingFiles Demo.plugin Demo.dir_at_note).2 = [] ∧
  ¬ summary_as_stated.
Proof.
  split; [vm_compute; reflexivity|]. split; [vm_compute; reflexivity|].
  split; [vm_compute; reflexivity|].
  intros Hclaim.
  destruct (Hclaim Demo.plugin Demo.dir_at_note eq_refl)
    as (r & s' & tr & msg & Hrun & Hnotice).
  vm_compute in Hrun. injection Hrun as <- <- <-.
  vm_compute in Hnotice. discriminate Hnotice.
Qed.

(** ** C10: the notices of the rename handler *)

(** C10. When the handler reaches the rename, the notices it shows are
    decided as follows: if the rename fails, exactly the failure notice,
    whatever the [notifyRename] setting is; if it succeeds, the success
    notice when [notifyRename] is set and none otherwise. *)
Theorem rename_notices (this : Plugin) (file : TAbstractFile)
    (oldPath : string) (s s0 s1 : state) (tr0 tr1 : list event)
    (r : outcome unit) :
  let oldTargetPath := target_of this oldPath in
  let newTargetPath := target_of this (path file) in
  Fs.is_dir (entry this s (expandTargetPath this)) = true →
  ensureParentDirectory this newTargetPath s = (Returns tt, s0, tr0) →
  fs_rename this oldTargetPath newTargetPath s0 = (r, s1, tr1) →
  ∃ tr,
    syncFileRename this file oldPath s = (Returns tt, s1, tr) ∧
    notices tr =
      match r with
      | Throws _ => [rename_failure_message oldTargetPath newTargetPath]
      | Returns _ =>
          if notifyRename (settings this)
          then ["Synced rename file '" +:+ name file +:+ "' (was '" +:+ oldPath +:+ "')"]
          else []
      end.
Proof.
  intros oldTargetPath newTargetPath Hroot Hp Hr.
  rewrite (syncFileRename_eq this file oldPath s Hroot). simpl.
  fold oldTargetPath newTargetPath. rewrite Hp, Hr.
  destruct (fs_rename_inv this _ _ _ _ _ _ Hr) as [-> _].
  apply ensureParentDirectory_inv in Hp as (_ & _ & Htr0).
  destruct r as [[]|e]; eexists; (split; [reflexivity|]).
  - destruct Htr0 as [-> | ->]; by destruct (notifyRename (settings this)).
  - destruct Htr0 as [-> | ->]; done.
Qed.

(** C10 at work: the failed rename in an empty mirror, with the default
    settings, where [notifyRename] is set. *)
Lemma rename_notices_witness :
  ∃ tr,
    syncFileRename Demo.plugin Demo.renamed "e/old.md" Demo.empty_mirror =
      (Returns tt,
       (fs_rename Demo.plugin (target_of Demo.plugin "e/old.md")
          (target_of Demo.plugin "e/new.md")
          (ensureParentDirectory Demo.plugin (target_of Demo.plugin "e/new.md")
             Demo.empty_mirror).1.2).1.2, tr) ∧
    notices tr =
      ["Failed to rename '/home/u/cs/test-notes/e/old.md' to '/home/u/cs/test-notes/e/new.md'"].
Proof.
  apply (rename_notices Demo.plugin Demo.renamed "e/old.md" Demo.empty_mirror
           (ensureParentDirectory Demo.plugin (target_of Demo.plugin "e/new.md")
              Demo.empty_mirror).1.2
           ((fs_rename Demo.plugin (target_of Demo.plugin "e/old.md")
               (target_of Demo.plugin "e/new.md")
               (ensureParentDirectory Demo.plugin (target_of Demo.plugin "e/new.md")
                  Demo.empty_mirror).1.2).1.2)
           (ensureParentDirectory Demo.plugin (target_of Demo.plugin "e/new.md")
              Demo.empty_mirror).2
           [Call (Rename (target_of Demo.plugin "e/old.md")
                    (target_of Demo.plugin "e/new.md"))]
           (Throws (FsError Fs.ENOENT "rename" (target_of Demo.plugin "e/old.md")))).
  - vm_compute. reflexivity.
  - vm_compute. reflexivity.
  - vm_compute. reflexivity.
Defined.

(** ** Further properties of the specification *)

(** Notification gating: with the target root available, what the Created
    handler does to the filesystem for a file does not depend on
    [notifyCreate]; the setting decides only whether the notice is shown. *)
Lemma create_notice_is_gated (this : Plugin) (file : TAbstractFile)
    (content : list byte) (s : state) :
  Fs.is_dir (entry this s (expandTargetPath this)) = true →
  source_file this (path file) content →
  ∃ r s' tr,
    syncFileCreate this file s = (r, s', tr) ∧
    notices tr =
      match r with
      | Returns _ =>
          if notifyCreate (settings this)
          then ["Synced new file '" +:+ name file +:+ "'"] else []
      | Throws _ => []
      end.
Proof.
  intros Hroot Hsrc.
  rewrite (syncFileCreate_file_eq this file content Hsrc s Hroot). simpl.
  destruct (ensureParentDirectory this _ s) as [[[[]|e] s0] tr0] eqn:Hp;
    apply ensureParentDirectory_inv in Hp as (_ & _ & Htr0).
  - destruct (fs_writeFile this _ content s0) as [[[[]|e] s1] tr1] eqn:Hw;
      apply fs_writeFile_inv in Hw as (-> & _);
      eexists _, _, _; (split; [reflexivity|]);
      destruct Htr0 as [-> | ->]; try done;
      by destruct (notifyCreate (settings this)).
  - eexists _, _, _. split; [reflexivity|]. by destruct Htr0 as [-> | ->].
Qed.

(** The scenarios of the specification. *)

Example scenario_reconcile_empty_mirror :
  (syncExistingFiles Demo.plugin Demo.empty_mirror).1.1 = Returns tt ∧
  entry Demo.plugin (syncExistingFiles Demo.plugin Demo.empty_mirror).1.2
    "/home/u/cs/test-notes/a/b.md" = Some (Fs.File (Demo.bytes "x") 1001) ∧
  notices (syncExistingFiles Demo.plugin Demo.empty_mirror).2 =
    ["Synced 1 files; 1 created, 0 updated."].
Proof. repeat split; vm_compute; reflexivity. Qed.

Example scenario_created_file_makes_parent :
  (syncFileCreate Demo.plugin Demo.created_note Demo.empty_mirror).1.1 = Returns tt ∧
  entry Demo.plugin (syncFileCreate Demo.plugin Demo.created_note Demo.empty_mirror).1.2
    "/home/u/cs/test-notes/a/b.md" = Some (Fs.File (Demo.bytes "x") 1001) ∧
  Fs.is_dir (entry Demo.plugin
               (syncFileCreate Demo.plugin Demo.created_note Demo.empty_mirror).1.2
               "/home/u/cs/test-notes/a") = true.
Proof. repeat split; vm_compute; reflexivity. Qed.

Example scenario_rename_moves_the_copy :
  let renamed := {| path := "a/c.md"; name := "c.md" |} in
  let s := (syncFileRename Demo.plugin renamed "a/b.md" (Demo.copied 700)).1.2 in
  entry Demo.plugin s "/home/u/cs/test-notes/a/c.md" =
    Some (Fs.File (Demo.bytes "old") 700) ∧
  entry Demo.plugin s "/home/u/cs/test-notes/a/b.md" = None ∧
  notices (syncFileRename Demo.plugin renamed "a/b.md" (Demo.copied 700)).2 =
    ["Synced rename file 'c.md' (was 'a/b.md')"].
Proof. repeat split; vm_compute; reflexivity. Qed.

Example scenario_equal_times_no_write :
  syncExistingFile Demo.plugin (expandTargetPath Demo.plugin) (Demo.note 500)
    no_counts (Demo.copied 500) =
    (Returns (seen no_counts), Demo.copied 500,
     [Call (Stat "/home/u/cs/test-notes/a/b.md")]).
Proof. vm_compute. reflexivity. Qed.

Example demo_mirror_is_a_tree : Fs.tree_shaped (disk Demo.empty_mirror).
Proof.
  intros seg up [n Hn].
  apply elem_of_list_to_map_2 in Hn.
  unfold Demo.above_root, Demo.root_key in Hn. simpl in Hn.
  repeat (apply elem_of_cons in Hn as [Heq|Hn];
          [simplify_eq; by vm_compute|]).
  by apply elem_of_nil in Hn.
Qed.

(** * The rest of the code *)

(** ** Deciding the hypotheses on a given filesystem *)

Section Checks.

Lemma tree_shapedb_sound (fs : gmap Fs.key Fs.node) :
  tree_shapedb fs = true → Fs.tree_shaped fs.
Proof.
  unfold tree_shapedb. rewrite forallb_forall. intros Hall seg up [n Hn].
  apply elem_of_map_to_list, list_elem_of_In in Hn. by apply Hall in Hn.
Qed.

Lemma suffix_upwards (a k : Fs.key) : suffix a k → In a (upwards k).
Proof.
  induction k as [|seg up IH]; intros Hs.
  - apply suffix_nil_inv in Hs as ->. by left.
  - apply suffix_cons_cases in Hs as [->|Hs]; [by left|]. right. by apply IH.
Qed.

Lemma clear_wayb_sound (fs : gmap Fs.key Fs.node) (k : Fs.key) :
  clear_wayb fs k = true → clear_way fs k.
Proof.
  unfold clear_wayb. rewrite forallb_forall. intros Hall a d m Ha Hfile.
  apply suffix_upwards, Hall in Ha. by rewrite Hfile in Ha.
Qed.

End Checks.

(** ** What only grows *)

Section Growth.
Variable this : Plugin.

Lemma grows_ret {A} (a : A) : grows this (ret a).
Proof. intros s r s' tr [= <- <- <-]. apply advances_refl. Qed.

Lemma grows_throw {A} (e : exn) : grows this (@throw A e).
Proof. intros s r s' tr [= <- <- <-]. apply advances_refl. Qed.

Lemma grows_emit (e : event) : grows this (emit e).
Proof. intros s r s' tr [= <- <- <-]. apply advances_refl. Qed.

Lemma grows_bind {A B} (m : M A) (k : A → M B) :
  grows this m → (∀ a, grows this (k a)) → grows this (bind m k).
Proof.
  intros Hm Hk s r s' tr. unfold bind.
  destruct (m s) as [[[a|e] s1] tr1] eqn:Hrun.
  - destruct (k a s1) as [[r2 s2] tr2] eqn:Hrest.
    intros [= <- <- <-]. eapply advances_trans; [by eapply Hm|by eapply Hk].
  - intros [= <- <- <-]. by eapply Hm.
Qed.

Lemma grows_try_catch {A} (body handler : M A) :
  grows this body → grows this handler → grows this (try_catch body handler).
Proof.
  intros Hb Hh s r s' tr. unfold try_catch.
  destruct (body s) as [[[a|e] s1] tr1] eqn:Hrun.
  - intros [= <- <- <-]. by eapply Hb.
  - destruct (handler s1) as [[r2 s2] tr2] eqn:Hrest.
    intros [= <- <- <-]. eapply advances_trans; [by eapply Hb|by eapply Hh].
Qed.

Lemma grows_modify syscall p op :
  (∀ t fs fs', op t fs = inr fs' → Fs.persists t fs fs') →
  grows this (modify this syscall p op).
Proof. intros Hop s r s' tr Hrun. by eapply modify_advances. Qed.

Lemma grows_locate syscall p : grows this (locate this syscall p).
Proof.
  unfold locate. destruct (Fs.resolve _ p); [apply grows_ret|apply grows_throw].
Qed.

Lemma grows_fs_stat p : grows this (fs_stat this p).
Proof.
  intros s r s' tr. rewrite fs_stat_eq. intros [= <- <- <-]. apply advances_refl.
Qed.

Lemma mkdir_persists t k fs fs' :
  Fs.mkdir t k fs = inr fs' → Fs.persists t fs fs'.
Proof.
  unfold Fs.mkdir. destruct (fs !! k) eqn:Hk; [done|].
  destruct (fs !! Fs.parent k) as [[]|]; try done.
  intros [= <-]. eapply persists_trans; [apply persists_touch|].
  apply persists_insert_fresh. by rewrite touch_lookup, Hk.
Qed.

Lemma grows_fs_mkdir p recursive : grows this (fs_mkdir this p recursive).
Proof.
  unfold fs_mkdir.
  apply grows_bind; [apply grows_emit|intros _].
  apply grows_bind; [apply grows_locate|intros k].
  apply grows_modify. intros t fs fs' Hrun.
  destruct recursive; [by eapply mkdirp_persists|by eapply mkdir_persists].
Qed.

Lemma grows_fs_writeFile p content : grows this (fs_writeFile this p content).
Proof.
  unfold fs_writeFile.
  apply grows_bind; [apply grows_emit|intros _].
  apply grows_bind; [apply grows_locate|intros k].
  apply grows_modify. intros t fs fs' Hrun. by eapply writeFile_persists.
Qed.

Lemma grows_adapter_readBinary p : grows this (adapter_readBinary this p).
Proof.
  intros s r s' tr Hrun.
  destruct (adapter_readBinary_pure this p s) as [r0 Hpure].
  rewrite Hpure in Hrun. injection Hrun as <- <- <-. apply advances_refl.
Qed.

Lemma grows_for_of {A S} (body : A → S → M S) (items : list A) (acc : S) :
  (∀ x a, grows this (body x a)) → grows this (for_of body items acc).
Proof.
  intros Hbody. revert acc. induction items as [|x items IH]; intros acc; simpl.
  - apply grows_ret.
  - apply grows_bind; [apply Hbody|apply IH].
Qed.

End Growth.

Create HintDb grow.

#[local] Hint Resolve grows_ret grows_throw grows_emit grows_fs_stat
  grows_fs_mkdir grows_fs_writeFile grows_adapter_readBinary grows_locate : grow.

Ltac solve_grows :=
  repeat first
    [ progress eauto with grow
    | apply grows_bind; [|intros ?]
    | apply grows_try_catch
    | apply grows_for_of; intros ? ?
    | match goal with
      | |- grows _ (if ?b then _ else _) => destruct b
      | |- grows _ (match ?o with Some _ => _ | None => _ end) => destruct o
      end ].

(** X1. The Created and the Modified handler and the reconciliation pass
    only let the target filesystem grow, whether they return or throw:
    every entry that was there is still there with its kind, and is either
    exactly as it was or carries the time stamp of a modifying call made in
    between. In particular none of them removes an entry or replaces a
    directory by a file. *)
Theorem copying_only_grows (this : Plugin) :
  (∀ file, grows this (syncFileCreate this file)) ∧
  (∀ file, grows this (syncFileModify this file)) ∧
  grows this (syncExistingFiles this).
Proof.
  split; [|split].
  - intros file.
    unfold syncFileCreate, targetPathExists, ensureTargetPath,
      ensureParentDirectory, safeStat, adapter_stat, console_print, Notice.
    solve_grows.
  - intros file.
    unfold syncFileModify, targetPathExists, ensureTargetPath,
      ensureParentDirectory, safeStat, console_print, Notice.
    solve_grows.
  - unfold syncExistingFiles, syncExistingFile, targetPathExists,
      ensureParentDirectory, safeStat, console_print, Notice.
    solve_grows.
Qed.

(** ** What a path that names nothing is refused with *)

Section Refusals.
Implicit Types (fs : gmap Fs.key Fs.node) (k a : Fs.key).

Lemma blocked_cases k fs :
  Fs.blocked k fs = None ∨ Fs.blocked k fs = Some Fs.ENOENT ∨
  Fs.blocked k fs = Some Fs.ENOTDIR.
Proof.
  induction k as [|seg up IH]; simpl; [by left|].
  destruct IH as [->|[->| ->]]; auto.
  destruct (fs !! up) as [[]|]; auto.
Qed.

(** Such a path is refused by the [lstat] of [fs.rm]. *)
Lemma missing_syscall k fs : Fs.rm_syscall (Fs.missing k fs) = "lstat".
Proof.
  unfold Fs.missing. by destruct (blocked_cases k fs) as [->|[->| ->]].
Qed.

(** In a tree nothing stands in the way to an entry that is there. *)
Lemma blocked_tree k fs :
  Fs.tree_shaped fs → is_Some (fs !! k) → Fs.blocked k fs = None.
Proof.
  intros Htree. induction k as [|seg up IH]; intros Hk; simpl; [done|].
  pose proof (Htree _ _ Hk) as Hup.
  destruct (fs !! up) as [[|m]|] eqn:Hfs; try done.
  by rewrite IH.
Qed.

(** With no regular file on the way, the refusal is [ENOENT]. *)
Lemma missing_clear k fs : clear_way fs k → Fs.missing k fs = Fs.ENOENT.
Proof.
  unfold Fs.missing. intros Hclear.
  assert (H : Fs.blocked k fs = None ∨ Fs.blocked k fs = Some Fs.ENOENT);
    [|by destruct H as [-> | ->]].
  induction k as [|seg up IH]; simpl; [by left|].
  simpl in Hclear.
  destruct IH as [-> | ->]; [| |by right].
  - intros a d m Ha. apply Hclear. destruct up; [done|]. by apply suffix_cons_r.
  - destruct (fs !! up) as [[d m|m]|] eqn:Hup; auto.
    by destruct (Hclear up d m).
Qed.

(** Below a regular file of a tree, the refusal is [ENOTDIR]. *)
Lemma blocked_cons seg up fs :
  Fs.blocked (seg :: up) fs =
    match Fs.blocked up fs with
    | Some e => Some e
    | None =>
        match fs !! up with
        | Some (Fs.Dir _) => None
        | Some (Fs.File _ _) => Some Fs.ENOTDIR
        | None => Some Fs.ENOENT
        end
    end.
Proof. reflexivity. Qed.

Lemma blocked_below_file seg up a fs d m :
  Fs.tree_shaped fs → suffix a up → fs !! a = Some (Fs.File d m) →
  Fs.blocked (seg :: up) fs = Some Fs.ENOTDIR.
Proof.
  intros Htree Ha Hfile. revert seg.
  induction up as [|x up IH]; intros seg; rewrite blocked_cons.
  - apply suffix_nil_inv in Ha as ->. simpl. by rewrite Hfile.
  - apply suffix_cons_cases in Ha as [->|Ha].
    + rewrite blocked_tree by (done || by rewrite Hfile). by rewrite Hfile.
    + by rewrite (IH Ha x).
Qed.

(** Below a regular file of a tree, the refusal is [ENOTDIR]. *)
Lemma missing_below_file k a fs d m :
  Fs.tree_shaped fs → fs !! k = None →
  suffix a (Fs.parent k) → fs !! a = Some (Fs.File d m) →
  Fs.missing k fs = Fs.ENOTDIR.
Proof.
  intros Htree Hk Ha Hfile. unfold Fs.missing.
  destruct k as [|seg up]; simpl in Ha.
  - apply suffix_nil_inv in Ha as ->. congruence.
  - by rewrite (blocked_below_file seg up a fs d m).
Qed.

Variable this : Plugin.

Lemma lookup_errno_clear (s : state) (p : string) k :
  Fs.resolve (cwd this) p = Some k → clear_way (disk s) k →
  lookup_errno this s p = Fs.ENOENT.
Proof. unfold lookup_errno. intros -> Hclear. by apply missing_clear. Qed.

Lemma lookup_errno_below_file (s : state) (p : string) k a d m :
  Fs.resolve (cwd this) p = Some k → disk s !! k = None →
  Fs.tree_shaped (disk s) →
  suffix a (Fs.parent k) → disk s !! a = Some (Fs.File d m) →
  lookup_errno this s p = Fs.ENOTDIR.
Proof. unfold lookup_errno. intros -> ????. by eapply missing_below_file. Qed.

End Refusals.

(** ** The Deleted handler *)

Section DeleteHandler.
Variable this : Plugin.
Variable file : TAbstractFile.
Implicit Types (s : state).

Let targetPath := target_of this (path file).

(** [rm] on a path that resolves. *)
Lemma fs_rm_eq p k s :
  Fs.resolve (cwd this) p = Some k →
  fs_rm this p s =
    match disk s !! k with
    | Some (Fs.File _ _) =>
        (Returns tt,
         mkState (delete k (Fs.touch (Fs.parent k) (clock this (ticks s)) (disk s)))
           (S (ticks s)),
         [Call (Rm p)])
    | Some (Fs.Dir _) =>
        (Throws (FsError Fs.EISDIR "rm" p), mkState (disk s) (S (ticks s)), [Call (Rm p)])
    | None =>
        (Throws (FsError (Fs.missing k (disk s)) "lstat" p),
         mkState (disk s) (S (ticks s)), [Call (Rm p)])
    end.
Proof.
  intros Hk. unfold fs_rm, bind, emit, locate, ret, Fs.rm. rewrite Hk.
  destruct (disk s !! k) as [[]|]; try done.
  by rewrite missing_syscall.
Qed.

(** With the target root available, the handler is the [rm] of the target
    path, followed by the notice when the [rm] is accepted. *)
Lemma syncFileDelete_eq s :
  Fs.is_dir (entry this s (expandTargetPath this)) = true →
  syncFileDelete this file s =
    let head := [Console Log ("Syncing deletion of file '" +:+ path file +:+ "'");
                 Call (Stat (expandTargetPath this))] in
    match fs_rm this targetPath s with
    | (Returns _, s1, tr1) =>
        (Returns tt, s1,
         head ++ tr1 ++
           if notifyDelete (settings this)
           then [Notify ("Synced deleted file '" +:+ name file +:+ "'")] else [])
    | (Throws e, s1, tr1) => (Throws e, s1, head ++ tr1)
    end.
Proof.
  intros Hroot. unfold syncFileDelete, console_print, Notice. rewrite bind_emit.
  rewrite (bind_returns _ _ _ _ _ _ (targetPathExists_eq this s)), Hroot. simpl.
  fold (target_of this (path file)). fold targetPath.
  destruct (fs_rm this targetPath s) as [[[[]|e] s1] tr1] eqn:Hrm.
  - rewrite (bind_returns _ _ _ _ _ _ Hrm).
    destruct (notifyDelete (settings this)); simpl; by rewrite ?app_nil_r.
  - by rewrite (bind_throws _ _ _ _ _ _ Hrm).
Qed.

End DeleteHandler.

(** X2. With the target root available and a regular file at the target
    path, the Deleted handler returns normally; afterwards the target path
    names nothing, every other regular file is exactly as it was and every
    directory is still a directory. Its filesystem calls are the stat of
    the root and the [rm] of the target path, and it shows its notice
    exactly when [notifyDelete] is set. *)
Theorem delete_removes_the_copy (this : Plugin) (file : TAbstractFile)
    (s : state) (k : Fs.key) (d : list byte) (m : Z) :
  let targetPath := target_of this (path file) in
  Fs.is_dir (entry this s (expandTargetPath this)) = true →
  Fs.resolve (cwd this) targetPath = Some k →
  disk s !! k = Some (Fs.File d m) →
  ∃ s' tr,
    syncFileDelete this file s = (Returns tt, s', tr) ∧
    disk s' !! k = None ∧
    (∀ k' d' m', k' ≠ k → disk s !! k' = Some (Fs.File d' m') →
                 disk s' !! k' = Some (Fs.File d' m')) ∧
    (∀ k', Fs.is_dir (disk s !! k') = true → Fs.is_dir (disk s' !! k') = true) ∧
    (∀ k', disk s !! k' = None → disk s' !! k' = None) ∧
    fs_calls tr = [Stat (expandTargetPath this); Rm targetPath] ∧
    notices tr =
      if notifyDelete (settings this)
      then ["Synced deleted file '" +:+ name file +:+ "'"] else [].
Proof.
  intros targetPath Hroot Hk Hfile.
  rewrite (syncFileDelete_eq this file s Hroot). simpl. fold targetPath.
  rewrite (fs_rm_eq this _ _ s Hk), Hfile.
  eexists _, _. split; [reflexivity|]. simpl.
  split; [by rewrite lookup_delete_eq|].
  split.
  { intros k' d' m' Hne Hk'. rewrite lookup_delete_ne by done.
    by rewrite touch_lookup, Hk'. }
  split.
  { intros k' Hdir. destruct (decide (k = k')) as [<-|Hne]; [by rewrite Hfile in Hdir|].
    rewrite lookup_delete_ne by done. rewrite touch_lookup.
    by destruct (disk s !! k') as [[]|]. }
  split.
  { intros k' Hnone. destruct (decide (k = k')) as [<-|Hne]; [by rewrite lookup_delete_eq|].
    rewrite lookup_delete_ne by done. by rewrite touch_lookup, Hnone. }
  by destruct (notifyDelete (settings this)).
Qed.

(** X2 at work: the copy of [a/b.md] is removed. *)
Lemma delete_removes_the_copy_witness :
  ∃ s' tr,
    syncFileDelete Demo.plugin Demo.created_note (Demo.copied 0) = (Returns tt, s', tr) ∧
    disk s' !! Scenes.note_key = None ∧
    fs_calls tr = [Stat "/home/u/cs/test-notes"; Rm "/home/u/cs/test-notes/a/b.md"] ∧
    notices tr = ["Synced deleted file 'b.md'"].
Proof.
  destruct (delete_removes_the_copy Demo.plugin Demo.created_note (Demo.copied 0)
              Scenes.note_key (Demo.bytes "old") 0)
    as (s' & tr & Hrun & Hgone & _ & _ & _ & Hcalls & Hnotice).
  - vm_compute. reflexivity.
  - vm_compute. reflexivity.
  - vm_compute. reflexivity.
  - exists s', tr. split; [exact Hrun|]. split; [exact Hgone|].
    split; [exact Hcalls|exact Hnotice].
Defined.

(** X3. With the target root available, when the target path names
    nothing or names a directory, the Deleted handler throws, leaves the
    filesystem unchanged and shows no notice, whatever [notifyDelete] is.
    A directory is refused by [rm] with [EISDIR]. A path that names nothing
    is refused by the [lstat] that [fs.rm] starts with: with [ENOENT] when
    no regular file is on the way to it, and in a tree with [ENOTDIR] when
    a regular file is. *)
Theorem delete_refused (this : Plugin) (file : TAbstractFile) (s : state) :
  let targetPath := target_of this (path file) in
  Fs.is_dir (entry this s (expandTargetPath this)) = true →
  (entry this s targetPath = None ∨ Fs.is_dir (entry this s targetPath) = true) →
  ∃ e s' tr,
    syncFileDelete this file s = (Throws e, s', tr) ∧
    disk s' = disk s ∧
    fs_calls tr = [Stat (expandTargetPath this); Rm targetPath] ∧
    notices tr = [] ∧
    (Fs.is_dir (entry this s targetPath) = true →
     e = FsError Fs.EISDIR "rm" targetPath) ∧
    (∀ k, Fs.resolve (cwd this) targetPath = Some k → disk s !! k = None →
          clear_way (disk s) k →
          e = FsError Fs.ENOENT "lstat" targetPath) ∧
    (∀ k a d m, Fs.resolve (cwd this) targetPath = Some k → disk s !! k = None →
                Fs.tree_shaped (disk s) →
                suffix a (Fs.parent k) → disk s !! a = Some (Fs.File d m) →
                e = FsError Fs.ENOTDIR "lstat" targetPath).
Proof.
  intros targetPath Hroot Hcase.
  rewrite (syncFileDelete_eq this file s Hroot). simpl. fold targetPath.
  unfold entry in *.
  destruct (Fs.resolve (cwd this) targetPath) as [k|] eqn:Hk; simpl in *.
  - rewrite (fs_rm_eq this _ _ s Hk).
    destruct (disk s !! k) as [[]|] eqn:Hn; simpl in *.
    + by destruct Hcase.
    + eexists _, _, _. do 4 (split; [reflexivity|]).
      split; [done|]. split; [intros k' [= <-]; congruence|intros k' a d m' [= <-]; congruence].
    + eexists _, _, _. do 4 (split; [reflexivity|]).
      split; [done|]. split.
      * intros k' [= <-] _ Hclear. by rewrite missing_clear.
      * intros k' a d m [= <-] _ Htree Ha Hfile.
        by rewrite (missing_below_file k a (disk s) d m).
  - unfold fs_rm, bind, emit, locate, throw. rewrite Hk.
    eexists _, _, _. do 4 (split; [reflexivity|]). by repeat split.
Qed.

(** X3 at work: there is no copy to remove in an empty mirror, and none
    below the regular file [e]. *)
Lemma delete_refused_witness :
  (∃ s' tr,
     syncFileDelete Demo.plugin Demo.created_note Demo.empty_mirror =
       (Throws (FsError Fs.ENOENT "lstat" "/home/u/cs/test-notes/a/b.md"), s', tr) ∧
     disk s' = disk Demo.empty_mirror ∧
     notices tr = []) ∧
  (∃ s' tr,
     syncFileDelete Demo.plugin Demo.renamed Demo.file_in_the_way =
       (Throws (FsError Fs.ENOTDIR "lstat" "/home/u/cs/test-notes/e/new.md"), s', tr) ∧
     disk s' = disk Demo.file_in_the_way ∧
     notices tr = []).
Proof.
  split.
  - destruct (delete_refused Demo.plugin Demo.created_note Demo.empty_mirror)
      as (e & s' & tr & Hrun & Hdisk & _ & Hnotice & _ & Hmissing & _).
    + vm_compute. reflexivity.
    + left. vm_compute. reflexivity.
    + exists s', tr. split; [|split; [exact Hdisk|exact Hnotice]].
      rewrite Hrun. f_equal. f_equal. f_equal.
      apply (Hmissing Scenes.note_key).
      * vm_compute. reflexivity.
      * vm_compute. reflexivity.
      * apply clear_wayb_sound. vm_compute. reflexivity.
  - destruct (delete_refused Demo.plugin Demo.renamed Demo.file_in_the_way)
      as (e & s' & tr & Hrun & Hdisk & _ & Hnotice & _ & _ & Hbelow).
    + vm_compute. reflexivity.
    + left. vm_compute. reflexivity.
    + exists s', tr. split; [|split; [exact Hdisk|exact Hnotice]].
      rewrite Hrun. f_equal. f_equal. f_equal.
      apply (Hbelow Scenes.renamed_key ("e" :: Demo.root_key) (Demo.bytes "z") 0).
      * vm_compute. reflexivity.
      * vm_compute. reflexivity.
      * apply tree_shapedb_sound. vm_compute. reflexivity.
      * reflexivity.
      * vm_compute. reflexivity.
Defined.

(** ** The Modified handler *)

Section ModifyHandler.
Variable this : Plugin.
Variable file : TAbstractFile.
Variable content : list byte.
Hypothesis Hsource : source_file this (path file) content.
Implicit Types (s : state).

Let targetPath := target_of this (path file).

(** With the target root available, the handler is the materialisation of
    the parent followed by the write. *)
Lemma syncFileModify_eq s :
  Fs.is_dir (entry this s (expandTargetPath this)) = true →
  syncFileModify this file s =
    let head := [Console Log ("Synching modified file: '" +:+ path file +:+ "'");
                 Call (Stat (expandTargetPath this))] in
    match ensureParentDirectory this targetPath s with
    | (Throws e, s0, tr0) => (Throws e, s0, head ++ tr0)
    | (Returns _, s0, tr0) =>
        match fs_writeFile this targetPath content s0 with
        | (Throws e, s1, tr1) => (Throws e, s1, head ++ tr0 ++ tr1)
        | (Returns _, s1, tr1) =>
            (Returns tt, s1,
             head ++ tr0 ++ tr1 ++
               if notifyModify (settings this)
               then [Notify ("Synced modified file '" +:+ name file +:+ "'")] else [])
        end
    end.
Proof.
  intros Hroot. unfold syncFileModify, console_print, Notice. rewrite bind_emit.
  rewrite (bind_returns _ _ _ _ _ _ (targetPathExists_eq this s)), Hroot. simpl.
  unfold ensureTargetPath. rewrite bind_assoc.
  fold (target_of this (path file)). fold targetPath.
  destruct (ensureParentDirectory this targetPath s) as [[[[]|e] s0] tr0] eqn:Hparent.
  - rewrite (bind_returns _ _ _ _ _ _ Hparent), bind_ret.
    rewrite (bind_returns _ _ _ _ _ _ (adapter_readBinary_source this _ _ s0 Hsource)).
    simpl.
    destruct (fs_writeFile this targetPath content s0) as [[[[]|e] s1] tr1] eqn:Hwrite.
    + rewrite (bind_returns _ _ _ _ _ _ Hwrite).
      destruct (notifyModify (settings this)); simpl; by rewrite ?app_nil_r.
    + by rewrite (bind_throws _ _ _ _ _ _ Hwrite).
  - by rewrite (bind_throws _ _ _ _ _ _ Hparent).
Qed.

End ModifyHandler.

(** X4. For a file of the source tree, the Modified handler does to the
    target filesystem exactly what the Created handler does: from the same
    state both end the same way, in the same state, after the same
    filesystem calls. So a Modified event repairs a Created event that was
    missed, parent directories included. *)
Theorem modify_acts_as_create (this : Plugin) (file : TAbstractFile)
    (content : list byte) (s : state) :
  source_file this (path file) content →
  ∃ r s' tr_create tr_modify,
    syncFileCreate this file s = (r, s', tr_create) ∧
    syncFileModify this file s = (r, s', tr_modify) ∧
    fs_calls tr_modify = fs_calls tr_create.
Proof.
  intros Hsrc.
  destruct (Fs.is_dir (entry this s (expandTargetPath this))) eqn:Hroot.
  - rewrite (syncFileCreate_file_eq this file content Hsrc s Hroot).
    rewrite (syncFileModify_eq this file content Hsrc s Hroot). simpl.
    destruct (ensureParentDirectory this _ s) as [[[[]|e] s0] tr0] eqn:Hp;
      apply ensureParentDirectory_inv in Hp as (_ & _ & Htr0).
    + destruct (fs_writeFile this _ content s0) as [[[[]|e] s1] tr1] eqn:Hw;
        apply fs_writeFile_inv in Hw as (-> & _);
        eexists _, _, _, _; (split; [reflexivity|]); (split; [reflexivity|]);
        destruct Htr0 as [-> | ->]; try done;
        by destruct (notifyModify (settings this)), (notifyCreate (settings this)).
    + eexists _, _, _, _. split; [reflexivity|]. split; [reflexivity|].
      by destruct Htr0 as [-> | ->].
  - unfold syncFileCreate, syncFileModify, console_print. rewrite !bind_emit.
    rewrite !(bind_returns _ _ _ _ _ _ (targetPathExists_eq this s)), Hroot. simpl.
    by eexists _, _, _, _.
Qed.

(** X4 at work: a Modified event for a note that was never copied. *)
Lemma modify_acts_as_create_witness :
  ∃ r s' tr_create tr_modify,
    syncFileCreate Demo.plugin Demo.created_note Demo.empty_mirror = (r, s', tr_create) ∧
    syncFileModify Demo.plugin Demo.created_note Demo.empty_mirror = (r, s', tr_modify) ∧
    fs_calls tr_modify = fs_calls tr_create.
Proof.
  apply (modify_acts_as_create Demo.plugin Demo.created_note (Demo.bytes "x")
           Demo.empty_mirror).
  vm_compute. reflexivity.
Defined.

(** X5. With the target root available and the item a file of the source
    tree: when the Modified handler returns, the target path holds exactly
    the source bytes, stamped by the write, and the notice is shown exactly
    when [notifyModify] is set; when it throws, no notice is shown. *)
Theorem modify_copies (this : Plugin) (file : TAbstractFile)
    (content : list byte) (s : state) :
  Fs.is_dir (entry this s (expandTargetPath this)) = true →
  source_file this (path file) content →
  ∃ r s' tr,
    syncFileModify this file s = (r, s', tr) ∧
    match r with
    | Returns _ =>
        (∃ t, entry this s' (target_of this (path file)) = Some (Fs.File content t)) ∧
        notices tr =
          if notifyModify (settings this)
          then ["Synced modified file '" +:+ name file +:+ "'"] else []
    | Throws _ => notices tr = []
    end.
Proof.
  intros Hroot Hsrc.
  rewrite (syncFileModify_eq this file content Hsrc s Hroot). simpl.
  destruct (ensureParentDirectory this _ s) as [[[[]|e] s0] tr0] eqn:Hp;
    apply ensureParentDirectory_inv in Hp as (_ & _ & Htr0).
  - destruct (fs_writeFile this _ content s0) as [[[[]|e] s1] tr1] eqn:Hw;
      apply fs_writeFile_inv in Hw as (-> & _ & Hfile & _);
      eexists _, _, _; (split; [reflexivity|]).
    + split; [eexists; by apply Hfile|].
      destruct Htr0 as [-> | ->]; by destruct (notifyModify (settings this)).
    + by destruct Htr0 as [-> | ->].
  - eexists _, _, _. split; [reflexivity|]. by destruct Htr0 as [-> | ->].
Qed.

(** X5 at work: the Modified handler overwrites the copy. *)
Lemma modify_copies_witness :
  ∃ s' tr t,
    syncFileModify Demo.plugin Demo.created_note (Demo.copied 0) = (Returns tt, s', tr) ∧
    entry Demo.plugin s' "/home/u/cs/test-notes/a/b.md" =
      Some (Fs.File (Demo.bytes "x") t) ∧
    notices tr = [].
Proof.
  destruct (modify_copies Demo.plugin Demo.created_note (Demo.bytes "x") (Demo.copied 0))
    as (r & s' & tr & Hrun & Hres).
  - vm_compute. reflexivity.
  - vm_compute. reflexivity.
  - destruct r as [[]|e].
    + destruct Hres as [[t Ht] Hnotice]. exists s', tr, t.
      split; [exact Hrun|]. split; [exact Ht|exact Hnotice].
    + vm_compute in Hrun. discriminate Hrun.
Defined.

(** ** The Created handler for a folder *)

Section CreateFolder.
Variable this : Plugin.
Variable file : TAbstractFile.
Hypothesis Hfolder : optional_type (adapter (vault this) !! path file) = Some "folder".
Implicit Types (s : state).

Let targetPath := target_of this (path file).

(** The plain [mkdir] refuses a path that names something, and otherwise
    leaves a directory there when it is accepted. *)
Lemma fs_mkdir_plain_inv p s r s' tr :
  fs_mkdir this p false s = (r, s', tr) →
  tr = [Call (Mkdir p false)] ∧
  (is_Some (entry this s p) →
   r = Throws (FsError Fs.EEXIST "mkdir" p) ∧ disk s' = disk s) ∧
  (r = Returns tt →
   entry this s p = None ∧ entry this s' p = Some (Fs.Dir (clock this (ticks s)))) ∧
  (∀ e, r = Throws e → disk s' = disk s).
Proof.
  unfold fs_mkdir, bind, emit, locate, ret, throw, modify, entry, Fs.mkdir.
  destruct (Fs.resolve (cwd this) p) as [k|]; simpl.
  - destruct (disk s !! k) as [n|] eqn:Hk.
    + intros [= <- <- <-]. split; [done|]. split; [done|]. done.
    + destruct (disk s !! Fs.parent k) as [[]|]; intros [= <- <- <-]; simpl;
        (split; [done|]); (split; [by intros [? ?]|]); (split; [|done]); try done.
      intros _. split; [done|]. by rewrite lookup_insert_eq.
  - intros [= <- <- <-]. split; [done|]. split; [by intros [? ?]|]. done.
Qed.

(** With the target root available, the handler is the materialisation of
    the parent followed by the plain [mkdir] of the target path. *)
Lemma syncFileCreate_folder_eq s :
  Fs.is_dir (entry this s (expandTargetPath this)) = true →
  syncFileCreate this file s =
    let head := [Console Log ("Syncing new file: '" +:+ path file +:+ "'");
                 Call (Stat (expandTargetPath this))] in
    match ensureParentDirectory this targetPath s with
    | (Throws e, s0, tr0) => (Throws e, s0, head ++ tr0)
    | (Returns _, s0, tr0) =>
        match fs_mkdir this targetPath false s0 with
        | (r, s1, tr1) => (r, s1, head ++ tr0 ++ tr1)
        end
    end.
Proof.
  intros Hroot. unfold syncFileCreate, console_print. rewrite bind_emit.
  rewrite (bind_returns _ _ _ _ _ _ (targetPathExists_eq this s)), Hroot. simpl.
  unfold adapter_stat. rewrite bind_ret, Hfolder.
  rewrite bool_decide_true by done.
  unfold ensureTargetPath. rewrite bind_assoc.
  fold (target_of this (path file)). fold targetPath.
  destruct (ensureParentDirectory this targetPath s) as [[[[]|e] s0] tr0] eqn:Hparent.
  - rewrite (bind_returns _ _ _ _ _ _ Hparent), bind_ret.
    by destruct (fs_mkdir this targetPath false s0) as [[r s1] tr1].
  - by rewrite (bind_throws _ _ _ _ _ _ Hparent).
Qed.

End CreateFolder.

(** X6. The Created handler for a folder does not bear a replay. With the
    target root available: when one application returns normally, it has
    made a directory at the target path, where nothing was just before the
    [mkdir]; a second application then throws [EEXIST] and leaves the
    filesystem as the first one left it. No notice is shown by either. *)
Theorem create_folder_replay_throws (this : Plugin) (file : TAbstractFile)
    (s s1 : state) (tr1 : list event) :
  let targetPath := target_of this (path file) in
  optional_type (adapter (vault this) !! path file) = Some "folder" →
  Fs.is_dir (entry this s (expandTargetPath this)) = true →
  syncFileCreate this file s = (Returns tt, s1, tr1) →
  Fs.is_dir (entry this s1 targetPath) = true ∧
  notices tr1 = [] ∧
  ∃ s2 tr2,
    syncFileCreate this file s1 =
      (Throws (FsError Fs.EEXIST "mkdir" targetPath), s2, tr2) ∧
    disk s2 = disk s1 ∧
    notices tr2 = [].
Proof.
  intros targetPath Hfolder Hroot Hrun.
  rewrite (syncFileCreate_folder_eq this file Hfolder s Hroot) in Hrun. simpl in Hrun.
  fold targetPath in Hrun.
  destruct (ensureParentDirectory this targetPath s) as [[[[]|e] s0] tr0] eqn:Hp; [|done].
  destruct (fs_mkdir this targetPath false s0) as [[r s1'] tr1'] eqn:Hm.
  injection Hrun as -> -> <-.
  pose proof (grows_fs_mkdir this _ _ _ _ _ _ Hm) as Hadv1.
  apply fs_mkdir_plain_inv in Hm as (-> & _ & Hmade & _).
  destruct (Hmade eq_refl) as [_ Hdir].
  apply ensureParentDirectory_inv in Hp as (Hadv0 & Hparent & Htr0).
  specialize (Hparent eq_refl).
  split; [by rewrite Hdir|].
  split; [by destruct Htr0 as [-> | ->]|].
  assert (Hroot1 : Fs.is_dir (entry this s1 (expandTargetPath this)) = true).
  { eapply advances_is_dir; [|exact Hroot]. by eapply advances_trans. }
  assert (Hparent1 : Fs.is_dir (entry this s1 (Path.dirname targetPath)) = true).
  { eapply advances_is_dir; [exact Hadv1|exact Hparent]. }
  rewrite (syncFileCreate_folder_eq this file Hfolder s1 Hroot1). simpl.
  fold targetPath. rewrite ensureParentDirectory_eq, Hparent1.
  destruct (fs_mkdir this targetPath false s1) as [[r2 s2] tr2] eqn:Hm2.
  apply fs_mkdir_plain_inv in Hm2 as (-> & Hexists & _ & _).
  destruct Hexists as [-> Hdisk]; [by rewrite Hdir|].
  by eexists _, _.
Qed.

(** X6 at work: the folder [a] is created once. *)
Lemma create_folder_replay_throws_witness :
  ∃ s2 tr2,
    syncFileCreate Demo.plugin Scenes.folder_a
      (syncFileCreate Demo.plugin Scenes.folder_a Demo.empty_mirror).1.2 =
      (Throws (FsError Fs.EEXIST "mkdir" "/home/u/cs/test-notes/a"), s2, tr2) ∧
    disk s2 = disk (syncFileCreate Demo.plugin Scenes.folder_a Demo.empty_mirror).1.2.
Proof.
  destruct (create_folder_replay_throws Demo.plugin Scenes.folder_a Demo.empty_mirror
              (syncFileCreate Demo.plugin Scenes.folder_a Demo.empty_mirror).1.2
              (syncFileCreate Demo.plugin Scenes.folder_a Demo.empty_mirror).2)
    as (_ & _ & s2 & tr2 & Hrun & Hdisk & _).
  - vm_compute. reflexivity.
  - vm_compute. reflexivity.
  - vm_compute. reflexivity.
  - exists s2, tr2. split; [exact Hrun|exact Hdisk].
Defined.

(** ** Paths: [path.dirname] of a joined path names its parent *)

Section PathFacts.
Implicit Types (s cur : string) (segs : list string) (l : list ascii).

Abbreviation chars := list_ascii_of_string.

Lemma chars_app s1 s2 : chars (s1 +:+ s2) = chars s1 ++ chars s2.
Proof. induction s1 as [|c s1 IH]; [done|]. rewrite append_cons. simpl. by rewrite IH. Qed.

Lemma append_assoc s1 s2 s3 : (s1 +:+ s2) +:+ s3 = s1 +:+ (s2 +:+ s3).
Proof. induction s1 as [|c s1 IH]; [done|]. rewrite !append_cons. by rewrite IH. Qed.

Lemma append_nil_r s : s +:+ "" = s.
Proof. induction s as [|c s IH]; [done|]. rewrite append_cons. by rewrite IH. Qed.

Lemma rev_app_eq s1 s2 : String.rev_app s1 s2 = String.rev s1 +:+ s2.
Proof.
  revert s2. induction s1 as [|c s1 IH]; intros s2; [done|].
  unfold String.rev. simpl. rewrite (IH (String c s2)), (IH (String c "")).
  by rewrite append_assoc.
Qed.

Lemma rev_cons (c : ascii) s : String.rev (String c s) = String.rev s +:+ String c "".
Proof. unfold String.rev at 1. simpl. apply rev_app_eq. Qed.

Lemma slash_free_nil : slash_free "".
Proof. constructor. Qed.

Lemma slash_free_app s1 s2 : slash_free s1 → slash_free s2 → slash_free (s1 +:+ s2).
Proof. unfold slash_free. rewrite chars_app. apply Forall_app_2. Qed.

Lemma slash_free_cons (c : ascii) s :
  slash_free (String c s) ↔ c ≠ Path.slash ∧ slash_free s.
Proof. unfold slash_free. simpl. by rewrite Forall_cons. Qed.

(** [split_slash] cuts at the slashes. *)
Lemma split_aux_free cur s :
  slash_free s → Path.split_slash_aux cur s = [String.rev cur +:+ s].
Proof.
  revert cur. induction s as [|c s IH]; intros cur Hfree; simpl.
  - by rewrite append_nil_r.
  - apply slash_free_cons in Hfree as [Hc Hfree].
    destruct (Ascii.eqb_spec c Path.slash) as [->|_]; [done|].
    rewrite (IH _ Hfree), rev_cons, append_assoc. done.
Qed.

Lemma split_aux_cut cur s1 s2 :
  slash_free s1 →
  Path.split_slash_aux cur (s1 +:+ String Path.slash s2) =
    (String.rev cur +:+ s1) :: Path.split_slash s2.
Proof.
  revert cur. induction s1 as [|c s1 IH]; intros cur Hfree.
  - simpl. by rewrite append_nil_r.
  - apply slash_free_cons in Hfree as [Hc Hfree]. rewrite append_cons. simpl.
    destruct (Ascii.eqb_spec c Path.slash) as [->|_]; [done|].
    rewrite (IH _ Hfree), rev_cons, append_assoc. done.
Qed.

Lemma split_free s : slash_free s → Path.split_slash s = [s].
Proof. intros H. unfold Path.split_slash. by rewrite split_aux_free. Qed.

Lemma split_cut s1 s2 :
  slash_free s1 →
  Path.split_slash (s1 +:+ String Path.slash s2) = s1 :: Path.split_slash s2.
Proof. intros H. unfold Path.split_slash at 1. by rewrite split_aux_cut. Qed.

Lemma split_aux_slash_free cur s :
  slash_free cur → Forall slash_free (Path.split_slash_aux cur s).
Proof.
  revert cur. induction s as [|c s IH]; intros cur Hcur; simpl.
  - constructor; [|constructor].
    clear -Hcur. induction cur as [|c cur IH]; [done|].
    apply slash_free_cons in Hcur as [Hc Hcur]. rewrite rev_cons.
    apply slash_free_app; [by apply IH|]. apply slash_free_cons. split; [done|constructor].
  - destruct (Ascii.eqb_spec c Path.slash) as [->|Hc].
    + constructor; [|apply IH; constructor].
      clear -Hcur. induction cur as [|c cur IH]; [done|].
      apply slash_free_cons in Hcur as [Hc Hcur]. rewrite rev_cons.
      apply slash_free_app; [by apply IH|]. apply slash_free_cons. split; [done|constructor].
    + apply IH. by apply slash_free_cons.
Qed.

Lemma split_slash_free s : Forall slash_free (Path.split_slash s).
Proof. apply split_aux_slash_free. constructor. Qed.

(** [normalizeString] keeps proper segments only when the path may not
    climb above its root. *)
Lemma normalize_segments_proper acc segs :
  Forall proper acc → Forall slash_free segs →
  Forall proper (Path.normalize_segments false acc segs).
Proof.
  revert acc. induction segs as [|seg segs IH]; intros acc Hacc Hsegs; simpl.
  - by apply Forall_rev.
  - apply Forall_cons in Hsegs as [Hseg Hsegs].
    destruct (String.eqb_spec seg "") as [->|Hne]; simpl; [by apply IH|].
    destruct (String.eqb_spec seg ".") as [->|Hdot]; simpl; [by apply IH|].
    destruct (String.eqb_spec seg "..") as [->|Hdots].
    + destruct acc as [|top acc]; [by apply IH|].
      apply Forall_cons in Hacc as [Htop Hacc].
      destruct (String.eqb_spec top ".."); apply IH; try done. by constructor.
    + apply IH; [|done]. constructor; [|done]. done.
Qed.


Lemma proper_nonempty seg : proper seg → ∃ c rest, seg = String c rest ∧ c ≠ Path.slash.
Proof.
  intros (Hne & _ & _ & Hfree). destruct seg as [|c rest]; [done|].
  apply slash_free_cons in Hfree as [Hc _]. by exists c, rest.
Qed.

Lemma step_proper acc seg : proper seg → Fs.step acc seg = seg :: acc.
Proof.
  intros (Hne & Hdot & Hdots & _). unfold Fs.step.
  destruct (String.eqb_spec seg ""); [done|].
  destruct (String.eqb_spec seg "."); [done|].
  by destruct (String.eqb_spec seg "..").
Qed.

(** Resolving the proper segments of a path, joined by slashes, with or
    without a slash at the end, pushes them in their order. *)
Lemma resolve_join_slash segs (trailing : bool) acc :
  segs ≠ [] → Forall proper segs →
  fold_left Fs.step
    (Path.split_slash (Path.join_slash segs +:+ if trailing then "/" else "")) acc =
    rev segs ++ acc.
Proof.
  intros Hne Hsegs. revert acc.
  induction segs as [|seg segs IH]; intros acc; [done|].
  apply Forall_cons in Hsegs as [Hseg Hsegs].
  pose proof Hseg as (_ & _ & _ & Hfree).
  destruct segs as [|seg' segs].
  - simpl. destruct trailing.
    + change (seg +:+ "/") with (seg +:+ String Path.slash "").
      rewrite (split_cut seg "" Hfree). simpl.
      rewrite (step_proper acc seg) by done. reflexivity.
    + rewrite append_nil_r, (split_free seg Hfree). simpl.
      by rewrite (step_proper acc seg).
  - change (Path.join_slash (seg :: seg' :: segs))
      with (seg +:+ "/" +:+ Path.join_slash (seg' :: segs)).
    rewrite !append_assoc. rewrite append_cons.
    change (String "/" ?x) with (String Path.slash x).
    rewrite (split_cut seg _ Hfree). simpl fold_left.
    rewrite (step_proper acc seg) by done. rewrite IH by done.
    simpl. by rewrite <- !app_assoc.
Qed.

Lemma join_slash_snoc init last :
  init ≠ [] →
  Path.join_slash (init ++ [last]) = Path.join_slash init +:+ "/" +:+ last.
Proof.
  induction init as [|seg init IH]; [done|]. intros _.
  destruct init as [|seg' init]; [done|].
  change (Path.join_slash ((seg :: seg' :: init) ++ [last]))
    with (seg +:+ "/" +:+ Path.join_slash ((seg' :: init) ++ [last])).
  rewrite IH by done.
  change (Path.join_slash (seg :: seg' :: init))
    with (seg +:+ "/" +:+ Path.join_slash (seg' :: init)).
  by rewrite !append_assoc.
Qed.

Lemma join_slash_nonempty segs :
  segs ≠ [] → Forall proper segs → Path.join_slash segs ≠ "".
Proof.
  destruct segs as [|seg segs]; [done|]. intros _ Hsegs.
  apply Forall_cons in Hsegs as [Hseg _].
  destruct (proper_nonempty seg Hseg) as (c & rest & -> & _).
  destruct segs; [done|]. simpl. by rewrite append_cons.
Qed.

Lemma drop_slashes_head (c : ascii) l :
  c ≠ Path.slash → Path.drop_slashes (c :: l) = c :: l.
Proof. intros Hc. simpl. by destruct (Ascii.eqb_spec c Path.slash). Qed.

Lemma drop_segment_free l rest :
  Forall (λ c, c ≠ Path.slash) l →
  Path.drop_segment (l ++ rest) = Path.drop_segment rest.
Proof.
  induction l as [|c l IH]; [done|]. intros Hl.
  apply Forall_cons in Hl as [Hc Hl]. simpl.
  destruct (Ascii.eqb_spec c Path.slash); [done|]. by apply IH.
Qed.


Lemma drop_slashes_free l rest :
  l ≠ [] → Forall (λ c, c ≠ Path.slash) l →
  Path.drop_slashes (l ++ rest) = l ++ rest.
Proof.
  destruct l as [|c l]; [done|]. intros _ Hl.
  apply Forall_cons in Hl as [Hc _]. by apply drop_slashes_head.
Qed.

Lemma proper_rev_chars seg :
  proper seg →
  rev (chars seg) ≠ [] ∧ Forall (λ c, c ≠ Path.slash) (rev (chars seg)).
Proof.
  intros (Hne & _ & _ & Hfree). split.
  - destruct seg as [|c seg]; [done|]. simpl. by destruct (rev (chars seg)).
  - by apply Forall_rev.
Qed.

(** [path.dirname] of an absolute path made of proper segments drops the
    last segment, and a slash at the end with it. *)
Lemma dirname_join_slash init last (trailing : bool) :
  Forall proper (init ++ [last]) →
  Path.dirname
    (String "/" (Path.join_slash (init ++ [last]) +:+ if trailing then "/" else "")) =
    String "/" (Path.join_slash init).
Proof.
  intros Hsegs. apply Forall_app in Hsegs as [Hinit Hlast].
  apply Forall_cons in Hlast as [Hlast _].
  destruct (proper_rev_chars last Hlast) as [Hne Hfree].
  unfold Path.dirname.
  change (Ascii.eqb "/" Path.slash) with true. cbv zeta.
  rewrite chars_app, rev_app_distr.
  assert (Htl : ∀ l, l ≠ [] → Forall (λ c, c ≠ Path.slash) l → ∀ rest,
            Path.drop_slashes (rev (chars (if trailing then "/" else "")) ++ l ++ rest) =
              l ++ rest).
  { intros l Hl Hfl rest. destruct trailing; simpl.
    - by apply drop_slashes_free.
    - by apply drop_slashes_free. }
  destruct init as [|seg init].
  - simpl Path.join_slash.
    rewrite <- (app_nil_r (rev (chars last))), (Htl _ Hne Hfree).
    rewrite drop_segment_free by done. done.
  - rewrite join_slash_snoc by done.
    pose proof (join_slash_nonempty (seg :: init)) as Hj.
    remember (Path.join_slash (seg :: init)) as body eqn:Hbody. clear Hbody.
    rewrite !chars_app, !rev_app_distr. simpl (rev (chars "/")).
    rewrite <- !app_assoc. rewrite (Htl _ Hne Hfree).
    rewrite drop_segment_free by done. simpl.
    destruct body as [|c body]; [by destruct Hj|].
    replace (length (rev (chars (String c body))) =? 0)%nat with false
      by (simpl; by destruct (rev (chars body))).
    by rewrite rev_involutive, string_of_list_ascii_of_string.
Qed.


(** The shape of a normalised absolute path. *)
Lemma normalize_absolute p :
  Path.is_absolute p = true →
  ∃ segs (trailing : bool),
    Forall proper segs ∧
    Path.normalize p =
      match segs with
      | [] => "/"
      | _ => String "/" (Path.join_slash segs +:+ if trailing then "/" else "")
      end.
Proof.
  intros Habs. unfold Path.normalize. rewrite Habs.
  destruct (String.eqb_spec p "") as [->|_]; [done|]. simpl negb.
  pose proof (normalize_segments_proper [] (Path.split_slash p)
                (Forall_nil_2 _) (split_slash_free p)) as Hsegs.
  exists (Path.normalize_segments false [] (Path.split_slash p)), (Path.ends_with_slash p).
  split; [done|].
  destruct (Path.normalize_segments false [] (Path.split_slash p)) as [|seg segs] eqn:Hn;
    [done|].
  pose proof (join_slash_nonempty (seg :: segs)) as Hj.
  destruct (String.eqb_spec (Path.join_slash (seg :: segs)) "") as [Heq|_];
    [by destruct Hj|].
  cbv zeta. destruct (Path.ends_with_slash p); [done|].
  by rewrite append_nil_r.
Qed.

Lemma join_absolute a b :
  Path.is_absolute a = true →
  ∃ p, Path.is_absolute p = true ∧ Path.join a b = Path.normalize p.
Proof.
  intros Habs. unfold Path.join.
  destruct a as [|c a]; [done|]. simpl String.eqb.
  destruct (String.eqb_spec b "").
  - by exists (String c a).
  - exists (String c a +:+ "/" +:+ b). split; [|done]. by rewrite append_cons.
Qed.

Lemma resolve_rooted cwd body :
  Fs.resolve cwd (String "/" body) =
    Some (fold_left Fs.step (Path.split_slash body) []).
Proof. reflexivity. Qed.

(** For an absolute first argument, [path.join] gives a path that
    resolves, and [path.dirname] of it resolves to its parent. *)
Lemma resolve_dirname_join cwd a b :
  Path.is_absolute a = true →
  ∃ k, Fs.resolve cwd (Path.join a b) = Some k ∧
       Fs.resolve cwd (Path.dirname (Path.join a b)) = Some (Fs.parent k).
Proof.
  intros Habs. destruct (join_absolute a b Habs) as (p & Hp & ->).
  destruct (normalize_absolute p Hp) as (segs & trailing & Hsegs & ->).
  destruct segs as [|seg segs _] using rev_ind.
  - by exists [].
  - set (init := segs) in *.
    assert (Hshape : match init ++ [seg] with
                     | [] => "/"
                     | _ => String "/" (Path.join_slash (init ++ [seg])
                                          +:+ if trailing then "/" else "")
                     end =
                     String "/" (Path.join_slash (init ++ [seg])
                                   +:+ if trailing then "/" else "")).
    { by destruct init. }
    rewrite Hshape. clear Hshape.
    exists (seg :: rev init). split.
    + rewrite resolve_rooted, resolve_join_slash; [|by destruct init|done].
      by rewrite rev_app_distr, app_nil_r.
    + rewrite dirname_join_slash by done. simpl Fs.parent.
      apply Forall_app in Hsegs as [Hinit _].
      destruct init as [|seg' init']; [done|].
      pose proof (resolve_join_slash (seg' :: init') false []) as Hres.
      cbv iota in Hres. rewrite append_nil_r, app_nil_r in Hres.
      rewrite resolve_rooted, Hres; done.
Qed.

End PathFacts.

(** ** Renaming a regular file *)

Section RenameFile.
Implicit Types (fs : gmap Fs.key Fs.node) (old new k : Fs.key) (t : Z).

(** In a tree nothing lies below a regular file. *)
Lemma filter_under_file fs old d m :
  Fs.tree_shaped fs → fs !! old = Some (Fs.File d m) →
  filter (Fs.under old) fs = {[old := Fs.File d m]}.
Proof.
  intros Htree Hold. apply map_eq. intros k.
  destruct (decide (k = old)) as [->|Hne].
  - rewrite lookup_singleton_eq. apply map_lookup_filter_Some. split; [done|].
    by exists [].
  - rewrite lookup_singleton_ne by done. apply map_lookup_filter_None.
    right. intros n Hk Hunder. unfold Fs.under in Hunder. simpl in Hunder.
    assert (Hdir : Fs.is_dir (fs !! old) = true).
    { eapply tree_shaped_ancestors; [done| |done|done]. by rewrite Hk. }
    by rewrite Hold in Hdir.
Qed.

Lemma filter_not_under_file fs old d m :
  Fs.tree_shaped fs → fs !! old = Some (Fs.File d m) →
  filter (λ kn, ¬ Fs.under old kn) fs = delete old fs.
Proof.
  intros Htree Hold. apply map_eq. intros k.
  destruct (decide (k = old)) as [->|Hne].
  - rewrite lookup_delete_eq. apply map_lookup_filter_None.
    right. intros n _ Hnot. apply Hnot. by exists [].
  - rewrite lookup_delete_ne by done.
    destruct (fs !! k) as [n|] eqn:Hk.
    + apply map_lookup_filter_Some. split; [done|].
      intros Hunder. unfold Fs.under in Hunder. simpl in Hunder.
      assert (Hdir : Fs.is_dir (fs !! old) = true).
      { eapply tree_shaped_ancestors; [done| |done|done]. by rewrite Hk. }
      by rewrite Hold in Hdir.
    + apply map_lookup_filter_None. by left.
Qed.

(** Moving a regular file takes it out of its place and puts it, as it
    is, at the new one; the two directories concerned are stamped. *)
Lemma move_file t old new fs d m :
  Fs.tree_shaped fs → fs !! old = Some (Fs.File d m) →
  Fs.move t old new fs =
    Fs.touch (Fs.parent new) t
      (Fs.touch (Fs.parent old) t (<[new := Fs.File d m]> (delete old fs))).
Proof.
  intros Htree Hold. unfold Fs.move.
  rewrite (filter_under_file fs old d m Htree Hold).
  rewrite (filter_not_under_file fs old d m Htree Hold).
  rewrite map_to_list_singleton. simpl.
  unfold Fs.rekey. simpl. rewrite Nat.sub_diag, take_0. simpl.
  by rewrite insert_empty, <- insert_union_singleton_l.
Qed.

Lemma rename_file t old new fs d m :
  Fs.tree_shaped fs → fs !! old = Some (Fs.File d m) → old ≠ new →
  Fs.is_dir (fs !! Fs.parent new) = true → Fs.is_dir (fs !! new) = false →
  ∃ fs', Fs.rename t old new fs = inr fs' ∧
         fs' !! new = Some (Fs.File d m) ∧
         fs' !! old = None ∧
         (∀ k d' m', k ≠ old → fs !! k = Some (Fs.File d' m') → k ≠ new →
                     fs' !! k = Some (Fs.File d' m')) ∧
         (∀ k, Fs.is_dir (fs !! k) = true → Fs.is_dir (fs' !! k) = true).
Proof.
  intros Htree Hold Hne Hparent Hnew.
  exists (Fs.move t old new fs). split.
  - unfold Fs.rename. rewrite Hold, decide_False by done.
    destruct (fs !! Fs.parent new) as [[]|]; try done.
    by destruct (fs !! new) as [[]|].
  - rewrite (move_file t old new fs d m Htree Hold).
    split; [by rewrite !touch_lookup, lookup_insert_eq|].
    split.
    { rewrite !touch_lookup, lookup_insert_ne, lookup_delete_eq by done. done. }
    split.
    { intros k d' m' Hk Hfile Hk'.
      rewrite !touch_lookup, lookup_insert_ne, lookup_delete_ne by done.
      by rewrite Hfile. }
    intros k Hdir.
    assert (k ≠ old) by (intros ->; by rewrite Hold in Hdir).
    assert (k ≠ new) by (intros ->; by rewrite Hdir in Hnew).
    rewrite !touch_lookup, lookup_insert_ne, lookup_delete_ne by done.
    by destruct (fs !! k) as [[]|].
Qed.

End RenameFile.

(** ** When the parent can be materialised *)

Section Materialise.
Variable this : Plugin.
Implicit Types (s : state) (k : Fs.key).

Lemma tree_shaped_root (fs : gmap Fs.key Fs.node) k :
  Fs.tree_shaped fs → Fs.is_dir (fs !! k) = true → Fs.is_dir (fs !! []) = true.
Proof.
  intros Htree Hk. destruct (decide (k = [])) as [->|Hne]; [done|].
  eapply tree_shaped_ancestors; [done| |apply suffix_nil|done].
  by destruct (fs !! k).
Qed.

Lemma not_suffix_parent k : k ≠ [] → ¬ suffix k (Fs.parent k).
Proof.
  destruct k as [|seg up]; [done|]. intros _ Hs.
  apply suffix_length in Hs. simpl in Hs. lia.
Qed.

(** In a tree with its root directory and a clear way, the parent of a
    target path is materialised: the call returns, the directory that holds
    the target path and all its ancestors are directories, and no entry off
    that chain has changed. *)
Lemma ensureParentDirectory_ready targetPath k s :
  Fs.tree_shaped (disk s) →
  Fs.resolve (cwd this) (Path.dirname targetPath) = Some (Fs.parent k) →
  Fs.is_dir (disk s !! []) = true →
  clear_way (disk s) k →
  ∃ s0 tr0,
    ensureParentDirectory this targetPath s = (Returns tt, s0, tr0) ∧
    (∀ a, suffix a (Fs.parent k) → Fs.is_dir (disk s0 !! a) = true) ∧
    (∀ key, ¬ suffix key (Fs.parent k) → disk s0 !! key = disk s !! key) ∧
    Fs.tree_shaped (disk s0).
Proof.
  intros Htree Hd Hroot Hclear.
  rewrite ensureParentDirectory_eq. unfold entry. rewrite Hd. simpl.
  destruct (Fs.is_dir (disk s !! Fs.parent k)) eqn:Hdir.
  - eexists _, _. split; [reflexivity|]. split; [|done].
    intros a Ha. destruct (decide (a = Fs.parent k)) as [->|Hne]; [done|].
    eapply tree_shaped_ancestors; [done| |done|done].
    by destruct (disk s !! Fs.parent k).
  - unfold fs_mkdir, bind, emit, locate, ret, modify. rewrite Hd.
    destruct (mkdirp_accepts (clock this (ticks s)) (Fs.parent k) (disk s) Hroot Hclear)
      as [fs' Hrun].
    rewrite Hrun. eexists _, _. split; [reflexivity|]. simpl.
    split; [by eapply mkdirp_chain|].
    split; [intros key Hkey; by eapply mkdirp_frame|].
    by eapply mkdirp_tree_shaped.
Qed.

End Materialise.

(** X7. With an absolute target root, when [ensureTargetPath] returns, it
    returns the joined target path, that path resolves, and the directory
    that holds it is there: a write to the returned path cannot be refused
    for a missing parent. Until then the filesystem has only grown. *)
Theorem ensureTargetPath_makes_room (this : Plugin) (file : string)
    (s s' : state) (targetPath : string) (tr : list event) :
  Path.is_absolute (expandTargetPath this) = true →
  ensureTargetPath this file s = (Returns targetPath, s', tr) →
  targetPath = target_of this file ∧
  advances this s s' ∧
  ∃ k, Fs.resolve (cwd this) targetPath = Some k ∧
       Fs.is_dir (disk s' !! Fs.parent k) = true.
Proof.
  intros Habs. unfold ensureTargetPath. fold (target_of this file). intros Hrun.
  destruct (ensureParentDirectory this (target_of this file) s) as [[[[]|e] s0] tr0] eqn:Hp.
  - rewrite (bind_returns _ _ _ _ _ _ Hp) in Hrun. injection Hrun as <- <- <-.
    apply ensureParentDirectory_inv in Hp as (Hadv & Hdir & _).
    split; [done|]. split; [done|].
    destruct (resolve_dirname_join (cwd this) (expandTargetPath this) file Habs)
      as (k & Hk & Hd).
    exists k. split; [done|].
    specialize (Hdir eq_refl). unfold entry, target_of in Hdir.
    by rewrite Hd in Hdir.
  - by rewrite (bind_throws _ _ _ _ _ _ Hp) in Hrun.
Qed.

(** X7 at work: room is made for [a/b.md] in an empty mirror. *)
Lemma ensureTargetPath_makes_room_witness :
  ∃ k,
    Fs.resolve (cwd Demo.plugin) "/home/u/cs/test-notes/a/b.md" = Some k ∧
    Fs.is_dir (disk (ensureTargetPath Demo.plugin "a/b.md" Demo.empty_mirror).1.2
                 !! Fs.parent k) = true.
Proof.
  destruct (ensureTargetPath_makes_room Demo.plugin "a/b.md" Demo.empty_mirror
              (ensureTargetPath Demo.plugin "a/b.md" Demo.empty_mirror).1.2
              "/home/u/cs/test-notes/a/b.md"
              (ensureTargetPath Demo.plugin "a/b.md" Demo.empty_mirror).2)
    as (_ & _ & k & Hk & Hdir).
  - vm_compute. reflexivity.
  - vm_compute. reflexivity.
  - exists k. split; [exact Hk|exact Hdir].
Defined.

(** What the Created handler does for a file when nothing is in its
    way. *)
Lemma syncFileCreate_copies (this : Plugin) (file : TAbstractFile)
    (content : list byte) (s : state) (k : Fs.key) :
  Fs.tree_shaped (disk s) →
  Path.is_absolute (expandTargetPath this) = true →
  Fs.is_dir (entry this s (expandTargetPath this)) = true →
  source_file this (path file) content →
  Fs.resolve (cwd this) (target_of this (path file)) = Some k →
  clear_way (disk s) k →
  Fs.is_dir (disk s !! k) = false →
  ∃ s' tr t,
    syncFileCreate this file s = (Returns tt, s', tr) ∧
    disk s' !! k = Some (Fs.File content t) ∧
    (∀ a, suffix a (Fs.parent k) → Fs.is_dir (disk s' !! a) = true) ∧
    (∀ key, ¬ suffix key k → disk s' !! key = disk s !! key) ∧
    Fs.tree_shaped (disk s') ∧
    Fs.is_dir (entry this s' (expandTargetPath this)) = true ∧
    notices tr =
      if notifyCreate (settings this)
      then ["Synced new file '" +:+ name file +:+ "'"] else [].
Proof.
  intros Htree Habs Hroot Hsrc Hk Hclear Hnodir.
  destruct (resolve_dirname_join (cwd this) (expandTargetPath this) (path file) Habs)
    as (k' & Hk' & Hd).
  fold (target_of this (path file)) in Hk', Hd.
  rewrite Hk in Hk'. injection Hk' as <-.
  assert (Hroot0 : Fs.is_dir (disk s !! []) = true).
  { unfold entry in Hroot. destruct (Fs.resolve (cwd this) (expandTargetPath this)) as [kr|];
      [|done]. by eapply tree_shaped_root. }
  assert (Hkne : k ≠ []) by (intros ->; by rewrite Hroot0 in Hnodir).
  destruct (ensureParentDirectory_ready this _ k s Htree Hd Hroot0 Hclear)
    as (s0 & tr0 & Hp & Hchain & Hframe & Htree0).
  rewrite (syncFileCreate_file_eq this file content Hsrc s Hroot). simpl. rewrite Hp.
  pose proof (Hchain _ (reflexivity _)) as Hparent.
  assert (Hk0 : disk s0 !! k = disk s !! k) by (apply Hframe; by apply not_suffix_parent).
  assert (Hwrite : ∃ fs', Fs.writeFile (clock this (ticks s0)) k content (disk s0) = inr fs').
  { unfold Fs.writeFile. rewrite Hk0.
    destruct (disk s !! k) as [[]|]; try done; [by eexists|].
    destruct (disk s0 !! Fs.parent k) as [[]|]; try done. by eexists. }
  destruct Hwrite as [fs' Hwrite].
  unfold fs_writeFile, bind, emit, locate, ret, modify. rewrite Hk, Hwrite.
  eexists _, _, _. split; [reflexivity|]. simpl.
  split; [by eapply writeFile_lookup|].
  split.
  { intros a Ha. pose proof (Hchain a Ha) as Hdir.
    destruct (disk s0 !! a) as [n|] eqn:Hn; [|done].
    destruct (writeFile_persists _ _ _ _ _ Hwrite _ _ Hn) as (n' & -> & Hkind & _).
    by destruct n, n'. }
  split.
  { intros key Hkey.
    assert (Hkey' : ¬ suffix key (Fs.parent k)).
    { intros Hs. apply Hkey. destruct k; [done|]. by apply suffix_cons_r. }
    rewrite <- (Hframe key Hkey').
    assert (key ≠ k) by (intros ->; by apply Hkey).
    assert (key ≠ Fs.parent k) by (intros ->; by apply Hkey').
    unfold Fs.writeFile in Hwrite.
    destruct (disk s0 !! k) as [[]|]; try done.
    - injection Hwrite as <-. by rewrite lookup_insert_ne.
    - destruct (disk s0 !! Fs.parent k) as [[]|] eqn:Hpk; try done.
      injection Hwrite as <-. rewrite lookup_insert_ne by done.
      rewrite touch_lookup. destruct (disk s0 !! key) as [[]|]; try done.
      by rewrite decide_False. }
  split; [by eapply writeFile_tree_shaped|].
  split.
  { assert (Hg : grows this (fs_writeFile this (target_of this (path file)) content))
      by apply grows_fs_writeFile.
    eapply advances_is_dir; [|exact Hroot].
    eapply advances_trans.
    - apply ensureParentDirectory_inv in Hp as (Hadv & _). exact Hadv.
    - eapply (Hg s0). unfold fs_writeFile, bind, emit, locate, ret, modify.
      rewrite Hk, Hwrite. reflexivity. }
  apply ensureParentDirectory_inv in Hp as (_ & _ & [-> | ->]);
    by destruct (notifyCreate (settings this)).
Qed.

(** X8. The Created handler copies a file whenever nothing is in its way.
    In a tree, with an absolute and available target root, for a file of
    the source tree whose target path holds no directory and has a clear
    way: the handler returns normally; the target path then holds exactly
    the source bytes; the directories down to it are all there; no entry
    other than the target and its ancestors has changed; the filesystem is
    still a tree; and the notice is shown exactly when [notifyCreate] is
    set. *)
Theorem create_file_succeeds (this : Plugin) (file : TAbstractFile)
    (content : list byte) (s : state) (k : Fs.key) :
  Fs.tree_shaped (disk s) →
  Path.is_absolute (expandTargetPath this) = true →
  Fs.is_dir (entry this s (expandTargetPath this)) = true →
  source_file this (path file) content →
  Fs.resolve (cwd this) (target_of this (path file)) = Some k →
  clear_way (disk s) k →
  Fs.is_dir (disk s !! k) = false →
  ∃ s' tr t,
    syncFileCreate this file s = (Returns tt, s', tr) ∧
    disk s' !! k = Some (Fs.File content t) ∧
    (∀ a, suffix a (Fs.parent k) → Fs.is_dir (disk s' !! a) = true) ∧
    (∀ key, ¬ suffix key k → disk s' !! key = disk s !! key) ∧
    Fs.tree_shaped (disk s') ∧
    notices tr =
      if notifyCreate (settings this)
      then ["Synced new file '" +:+ name file +:+ "'"] else [].
Proof.
  intros Htree Habs Hroot Hsrc Hk Hclear Hnodir.
  destruct (syncFileCreate_copies this file content s k)
    as (s' & tr & t & Hrun & Hcopy & Hchain & Hframe & Htree' & _ & Hnotice); try done.
  by exists s', tr, t.
Qed.

(** X8 at work: [a/b.md] is copied into an empty mirror. *)
Lemma create_file_succeeds_witness :
  ∃ s' tr t,
    syncFileCreate Demo.plugin Demo.created_note Demo.empty_mirror = (Returns tt, s', tr) ∧
    disk s' !! Scenes.note_key = Some (Fs.File (Demo.bytes "x") t) ∧
    Fs.tree_shaped (disk s') ∧
    notices tr = ["Synced new file 'b.md'"].
Proof.
  destruct (create_file_succeeds Demo.plugin Demo.created_note (Demo.bytes "x")
              Demo.empty_mirror Scenes.note_key)
    as (s' & tr & t & Hrun & Hcopy & _ & _ & Htree & Hnotice).
  - apply tree_shapedb_sound. vm_compute. reflexivity.
  - vm_compute. reflexivity.
  - vm_compute. reflexivity.
  - vm_compute. reflexivity.
  - vm_compute. reflexivity.
  - apply clear_wayb_sound. vm_compute. reflexivity.
  - vm_compute. reflexivity.
  - exists s', tr, t. split; [exact Hrun|]. split; [exact Hcopy|].
    split; [exact Htree|exact Hnotice].
Defined.

(** ** Renaming keeps the tree *)

Section RenameTree.
Implicit Types (fs : gmap Fs.key Fs.node) (old new k : Fs.key) (t : Z).

(** The entries [move] takes along, under their new keys. *)
Lemma moved_lookup_Some old new fs k n :
  (list_to_map (Fs.rekey old new <$> map_to_list (filter (Fs.under old) fs))
     : gmap Fs.key Fs.node) !! k = Some n →
  ∃ pre, k = pre ++ new ∧ fs !! (pre ++ old) = Some n.
Proof.
  intros Hk. apply elem_of_list_to_map_2 in Hk.
  apply list_elem_of_fmap in Hk as ([k0 n0] & Heq & Hin).
  apply elem_of_map_to_list in Hin.
  apply map_lookup_filter_Some in Hin as [Hfs [pre Hpre]]. simpl in Hpre. subst k0.
  unfold Fs.rekey in Heq. simpl in Heq. injection Heq as -> ->.
  exists pre. split; [|done]. f_equal.
  rewrite length_app, Nat.add_sub. by rewrite take_app_length.
Qed.

Lemma moved_lookup_is_Some old new fs pre n :
  fs !! (pre ++ old) = Some n →
  is_Some ((list_to_map (Fs.rekey old new <$> map_to_list (filter (Fs.under old) fs))
              : gmap Fs.key Fs.node) !! (pre ++ new)).
Proof.
  intros Hfs. apply not_eq_None_Some. intros Hnone.
  apply not_elem_of_list_to_map in Hnone. apply Hnone.
  apply list_elem_of_fmap. exists (pre ++ new, n). split; [done|].
  apply list_elem_of_fmap. exists (pre ++ old, n). split.
  - unfold Fs.rekey. simpl. f_equal. f_equal.
    rewrite length_app, Nat.add_sub. by rewrite take_app_length.
  - apply elem_of_map_to_list. apply map_lookup_filter_Some. split; [done|].
    by exists pre.
Qed.

Lemma moved_lookup old new fs pre n :
  fs !! (pre ++ old) = Some n →
  (list_to_map (Fs.rekey old new <$> map_to_list (filter (Fs.under old) fs))
     : gmap Fs.key Fs.node) !! (pre ++ new) = Some n.
Proof.
  intros Hfs. destruct (moved_lookup_is_Some old new fs pre n Hfs) as [n' Hn'].
  rewrite Hn'. apply moved_lookup_Some in Hn' as (pre' & Heq & Hfs').
  apply app_inv_tail in Heq as <-. congruence.
Qed.

(** Moving an entry to a place whose parent is a directory that stays
    where it is, and below which nothing lies, keeps the tree. *)
Lemma move_tree_shaped t old new fs :
  Fs.tree_shaped fs →
  Fs.is_dir (fs !! Fs.parent new) = true →
  ¬ suffix old (Fs.parent new) →
  (∀ k, suffix new k → k ≠ new → fs !! k = None) →
  Fs.tree_shaped (Fs.move t old new fs).
Proof.
  intros Htree Hparent Hstays Hbelow. unfold Fs.move.
  apply tree_shaped_touch, tree_shaped_touch.
  set (moved := list_to_map _ : gmap Fs.key Fs.node).
  set (kept := filter _ fs).
  intros seg up [n Hn].
  apply lookup_union_Some_raw in Hn as [Hn|[Hnone Hn]].
  - apply moved_lookup_Some in Hn as (pre & Heq & Hfs).
    destruct pre as [|seg' pre]; simpl in Heq.
    + subst new. simpl in *.
      assert (Hup : moved !! up = None).
      { destruct (moved !! up) as [n'|] eqn:Hup; [|done].
        apply moved_lookup_Some in Hup as (pre' & Heq & _).
        apply (f_equal length) in Heq. rewrite length_app in Heq. simpl in Heq. lia. }
      rewrite lookup_union_r by done.
      destruct (fs !! up) as [nu|] eqn:Hfsup; [|done].
      assert (kept !! up = Some nu) as ->; [|done].
      apply map_lookup_filter_Some. split; [done|]. done.
    + injection Heq as -> ->. simpl in Hfs.
      assert (Hdir : Fs.is_dir (fs !! (pre ++ old)) = true).
      { apply (Htree seg'). by rewrite Hfs. }
      destruct (fs !! (pre ++ old)) as [[|m]|] eqn:Hup; try done.
      by rewrite (lookup_union_Some_l _ _ _ _ (moved_lookup old new fs pre _ Hup)).
  - apply map_lookup_filter_Some in Hn as [Hfs Hnot].
    unfold Fs.under in Hnot. simpl in Hnot.
    assert (Hup : moved !! up = None).
    { destruct (moved !! up) as [n'|] eqn:Hup; [|done].
      apply moved_lookup_Some in Hup as (pre' & -> & _).
      rewrite Hbelow in Hfs; [done| |].
      - by exists (seg :: pre').
      - intros Heq. apply (f_equal length) in Heq. simpl in Heq.
        rewrite length_app in Heq. lia. }
    rewrite lookup_union_r by done.
    assert (Hdir : Fs.is_dir (fs !! up) = true).
    { apply (Htree seg). by rewrite Hfs. }
    destruct (fs !! up) as [nu|] eqn:Hfsup; [|done].
    assert (kept !! up = Some nu) as ->; [|done].
    apply map_lookup_filter_Some. split; [done|].
    unfold Fs.under. simpl. intros Hs. apply Hnot. by apply suffix_cons_r.
Qed.

(** In a tree nothing lies below an entry that is missing or a file. *)
Lemma tree_shaped_below fs new k :
  Fs.tree_shaped fs → Fs.is_dir (fs !! new) = false →
  suffix new k → k ≠ new → fs !! k = None.
Proof.
  intros Htree Hnew Hs Hne.
  destruct (fs !! k) as [n|] eqn:Hk; [|done].
  assert (Hdir : Fs.is_dir (fs !! new) = true).
  { eapply tree_shaped_ancestors; [done| |done|done]. by rewrite Hk. }
  by rewrite Hdir in Hnew.
Qed.

Lemma has_children_false fs new k :
  Fs.has_children new fs = false → suffix new k → k ≠ new → fs !! k = None.
Proof.
  unfold Fs.has_children. intros Hnone Hs Hne.
  apply bool_decide_eq_false in Hnone.
  assert (Hempty : filter (λ kn : Fs.key * Fs.node, Fs.under new kn ∧ kn.1 ≠ new) fs = ∅).
  { destruct (decide (filter (λ kn : Fs.key * Fs.node,
                                Fs.under new kn ∧ kn.1 ≠ new) fs = ∅)); [done|].
    by destruct Hnone. }
  destruct (fs !! k) as [n|] eqn:Hk; [|done].
  assert (Hin : filter (λ kn : Fs.key * Fs.node, Fs.under new kn ∧ kn.1 ≠ new) fs !! k
                = Some n).
  { apply map_lookup_filter_Some. split; [done|]. by split. }
  by rewrite Hempty in Hin.
Qed.

Lemma suffix_parent old new : suffix old (Fs.parent new) → suffix old new.
Proof.
  destruct new as [|seg up]; [done|]. simpl. intros Hs. by apply suffix_cons_r.
Qed.

(** An accepted [rename] keeps the tree. *)
Lemma rename_tree_shaped t old new fs fs' :
  Fs.tree_shaped fs → Fs.rename t old new fs = inr fs' → Fs.tree_shaped fs'.
Proof.
  intros Htree. unfold Fs.rename.
  destruct (fs !! old) as [src|] eqn:Hold; [|done].
  destruct (decide (old = new)) as [|Hne]; [by intros [= <-]|].
  destruct (fs !! Fs.parent new) as [[|mp]|] eqn:Hparent; try done.
  assert (Hp : Fs.is_dir (fs !! Fs.parent new) = true) by by rewrite Hparent.
  destruct src as [d m|m].
  - assert (Hstays : ¬ suffix old (Fs.parent new)).
    { intros Hs. destruct (decide (old = Fs.parent new)) as [Heq|Hne'].
      - rewrite <- Heq, Hold in Hparent. done.
      - assert (Hdir : Fs.is_dir (fs !! old) = true).
        { eapply tree_shaped_ancestors; [done| |done|done]. by rewrite Hparent. }
        by rewrite Hold in Hdir. }
    destruct (fs !! new) as [[dn mn|mn]|] eqn:Hnew; try done;
      intros [= <-]; apply move_tree_shaped; try done;
      intros k; apply tree_shaped_below; [done|by rewrite Hnew|done|by rewrite Hnew].
  - destruct (fs !! new) as [[dn mn|mn]|] eqn:Hnew; try done.
    + destruct (bool_decide (suffix old new)) eqn:Hsuf; [done|].
      destruct (Fs.has_children new fs) eqn:Hch; [done|].
      apply bool_decide_eq_false in Hsuf.
      intros [= <-]. apply move_tree_shaped; try done.
      * intros Hs. by apply Hsuf, suffix_parent.
      * intros k. by apply has_children_false.
    + destruct (bool_decide (suffix old new)) eqn:Hsuf; [done|].
      apply bool_decide_eq_false in Hsuf.
      intros [= <-]. apply move_tree_shaped; try done.
      * intros Hs. by apply Hsuf, suffix_parent.
      * intros k. apply tree_shaped_below; [done|by rewrite Hnew].
Qed.

End RenameTree.

(** What the Renamed handler does for a file when nothing is in its
    way. *)
Lemma syncFileRename_moves (this : Plugin) (file : TAbstractFile)
    (oldPath : string) (s : state) (old new : Fs.key)
    (data : list byte) (mtime : Z) :
  Fs.tree_shaped (disk s) →
  Path.is_absolute (expandTargetPath this) = true →
  Fs.is_dir (entry this s (expandTargetPath this)) = true →
  Fs.resolve (cwd this) (target_of this oldPath) = Some old →
  Fs.resolve (cwd this) (target_of this (path file)) = Some new →
  disk s !! old = Some (Fs.File data mtime) →
  old ≠ new →
  clear_way (disk s) new →
  Fs.is_dir (disk s !! new) = false →
  ∃ s' tr,
    syncFileRename this file oldPath s = (Returns tt, s', tr) ∧
    disk s' !! new = Some (Fs.File data mtime) ∧
    disk s' !! old = None ∧
    (∀ k d m, k ≠ old → k ≠ new → disk s !! k = Some (Fs.File d m) →
              disk s' !! k = Some (Fs.File d m)) ∧
    Fs.tree_shaped (disk s') ∧
    (∀ k, Fs.is_dir (disk s !! k) = true → Fs.is_dir (disk s' !! k) = true) ∧
    notices tr =
      if notifyRename (settings this)
      then ["Synced rename file '" +:+ name file +:+ "' (was '" +:+ oldPath +:+ "')"]
      else [].
Proof.
  intros Htree Habs Hroot Hold Hnew Hfile Hne Hclear Hnodir.
  destruct (resolve_dirname_join (cwd this) (expandTargetPath this) (path file) Habs)
    as (k' & Hk' & Hd).
  fold (target_of this (path file)) in Hk', Hd.
  rewrite Hnew in Hk'. injection Hk' as <-.
  assert (Hroot0 : Fs.is_dir (disk s !! []) = true).
  { unfold entry in Hroot. destruct (Fs.resolve (cwd this) (expandTargetPath this)) as [kr|];
      [|done]. by eapply tree_shaped_root. }
  assert (Hkne : new ≠ []) by (intros ->; by rewrite Hroot0 in Hnodir).
  destruct (ensureParentDirectory_ready this _ new s Htree Hd Hroot0 Hclear)
    as (s0 & tr0 & Hp & Hchain & Hframe & Htree0).
  assert (Hfiles : ∀ k d m, disk s !! k = Some (Fs.File d m) →
                            disk s0 !! k = Some (Fs.File d m)).
  { intros k d m Hk. rewrite Hframe; [done|]. intros Hs. by eapply Hclear. }
  assert (Hnew0 : disk s0 !! new = disk s !! new)
    by (apply Hframe; by apply not_suffix_parent).
  destruct (rename_file (clock this (ticks s0)) old new (disk s0) data mtime)
    as (fs' & Hmove & Hat & Hgone & Hrest & Hdirs);
    [done|by apply Hfiles|done|by apply Hchain|by rewrite Hnew0|].
  rewrite (syncFileRename_eq this file oldPath s Hroot).
  fold (target_of this (path file)) (target_of this oldPath). simpl. rewrite Hp.
  unfold fs_rename, bind, emit, locate, ret, modify. rewrite Hold, Hnew, Hmove.
  eexists _, _. split; [reflexivity|]. simpl.
  split; [done|]. split; [done|].
  split; [intros k d m ? ? Hk; apply Hrest; [done| |done]; by apply Hfiles|].
  split; [by eapply rename_tree_shaped|].
  split.
  { intros k Hdir. apply Hdirs.
    assert (Hadv : advances this s s0)
      by (by apply ensureParentDirectory_inv in Hp as (Hadv & _)).
    destruct Hadv as [_ Hadv].
    destruct (disk s !! k) as [[|m']|] eqn:Hk; try done.
    destruct (Hadv _ _ Hk) as (n' & -> & Hkind & _). by destruct n'. }
  apply ensureParentDirectory_inv in Hp as (_ & _ & [-> | ->]);
    by destruct (notifyRename (settings this)).
Qed.

(** X10. The Renamed handler moves the copy whenever nothing is in its way.
    In a tree, with an absolute and available target root, when the old
    target path holds a file and the new target path (a different entry)
    holds no directory and has a clear way: the handler returns normally;
    the new target path then holds the file that was at the old one, bytes
    and time stamp; the old target path names nothing; every other file is
    as it was; and the notice is shown exactly when [notifyRename] is set. *)
Theorem rename_moves_the_copy (this : Plugin) (file : TAbstractFile)
    (oldPath : string) (s : state) (old new : Fs.key)
    (data : list byte) (mtime : Z) :
  Fs.tree_shaped (disk s) →
  Path.is_absolute (expandTargetPath this) = true →
  Fs.is_dir (entry this s (expandTargetPath this)) = true →
  Fs.resolve (cwd this) (target_of this oldPath) = Some old →
  Fs.resolve (cwd this) (target_of this (path file)) = Some new →
  disk s !! old = Some (Fs.File data mtime) →
  old ≠ new →
  clear_way (disk s) new →
  Fs.is_dir (disk s !! new) = false →
  ∃ s' tr,
    syncFileRename this file oldPath s = (Returns tt, s', tr) ∧
    disk s' !! new = Some (Fs.File data mtime) ∧
    disk s' !! old = None ∧
    (∀ k d m, k ≠ old → k ≠ new → disk s !! k = Some (Fs.File d m) →
              disk s' !! k = Some (Fs.File d m)) ∧
    notices tr =
      if notifyRename (settings this)
      then ["Synced rename file '" +:+ name file +:+ "' (was '" +:+ oldPath +:+ "')"]
      else [].
Proof.
  intros Htree Habs Hroot Hold Hnew Hfile Hne Hclear Hnodir.
  destruct (syncFileRename_moves this file oldPath s old new data mtime)
    as (s' & tr & Hrun & Hat & Hgone & Hrest & _ & _ & Hnotice); try done.
  by exists s', tr.
Qed.

(** X10 at work: the copy of [a/b.md] becomes the copy of [e/new.md]. *)
Lemma rename_moves_the_copy_witness :
  ∃ s' tr,
    syncFileRename Demo.plugin Demo.renamed "a/b.md" (Demo.copied 0) =
      (Returns tt, s', tr) ∧
    disk s' !! Scenes.renamed_key = Some (Fs.File (Demo.bytes "old") 0) ∧
    disk s' !! Scenes.note_key = None ∧
    notices tr = ["Synced rename file 'new.md' (was 'a/b.md')"].
Proof.
  destruct (rename_moves_the_copy Demo.plugin Demo.renamed "a/b.md" (Demo.copied 0)
              Scenes.note_key Scenes.renamed_key (Demo.bytes "old") 0)
    as (s' & tr & Hrun & Hat & Hgone & _ & Hnotice).
  - apply tree_shapedb_sound. vm_compute. reflexivity.
  - vm_compute. reflexivity.
  - vm_compute. reflexivity.
  - vm_compute. reflexivity.
  - vm_compute. reflexivity.
  - vm_compute. reflexivity.
  - vm_compute. discriminate.
  - apply clear_wayb_sound. vm_compute. reflexivity.
  - vm_compute. reflexivity.
  - exists s', tr. split; [exact Hrun|]. split; [exact Hat|].
    split; [exact Hgone|exact Hnotice].
Defined.

(** ** Renaming a folder *)

Section RenameFolder.
Implicit Types (fs : gmap Fs.key Fs.node) (old new k pre : Fs.key) (t : Z).

(** Two keys above the same key lie one above the other. *)
Lemma suffix_same_key old new pre pre' :
  pre ++ old = pre' ++ new → suffix old new ∨ suffix new old.
Proof.
  revert pre'. induction pre as [|x pre IH]; intros pre' Heq; simpl in Heq.
  - right. subst old. by exists pre'.
  - destruct pre' as [|y pre']; simpl in Heq.
    + left. subst new. by exists (x :: pre).
    + injection Heq as _ Heq. by eapply IH.
Qed.

(** Moving a directory to a place that names nothing takes everything
    below it along, as it is, and leaves nothing behind. *)
Lemma move_folder t old new fs m :
  Fs.tree_shaped fs →
  fs !! old = Some (Fs.Dir m) → fs !! new = None → ¬ suffix old new →
  (∀ pre, Fs.move t old new fs !! (pre ++ new) = fs !! (pre ++ old)) ∧
  (∀ pre, Fs.move t old new fs !! (pre ++ old) = None).
Proof.
  intros Htree Hold Hnew Hnot.
  assert (Hup : ¬ suffix new old).
  { intros Hs. destruct (decide (new = old)) as [->|Hne]; [congruence|].
    assert (Hdir : Fs.is_dir (fs !! new) = true).
    { eapply tree_shaped_ancestors; [done| |done|done]. by rewrite Hold. }
    by rewrite Hnew in Hdir. }
  unfold Fs.move.
  set (moved := list_to_map _ : gmap Fs.key Fs.node).
  set (kept := filter _ fs).
  split; intros pre; rewrite !touch_lookup.
  - assert (Hparent_old : pre ++ new ≠ Fs.parent old).
    { intros Heq. apply Hup. destruct old as [|seg up]; simpl in Heq.
      - destruct pre; [|done]. simpl in Heq. by subst new.
      - exists (seg :: pre). simpl. by rewrite Heq. }
    assert (Hparent_new : pre ++ new ≠ Fs.parent new).
    { intros Heq. destruct new as [|seg up]; simpl in Heq.
      - apply Hup. apply suffix_nil.
      - apply (f_equal length) in Heq. rewrite length_app in Heq. simpl in Heq. lia. }
    assert (Hunion : (moved ∪ kept) !! (pre ++ new) = fs !! (pre ++ old)).
    { destruct (fs !! (pre ++ old)) as [n|] eqn:Hn.
      - by rewrite (lookup_union_Some_l _ _ _ _ (moved_lookup old new fs pre n Hn)).
      - assert (Hm : moved !! (pre ++ new) = None).
        { destruct (moved !! (pre ++ new)) as [n|] eqn:Hm; [|done].
          apply moved_lookup_Some in Hm as (pre' & Heq & Hfs).
          apply app_inv_tail in Heq as <-. congruence. }
        rewrite lookup_union_r by done.
        apply map_lookup_filter_None. left.
        destruct (decide (pre ++ new = new)) as [->|Hne]; [done|].
        eapply tree_shaped_below; [done|by rewrite Hnew| |done].
        by exists pre. }
    rewrite Hunion.
    destruct (fs !! (pre ++ old)) as [[|m']|]; try done.
    by rewrite !decide_False.
  - assert (Hunion : (moved ∪ kept) !! (pre ++ old) = None).
    { apply lookup_union_None. split.
      - destruct (moved !! (pre ++ old)) as [n|] eqn:Hm; [|done].
        apply moved_lookup_Some in Hm as (pre' & Heq & _).
        by apply suffix_same_key in Heq as [?|?].
      - apply map_lookup_filter_None. right. intros n _ Hout. apply Hout.
        by exists pre. }
    by rewrite Hunion.
Qed.

End RenameFolder.

(** X11. The Renamed handler moves a folder with everything in it. In a
    tree, with an absolute and available target root, when the old target
    path holds a directory, the new target path names nothing, does not lie
    below the old one and has a clear way: the handler returns normally;
    every entry at or below the old target path is then found, as it was
    (kind, bytes and time stamp), at the same place below the new one;
    nothing is left at or below the old target path; and the notice is
    shown exactly when [notifyRename] is set. *)
Theorem rename_moves_a_folder (this : Plugin) (file : TAbstractFile)
    (oldPath : string) (s : state) (old new : Fs.key) (mtime : Z) :
  Fs.tree_shaped (disk s) →
  Path.is_absolute (expandTargetPath this) = true →
  Fs.is_dir (entry this s (expandTargetPath this)) = true →
  Fs.resolve (cwd this) (target_of this oldPath) = Some old →
  Fs.resolve (cwd this) (target_of this (path file)) = Some new →
  disk s !! old = Some (Fs.Dir mtime) →
  disk s !! new = None →
  ¬ suffix old new →
  clear_way (disk s) new →
  ∃ s' tr,
    syncFileRename this file oldPath s = (Returns tt, s', tr) ∧
    (∀ pre, disk s' !! (pre ++ new) = disk s !! (pre ++ old)) ∧
    (∀ pre, disk s' !! (pre ++ old) = None) ∧
    notices tr =
      if notifyRename (settings this)
      then ["Synced rename file '" +:+ name file +:+ "' (was '" +:+ oldPath +:+ "')"]
      else [].
Proof.
  intros Htree Habs Hroot Hold Hnew Hdir Hnone Hnot Hclear.
  destruct (resolve_dirname_join (cwd this) (expandTargetPath this) (path file) Habs)
    as (k' & Hk' & Hd).
  fold (target_of this (path file)) in Hk', Hd.
  rewrite Hnew in Hk'. injection Hk' as <-.
  assert (Hroot0 : Fs.is_dir (disk s !! []) = true).
  { unfold entry in Hroot. destruct (Fs.resolve (cwd this) (expandTargetPath this)) as [kr|];
      [|done]. by eapply tree_shaped_root. }
  assert (Hkne : new ≠ []) by (intros ->; by rewrite Hnone in Hroot0).
  destruct (ensureParentDirectory_ready this _ new s Htree Hd Hroot0 Hclear)
    as (s0 & tr0 & Hp & Hchain & Hframe & Htree0).
  assert (Hbelow : ∀ pre, disk s0 !! (pre ++ old) = disk s !! (pre ++ old)).
  { intros pre. apply Hframe. intros Hs. apply Hnot, suffix_parent.
    etrans; [|exact Hs]. by exists pre. }
  assert (Hnew0 : disk s0 !! new = None).
  { rewrite Hframe; [done|]. by apply not_suffix_parent. }
  assert (Hold0 : disk s0 !! old = Some (Fs.Dir mtime))
    by (pose proof (Hbelow []) as H0; simpl in H0; by rewrite H0).
  destruct (move_folder (clock this (ticks s0)) old new (disk s0) mtime
              Htree0 Hold0 Hnew0 Hnot) as [Hthere Hgone].
  rewrite (syncFileRename_eq this file oldPath s Hroot).
  fold (target_of this (path file)) (target_of this oldPath). simpl. rewrite Hp.
  unfold fs_rename, bind, emit, locate, ret, modify, Fs.rename.
  rewrite Hold, Hnew, Hold0, Hnew0.
  rewrite decide_False by (intros ->; congruence).
  pose proof (Hchain _ (reflexivity _)) as Hparent.
  destruct (disk s0 !! Fs.parent new) as [[|mp]|]; try done.
  rewrite bool_decide_eq_false_2 by done.
  eexists _, _. split; [reflexivity|]. simpl.
  split; [intros pre; by rewrite Hthere, Hbelow|].
  split; [done|].
  apply ensureParentDirectory_inv in Hp as (_ & _ & [-> | ->]);
    by destruct (notifyRename (settings this)).
Qed.

(** X11 at work: the folder [a] becomes the folder [e], and the copy of
    [a/b.md] with it. *)
Lemma rename_moves_a_folder_witness :
  ∃ s' tr,
    syncFileRename Demo.plugin Scenes.folder_e "a" (Demo.copied 0) =
      (Returns tt, s', tr) ∧
    disk s' !! ("b.md" :: "e" :: Demo.root_key) = Some (Fs.File (Demo.bytes "old") 0) ∧
    disk s' !! Scenes.note_key = None.
Proof.
  destruct (rename_moves_a_folder Demo.plugin Scenes.folder_e "a" (Demo.copied 0)
              ("a" :: Demo.root_key) ("e" :: Demo.root_key) 0)
    as (s' & tr & Hrun & Hthere & Hgone & _).
  - apply tree_shapedb_sound. vm_compute. reflexivity.
  - vm_compute. reflexivity.
  - vm_compute. reflexivity.
  - vm_compute. reflexivity.
  - vm_compute. reflexivity.
  - vm_compute. reflexivity.
  - vm_compute. reflexivity.
  - intros Hs. apply suffix_cons_cases in Hs as [Heq|Hs]; [discriminate Heq|].
    apply suffix_length in Hs. simpl in Hs. lia.
  - apply clear_wayb_sound. vm_compute. reflexivity.
  - exists s', tr. split; [exact Hrun|]. split.
    + pose proof (Hthere ["b.md"]) as Hcopy. simpl in Hcopy. rewrite Hcopy.
      vm_compute. reflexivity.
    + exact (Hgone ["b.md"]).
Defined.

(** ** A probe that never throws *)

(** X12. [safeStat] swallows every failure of [stat]: it always returns,
    after exactly one [stat] call and in the state it started in; it
    returns [null] exactly when the path names nothing, and the stats of
    the entry otherwise. *)
Theorem safeStat_never_throws (this : Plugin) (file : string) (s : state) :
  ∃ o, safeStat this file s = (Returns o, s, [Call (Stat file)]) ∧
       (o = None ↔ entry this s file = None) ∧
       (∀ n, entry this s file = Some n → o = Some (Fs.stats_of n)).
Proof.
  rewrite safeStat_eq. eexists. split; [reflexivity|].
  destruct (entry this s file) as [n|]; simpl; split; try done.
  by intros n' [= <-].
Qed.

(** ** A directory in the way of a file *)

(** X13. With an absolute and available target root in a tree, when the
    target path of a file of the source tree names a directory, the
    Created handler throws [EISDIR] from the write, leaves the filesystem
    as it was, and shows no notice. *)
Theorem create_file_refused (this : Plugin) (file : TAbstractFile)
    (content : list byte) (s : state) :
  let targetPath := target_of this (path file) in
  Fs.tree_shaped (disk s) →
  Path.is_absolute (expandTargetPath this) = true →
  Fs.is_dir (entry this s (expandTargetPath this)) = true →
  source_file this (path file) content →
  Fs.is_dir (entry this s targetPath) = true →
  ∃ s' tr,
    syncFileCreate this file s = (Throws (FsError Fs.EISDIR "open" targetPath), s', tr) ∧
    disk s' = disk s ∧
    fs_calls tr = [Stat (expandTargetPath this); Stat (Path.dirname targetPath);
                   WriteFile targetPath content] ∧
    notices tr = [].
Proof.
  intros targetPath Htree Habs Hroot Hsrc Hdir.
  destruct (resolve_dirname_join (cwd this) (expandTargetPath this) (path file) Habs)
    as (k & Hk & Hd).
  fold (target_of this (path file)) in Hk, Hd. fold targetPath in Hk, Hd.
  unfold entry in Hdir. rewrite Hk in Hdir. simpl in Hdir.
  assert (Hparent : Fs.is_dir (disk s !! Fs.parent k) = true).
  { destruct k as [|seg up]; [done|]. simpl. apply (Htree seg).
    by destruct (disk s !! (seg :: up)). }
  rewrite (syncFileCreate_file_eq this file content Hsrc s Hroot). simpl.
  fold targetPath. rewrite ensureParentDirectory_eq. unfold entry at 1.
  rewrite Hd. simpl. rewrite Hparent.
  unfold fs_writeFile, bind, emit, locate, ret, modify, Fs.writeFile. rewrite Hk.
  destruct (disk s !! k) as [[]|]; try done.
  by eexists _, _.
Qed.

(** X13 at work: a directory sits where the copy of [a/b.md] belongs. *)
Lemma create_file_refused_witness :
  ∃ s' tr,
    syncFileCreate Demo.plugin Demo.created_note Demo.dir_at_note =
      (Throws (FsError Fs.EISDIR "open" "/home/u/cs/test-notes/a/b.md"), s', tr) ∧
    disk s' = disk Demo.dir_at_note ∧
    notices tr = [].
Proof.
  destruct (create_file_refused Demo.plugin Demo.created_note (Demo.bytes "x")
              Demo.dir_at_note)
    as (s' & tr & Hrun & Hdisk & _ & Hnotice).
  - apply tree_shapedb_sound. vm_compute. reflexivity.
  - vm_compute. reflexivity.
  - vm_compute. reflexivity.
  - vm_compute. reflexivity.
  - vm_compute. reflexivity.
  - exists s', tr. split; [exact Hrun|]. split; [exact Hdisk|exact Hnotice].
Defined.

(** ** The first version of the class *)

Section FirstVersion.
Variable this : Plugin.
Implicit Types (s : state) (p : string).

Lemma v1_ensureParentDirectory_eq p s :
  V1.ensureParentDirectory this p s =
    match entry this s (Path.dirname p) with
    | None => (Throws (FsError (lookup_errno this s (Path.dirname p)) "stat"
                         (Path.dirname p)), s,
               [Call (Stat (Path.dirname p))])
    | Some n =>
        if Fs.isDirectory (Fs.stats_of n) then
          (Returns tt, s, [Call (Stat (Path.dirname p))])
        else
          match fs_mkdir this (Path.dirname p) true s with
          | (r, s', tr) => (r, s', Call (Stat (Path.dirname p)) :: tr)
          end
    end.
Proof.
  unfold V1.ensureParentDirectory, bind. rewrite fs_stat_eq.
  destruct (entry this s (Path.dirname p)) as [n|]; [|done].
  destruct (Fs.isDirectory (Fs.stats_of n)); [done|].
  by destruct (fs_mkdir this _ true s) as [[??]?].
Qed.

(** [ensureParentDirectory] of the first version, evaluated: it returns
    where the parent is a directory and throws everywhere else. *)
Lemma v1_ensureParentDirectory_cases p s :
  (Fs.is_dir (entry this s (Path.dirname p)) = true ∧
   V1.ensureParentDirectory this p s =
     (Returns tt, s, [Call (Stat (Path.dirname p))])) ∨
  (Fs.is_dir (entry this s (Path.dirname p)) = false ∧
   ∃ s' tr,
     V1.ensureParentDirectory this p s =
       (Throws (match entry this s (Path.dirname p) with
                | Some _ => FsError Fs.EEXIST "mkdir" (Path.dirname p)
                | None => FsError (lookup_errno this s (Path.dirname p)) "stat"
                            (Path.dirname p)
                end), s', tr) ∧
     disk s' = disk s).
Proof.
  rewrite v1_ensureParentDirectory_eq.
  unfold fs_mkdir, bind, emit, locate, ret, throw, modify, entry, lookup_errno.
  destruct (Fs.resolve (cwd this) (Path.dirname p)) as [k|]; simpl.
  - destruct (disk s !! k) as [[d m|m]|] eqn:Hk; simpl.
    + right. split; [done|].
      assert (Fs.mkdirp (clock this (ticks s)) k (disk s) = inl Fs.EEXIST) as ->
        by (destruct k; simpl; by rewrite Hk).
      by eexists _, _.
    + by left.
    + right. split; [done|]. by eexists _, _.
  - right. split; [done|]. by eexists _, _.
Qed.

Lemma v1_ensureParentDirectory_returns p s s0 tr0 :
  V1.ensureParentDirectory this p s = (Returns tt, s0, tr0) →
  ensureParentDirectory this p s = (Returns tt, s0, tr0).
Proof.
  destruct (v1_ensureParentDirectory_cases p s)
    as [[Hdir ->]|(_ & s' & tr & -> & _)]; [|done].
  intros [= <- <-]. by rewrite ensureParentDirectory_eq, Hdir.
Qed.

Lemma adapter_readBinary_inv p s r s' tr :
  adapter_readBinary this p s = (r, s', tr) → s' = s ∧ tr = [].
Proof.
  unfold adapter_readBinary, ret, throw.
  destruct (adapter (vault this) !! p) as [e|]; [|by intros [= <- <- <-]].
  destruct (String.eqb (type e) "file"); by intros [= <- <- <-].
Qed.

Lemma fs_rm_inv p s r s' tr :
  fs_rm this p s = (r, s', tr) → tr = [Call (Rm p)].
Proof.
  unfold fs_rm, bind, emit, locate, ret, throw.
  destruct (Fs.resolve (cwd this) p) as [k|]; [|by intros [= <- <- <-]].
  destruct (Fs.rm _ k (disk s)); by intros [= <- <- <-].
Qed.

End FirstVersion.

(** X14. [ensureParentDirectory] of the first version never creates a
    directory, whatever its name and its [mkdir] call suggest: it returns
    exactly when the parent of the path already is a directory, and
    whether it returns or throws, the filesystem is as it was. A parent
    that names nothing is refused by the [stat], with [ENOENT] when no
    regular file is on the way to it and, in a tree, with [ENOTDIR] when a
    regular file is; a regular file in its place is refused by the [mkdir]
    with [EEXIST]. *)
Theorem v1_ensureParentDirectory_never_creates (this : Plugin)
    (targetPath : string) (s s' : state) (r : outcome unit) (tr : list event) :
  let targetParent := Path.dirname targetPath in
  V1.ensureParentDirectory this targetPath s = (r, s', tr) →
  disk s' = disk s ∧
  (r = Returns tt ↔ Fs.is_dir (entry this s targetParent) = true) ∧
  (∀ k, Fs.resolve (cwd this) targetParent = Some k → disk s !! k = None →
        clear_way (disk s) k →
        r = Throws (FsError Fs.ENOENT "stat" targetParent)) ∧
  (∀ k a d m, Fs.resolve (cwd this) targetParent = Some k → disk s !! k = None →
              Fs.tree_shaped (disk s) →
              suffix a (Fs.parent k) → disk s !! a = Some (Fs.File d m) →
              r = Throws (FsError Fs.ENOTDIR "stat" targetParent)) ∧
  (∀ d m, entry this s targetParent = Some (Fs.File d m) →
          r = Throws (FsError Fs.EEXIST "mkdir" targetParent)).
Proof.
  intros targetParent.
  destruct (v1_ensureParentDirectory_cases this targetPath s)
    as [[Hdir ->]|(Hdir & s0 & tr0 & -> & Hdisk)]; fold targetParent in Hdir |- *.
  - intros [= <- <- <-]. split; [done|]. split; [done|].
    unfold entry in Hdir.
    split; [|split].
    + intros k Hk Hnone _. by rewrite Hk in Hdir; simpl in Hdir; rewrite Hnone in Hdir.
    + intros k a d m Hk Hnone _ _ _.
      by rewrite Hk in Hdir; simpl in Hdir; rewrite Hnone in Hdir.
    + intros d m Hn. fold (entry this s targetParent) in Hdir. by rewrite Hn in Hdir.
  - intros [= <- <- <-]. split; [done|]. rewrite Hdir. split; [done|].
    split; [|split].
    + intros k Hk Hnone Hclear. unfold entry. rewrite Hk. simpl. rewrite Hnone.
      by rewrite (lookup_errno_clear this s targetParent k).
    + intros k a d m Hk Hnone Htree Ha Hfile. unfold entry. rewrite Hk. simpl.
      rewrite Hnone. by rewrite (lookup_errno_below_file this s targetParent k a d m).
    + by intros d m ->.
Qed.

(** X14 at work: the folder for [a/b.md] is missing, and stays missing;
    the folder for [e/sub/new.md] would lie below the regular file [e]. *)
Lemma v1_ensureParentDirectory_never_creates_witness :
  (disk (V1.ensureParentDirectory Demo.plugin "/home/u/cs/test-notes/a/b.md"
           Demo.empty_mirror).1.2 = disk Demo.empty_mirror ∧
   (V1.ensureParentDirectory Demo.plugin "/home/u/cs/test-notes/a/b.md"
      Demo.empty_mirror).1.1 =
     Throws (FsError Fs.ENOENT "stat" "/home/u/cs/test-notes/a")) ∧
  (V1.ensureParentDirectory Demo.plugin "/home/u/cs/test-notes/e/sub/new.md"
     Demo.file_in_the_way).1.1 =
    Throws (FsError Fs.ENOTDIR "stat" "/home/u/cs/test-notes/e/sub").
Proof.
  split.
  - destruct (v1_ensureParentDirectory_never_creates Demo.plugin
                "/home/u/cs/test-notes/a/b.md" Demo.empty_mirror
                (V1.ensureParentDirectory Demo.plugin "/home/u/cs/test-notes/a/b.md"
                   Demo.empty_mirror).1.2
                (V1.ensureParentDirectory Demo.plugin "/home/u/cs/test-notes/a/b.md"
                   Demo.empty_mirror).1.1
                (V1.ensureParentDirectory Demo.plugin "/home/u/cs/test-notes/a/b.md"
                   Demo.empty_mirror).2)
      as (Hdisk & _ & Hmissing & _).
    + vm_compute. reflexivity.
    + split; [exact Hdisk|]. apply (Hmissing ("a" :: Demo.root_key)).
      * vm_compute. reflexivity.
      * vm_compute. reflexivity.
      * apply clear_wayb_sound. vm_compute. reflexivity.
  - destruct (v1_ensureParentDirectory_never_creates Demo.plugin
                "/home/u/cs/test-notes/e/sub/new.md" Demo.file_in_the_way
                (V1.ensureParentDirectory Demo.plugin
                   "/home/u/cs/test-notes/e/sub/new.md" Demo.file_in_the_way).1.2
                (V1.ensureParentDirectory Demo.plugin
                   "/home/u/cs/test-notes/e/sub/new.md" Demo.file_in_the_way).1.1
                (V1.ensureParentDirectory Demo.plugin
                   "/home/u/cs/test-notes/e/sub/new.md" Demo.file_in_the_way).2)
      as (_ & _ & _ & Hbelow & _).
    + vm_compute. reflexivity.
    + apply (Hbelow ("sub" :: "e" :: Demo.root_key) ("e" :: Demo.root_key)
               (Demo.bytes "z") 0).
      * vm_compute. reflexivity.
      * vm_compute. reflexivity.
      * apply tree_shapedb_sound. vm_compute. reflexivity.
      * reflexivity.
      * vm_compute. reflexivity.
Defined.

(** X15. The second version extends the first. Whenever the handler the
    first version registers for a vault event returns normally, the handler
    of the second version for that event returns normally too, in the same
    state and after the same filesystem calls; the later version only adds
    notices, whatever its settings are. *)
Theorem second_version_extends_first (this : Plugin) (ev : vault_event)
    (s s' : state) (tr1 : list event) :
  handle_v1 this ev s = (Returns tt, s', tr1) →
  ∃ tr2, handle this ev s = (Returns tt, s', tr2) ∧
         fs_calls tr2 = fs_calls tr1 ∧
         notices tr1 = [].
Proof.
  destruct ev as [file|file|file|file oldPath]; simpl.
  - unfold V1.syncFileCreate, syncFileCreate, ensureTargetPath, console_print, adapter_stat.
    rewrite !bind_emit.
    rewrite !(bind_returns _ _ _ _ _ _ (targetPathExists_eq this s)).
    destruct (Fs.is_dir (entry this s (expandTargetPath this))); simpl.
    2:{ intros [= <- <-]. by eexists. }
    rewrite !bind_ret, bind_assoc.
    set (targetPath := Path.join (expandTargetPath this) (path file)).
    destruct (V1.ensureParentDirectory this targetPath s) as [[[[]|e] s0] tr0] eqn:Hp.
    2:{ by rewrite (bind_throws _ _ _ _ _ _ Hp). }
    rewrite (bind_returns _ _ _ _ _ _ Hp).
    pose proof (v1_ensureParentDirectory_cases this targetPath s) as Hcases.
    rewrite Hp in Hcases. destruct Hcases as [[_ [= -> ->]]|(_ & ? & ? & [=] & _)].
    apply v1_ensureParentDirectory_returns in Hp.
    rewrite (bind_returns _ _ _ _ _ _ Hp), bind_ret.
    destruct (bool_decide _).
    { destruct (fs_mkdir this _ false s) as [[[[]|e] s1] tr1'] eqn:Hm; [|done].
      apply fs_mkdir_plain_inv in Hm as (-> & _).
      intros [= <- <-]. by eexists. }
    destruct (bool_decide _).
    2:{ intros [= <- <-]. by eexists. }
    destruct (adapter_readBinary this (path file) s) as [[[content|e] s1] tr1'] eqn:Hr.
    2:{ by rewrite (bind_throws _ _ _ _ _ _ Hr). }
    rewrite !(bind_returns _ _ _ _ _ _ Hr).
    pose proof Hr as Hr'. apply adapter_readBinary_inv in Hr' as (-> & ->).
    destruct (fs_writeFile this _ content s) as [[[[]|e] s2] tr2'] eqn:Hw; [|done].
    rewrite (bind_returns _ _ _ _ _ _ Hw).
    apply fs_writeFile_inv in Hw as (-> & _).
    intros [= <- <-]. destruct (notifyCreate (settings this)); by eexists.
  - unfold V1.syncFileModify, syncFileModify, ensureTargetPath, console_print.
    rewrite !bind_emit.
    rewrite !(bind_returns _ _ _ _ _ _ (targetPathExists_eq this s)).
    destruct (Fs.is_dir (entry this s (expandTargetPath this))); simpl.
    2:{ intros [= <- <-]. by eexists. }
    rewrite bind_assoc.
    set (targetPath := Path.join (expandTargetPath this) (path file)).
    destruct (V1.ensureParentDirectory this targetPath s) as [[[[]|e] s0] tr0] eqn:Hp.
    2:{ by rewrite (bind_throws _ _ _ _ _ _ Hp). }
    rewrite (bind_returns _ _ _ _ _ _ Hp).
    pose proof (v1_ensureParentDirectory_cases this targetPath s) as Hcases.
    rewrite Hp in Hcases. destruct Hcases as [[_ [= -> ->]]|(_ & ? & ? & [=] & _)].
    apply v1_ensureParentDirectory_returns in Hp.
    rewrite (bind_returns _ _ _ _ _ _ Hp), bind_ret.
    destruct (adapter_readBinary this (path file) s) as [[[content|e] s1] tr1'] eqn:Hr.
    2:{ by rewrite (bind_throws _ _ _ _ _ _ Hr). }
    rewrite !(bind_returns _ _ _ _ _ _ Hr).
    pose proof Hr as Hr'. apply adapter_readBinary_inv in Hr' as (-> & ->).
    destruct (fs_writeFile this _ content s) as [[[[]|e] s2] tr2'] eqn:Hw; [|done].
    rewrite (bind_returns _ _ _ _ _ _ Hw).
    apply fs_writeFile_inv in Hw as (-> & _).
    intros [= <- <-]. destruct (notifyModify (settings this)); by eexists.
  - unfold V1.syncFileDelete, syncFileDelete, console_print.
    rewrite !bind_emit.
    rewrite !(bind_returns _ _ _ _ _ _ (targetPathExists_eq this s)).
    destruct (Fs.is_dir (entry this s (expandTargetPath this))); simpl.
    2:{ intros [= <- <-]. by eexists. }
    destruct (fs_rm this _ s) as [[[[]|e] s1] tr1'] eqn:Hm; [|done].
    rewrite (bind_returns _ _ _ _ _ _ Hm).
    apply fs_rm_inv in Hm as ->.
    intros [= <- <-]. destruct (notifyDelete (settings this)); by eexists.
  - unfold V1.syncFileRename, syncFileRename, console_print.
    rewrite !bind_emit.
    rewrite !(bind_returns _ _ _ _ _ _ (targetPathExists_eq this s)).
    destruct (Fs.is_dir (entry this s (expandTargetPath this))); simpl.
    2:{ intros [= <- <-]. by eexists. }
    set (targetPath := Path.join (expandTargetPath this) (path file)).
    destruct (V1.ensureParentDirectory this targetPath s) as [[[[]|e] s0] tr0] eqn:Hp.
    2:{ by rewrite (bind_throws _ _ _ _ _ _ Hp). }
    rewrite (bind_returns _ _ _ _ _ _ Hp).
    pose proof (v1_ensureParentDirectory_cases this targetPath s) as Hcases.
    rewrite Hp in Hcases. destruct Hcases as [[_ [= -> ->]]|(_ & ? & ? & [=] & _)].
    apply v1_ensureParentDirectory_returns in Hp.
    rewrite (bind_returns _ _ _ _ _ _ Hp).
    unfold try_catch.
    destruct (fs_rename this _ _ s) as [[[[]|e] s1] tr1'] eqn:Hm; [|done].
    rewrite (bind_returns _ _ _ _ _ _ Hm).
    apply fs_rename_inv in Hm as (-> & _).
    intros [= <- <-]. destruct (notifyRename (settings this)); by eexists.
Qed.

(** X15 at work: both versions remove the copy of [a/b.md]. *)
Lemma second_version_extends_first_witness :
  ∃ tr2,
    handle Demo.plugin (Deleted Demo.created_note) (Demo.copied 0) =
      (Returns tt,
       (handle_v1 Demo.plugin (Deleted Demo.created_note) (Demo.copied 0)).1.2, tr2) ∧
    fs_calls tr2 =
      fs_calls (handle_v1 Demo.plugin (Deleted Demo.created_note) (Demo.copied 0)).2.
Proof.
  destruct (second_version_extends_first Demo.plugin (Deleted Demo.created_note)
              (Demo.copied 0)
              (handle_v1 Demo.plugin (Deleted Demo.created_note) (Demo.copied 0)).1.2
              (handle_v1 Demo.plugin (Deleted Demo.created_note) (Demo.copied 0)).2)
    as (tr2 & Hrun & Hcalls & _).
  - vm_compute. reflexivity.
  - exists tr2. split; [exact Hrun|exact Hcalls].
Defined.

(** X16. The first version cannot copy into a folder the mirror does not
    have yet. With the target root available, when the parent of the
    target path is not a directory, its Created, Modified and Renamed
    handlers throw and leave the filesystem as it was. A parent that names
    nothing is refused by the [stat], with [ENOENT] when no regular file is
    on the way to it and, in a tree, with [ENOTDIR] when a regular file is;
    a regular file in its place is refused by the [mkdir] with [EEXIST]. *)
Theorem first_version_needs_the_parent (this : Plugin) (ev : vault_event)
    (s : state) :
  let targetParent := Path.dirname (target_of this (path (event_file ev))) in
  (∀ file, ev ≠ Deleted file) →
  Fs.is_dir (entry this s (expandTargetPath this)) = true →
  Fs.is_dir (entry this s targetParent) = false →
  ∃ e s' tr,
    handle_v1 this ev s = (Throws e, s', tr) ∧
    disk s' = disk s ∧
    (∀ k, Fs.resolve (cwd this) targetParent = Some k → disk s !! k = None →
          clear_way (disk s) k →
          e = FsError Fs.ENOENT "stat" targetParent) ∧
    (∀ k a d m, Fs.resolve (cwd this) targetParent = Some k → disk s !! k = None →
                Fs.tree_shaped (disk s) →
                suffix a (Fs.parent k) → disk s !! a = Some (Fs.File d m) →
                e = FsError Fs.ENOTDIR "stat" targetParent) ∧
    (∀ n, entry this s targetParent = Some n →
          e = FsError Fs.EEXIST "mkdir" targetParent).
Proof.
  intros targetParent Hev Hroot Hparent.
  destruct (v1_ensureParentDirectory_cases this (target_of this (path (event_file ev))) s)
    as [[Hdir _]|(_ & s' & tr & Hp & Hdisk)].
  { fold targetParent in Hdir. by rewrite Hdir in Hparent. }
  fold targetParent in Hp. unfold target_of in Hp.
  assert (Herr :
    ∀ e, e = match entry this s targetParent with
             | Some _ => FsError Fs.EEXIST "mkdir" targetParent
             | None => FsError (lookup_errno this s targetParent) "stat" targetParent
             end →
    (∀ k, Fs.resolve (cwd this) targetParent = Some k → disk s !! k = None →
          clear_way (disk s) k →
          e = FsError Fs.ENOENT "stat" targetParent) ∧
    (∀ k a d m, Fs.resolve (cwd this) targetParent = Some k → disk s !! k = None →
                Fs.tree_shaped (disk s) →
                suffix a (Fs.parent k) → disk s !! a = Some (Fs.File d m) →
                e = FsError Fs.ENOTDIR "stat" targetParent) ∧
    (∀ n, entry this s targetParent = Some n →
          e = FsError Fs.EEXIST "mkdir" targetParent)).
  { intros e ->. split; [|split].
    - intros k Hk Hnone Hclear. unfold entry. rewrite Hk. simpl. rewrite Hnone.
      by rewrite (lookup_errno_clear this s targetParent k).
    - intros k a d m Hk Hnone Htree Ha Hfile. unfold entry. rewrite Hk. simpl.
      rewrite Hnone. by rewrite (lookup_errno_below_file this s targetParent k a d m).
    - by intros n ->. }
  destruct ev as [file|file|file|file oldPath]; simpl in *.
  - unfold V1.syncFileCreate, console_print, adapter_stat.
    rewrite bind_emit, (bind_returns _ _ _ _ _ _ (targetPathExists_eq this s)), Hroot.
    simpl. rewrite bind_ret, (bind_throws _ _ _ _ _ _ Hp).
    eexists _, _, _. split; [reflexivity|]. split; [done|]. by apply Herr.
  - unfold V1.syncFileModify, console_print.
    rewrite bind_emit, (bind_returns _ _ _ _ _ _ (targetPathExists_eq this s)), Hroot.
    simpl. rewrite (bind_throws _ _ _ _ _ _ Hp).
    eexists _, _, _. split; [reflexivity|]. split; [done|]. by apply Herr.
  - by destruct (Hev file).
  - unfold V1.syncFileRename, console_print.
    rewrite bind_emit, (bind_returns _ _ _ _ _ _ (targetPathExists_eq this s)), Hroot.
    simpl. rewrite (bind_throws _ _ _ _ _ _ Hp).
    eexists _, _, _. split; [reflexivity|]. split; [done|]. by apply Herr.
Qed.

(** X16 at work: the first version cannot copy [a/b.md] into an empty
    mirror, nor move a copy to [e/sub/new.md] below the regular file
    [e]. *)
Lemma first_version_needs_the_parent_witness :
  (∃ s' tr,
     handle_v1 Demo.plugin (Created Demo.created_note) Demo.empty_mirror =
       (Throws (FsError Fs.ENOENT "stat" "/home/u/cs/test-notes/a"), s', tr) ∧
     disk s' = disk Demo.empty_mirror) ∧
  (∃ s' tr,
     handle_v1 Demo.plugin (Renamed Scenes.deep_note "a/b.md") Demo.file_in_the_way =
       (Throws (FsError Fs.ENOTDIR "stat" "/home/u/cs/test-notes/e/sub"), s', tr) ∧
     disk s' = disk Demo.file_in_the_way).
Proof.
  split.
  - destruct (first_version_needs_the_parent Demo.plugin (Created Demo.created_note)
                Demo.empty_mirror)
      as (e & s' & tr & Hrun & Hdisk & Hmissing & _).
    + intros file. discriminate.
    + vm_compute. reflexivity.
    + vm_compute. reflexivity.
    + exists s', tr. split; [|exact Hdisk].
      rewrite Hrun. f_equal. f_equal. f_equal.
      apply (Hmissing ("a" :: Demo.root_key)).
      * vm_compute. reflexivity.
      * vm_compute. reflexivity.
      * apply clear_wayb_sound. vm_compute. reflexivity.
  - destruct (first_version_needs_the_parent Demo.plugin
                (Renamed Scenes.deep_note "a/b.md") Demo.file_in_the_way)
      as (e & s' & tr & Hrun & Hdisk & _ & Hbelow & _).
    + intros file. discriminate.
    + vm_compute. reflexivity.
    + vm_compute. reflexivity.
    + exists s', tr. split; [|exact Hdisk].
      rewrite Hrun. f_equal. f_equal. f_equal.
      apply (Hbelow ("sub" :: "e" :: Demo.root_key) ("e" :: Demo.root_key)
               (Demo.bytes "z") 0).
      * vm_compute. reflexivity.
      * vm_compute. reflexivity.
      * apply tree_shapedb_sound. vm_compute. reflexivity.
      * reflexivity.
      * vm_compute. reflexivity.
Defined.

(** ** The settings *)

(** X17. Settings survive a restart. Whatever control of the settings tab
    is changed, and from whatever settings, what [onChange] stores is
    loaded back by [loadSettings] as exactly the settings the plugin then
    has; these differ from the settings before in the changed field
    only. *)
Theorem settings_survive_restart (c : change) (st : CopyExternalPluginSettings) :
  loadSettings (onChange c st).1.2 = (onChange c st).1.1 ∧
  ((∀ value, c ≠ TargetDirectory value) →
   targetDirectory (onChange c st).1.1 = targetDirectory st) ∧
  ((∀ value, c ≠ NotifyCreate value) →
   notifyCreate (onChange c st).1.1 = notifyCreate st) ∧
  ((∀ value, c ≠ NotifyModify value) →
   notifyModify (onChange c st).1.1 = notifyModify st) ∧
  ((∀ value, c ≠ NotifyDelete value) →
   notifyDelete (onChange c st).1.1 = notifyDelete st) ∧
  ((∀ value, c ≠ NotifyRename value) →
   notifyRename (onChange c st).1.1 = notifyRename st).
Proof.
  split; [by destruct c, st|].
  repeat split; intros Hc; destruct c as [v|v|v|v|v]; try done;
    by destruct (Hc v).
Qed.

(** X17 at work: turning the Modified notice on. *)
Lemma settings_survive_restart_witness :
  loadSettings (onChange (NotifyModify true) DEFAULT_SETTINGS).1.2 =
    (onChange (NotifyModify true) DEFAULT_SETTINGS).1.1 ∧
  targetDirectory (onChange (NotifyModify true) DEFAULT_SETTINGS).1.1 =
    "$HOME/cs/test-notes".
Proof.
  destruct (settings_survive_restart (NotifyModify true) DEFAULT_SETTINGS)
    as (Hload & Htd & _).
  split; [exact Hload|]. apply Htd. intros value. discriminate.
Defined.

(** ** The expansion of the placeholder *)

Section Expansion.

Lemma starts_with_app pat rest : JsString.starts_with pat (pat +:+ rest) = true.
Proof.
  induction pat as [|a pat IH]; [done|].
  rewrite append_cons. simpl. by rewrite Ascii.eqb_refl.
Qed.

Lemma starts_with_occurs pat s : JsString.starts_with pat s = true → occurs pat s.
Proof. intros H. exists "", (JsString.drop (String.length pat) s). by apply starts_with_drop. Qed.

Lemma split_first_start pat s :
  JsString.starts_with pat s = true →
  JsString.split_first pat s = Some ("", JsString.drop (String.length pat) s).
Proof. destruct s; simpl; by intros ->. Qed.

Lemma split_first_cons pat c s :
  JsString.split_first pat (String c s) =
    if JsString.starts_with pat (String c s)
    then Some ("", JsString.drop (String.length pat) (String c s))
    else match JsString.split_first pat s with
         | Some (before, after) => Some (String c before, after)
         | None => None
         end.
Proof. reflexivity. Qed.

(** [split_first] finds an occurrence exactly when there is one. *)
Lemma occurs_split_first pat s :
  occurs pat s ↔ is_Some (JsString.split_first pat s).
Proof.
  split.
  - intros (before & after & ->). induction before as [|c before IH].
    + change ("" +:+ pat +:+ after) with (pat +:+ after).
      by rewrite split_first_start by apply starts_with_app.
    + rewrite append_cons, split_first_cons.
      destruct (JsString.starts_with pat _); [done|].
      destruct IH as [[b a] ->]. done.
  - intros [[before after] H]. exists before, after. by apply split_first_spec.
Qed.

Lemma occurs_cons pat c s : occurs pat s → occurs pat (String c s).
Proof. intros (before & after & ->). by exists (String c before), after. Qed.

(** An occurrence of the placeholder that starts within [String c before]
    ends before the last character of the placeholder that follows. *)
Lemma starts_with_HOME_early c before after :
  JsString.starts_with "$HOME" (String c before +:+ "$HOME" +:+ after) = true →
  JsString.starts_with "$HOME" (String c before +:+ "$HOM") = true.
Proof.
  destruct before as [|c1 [|c2 [|c3 [|c4 before]]]];
    rewrite ?append_cons; cbn; rewrite ?append_cons; cbn;
    repeat (destruct (Ascii.eqb _ _); [|done]); done.
Qed.

(** [split_first] cuts at the first occurrence of the placeholder. *)
Lemma split_first_HOME before after :
  ¬ occurs "$HOME" (before +:+ "$HOM") →
  JsString.split_first "$HOME" (before +:+ "$HOME" +:+ after) = Some (before, after).
Proof.
  induction before as [|c before IH]; intros Hfirst.
  - done.
  - rewrite append_cons, split_first_cons.
    destruct (JsString.starts_with "$HOME" (String c (before +:+ "$HOME" +:+ after)))
      eqn:Hstart.
    + destruct Hfirst. apply starts_with_occurs.
      rewrite <- append_cons in Hstart. by apply starts_with_HOME_early in Hstart.
    + rewrite IH; [done|]. intros Hocc. apply Hfirst.
      rewrite append_cons. by apply occurs_cons.
Qed.

Lemma not_occurs pat s : JsString.split_first pat s = None → ¬ occurs pat s.
Proof. intros Hnone Hocc. apply occurs_split_first in Hocc. rewrite Hnone in Hocc. by destruct Hocc. Qed.

End Expansion.

(** X18. A target directory without the placeholder is used as it is
    written, whatever the environment holds, a home value with dollar
    signs included. *)
Theorem expandTargetPath_without_placeholder (this : Plugin) :
  ¬ occurs "$HOME" (targetDirectory (settings this)) →
  expandTargetPath this = targetDirectory (settings this).
Proof.
  intros Hnone. unfold expandTargetPath, JsString.replace.
  destruct (env_HOME this) as [home|]; [|done].
  destruct (JsString.split_first _ _) as [[before after]|] eqn:Hsplit; [|done].
  destruct Hnone. apply occurs_split_first. by rewrite Hsplit.
Qed.

(** X18 at work: a target directory without the placeholder, and a home
    value with dollar signs. *)
Lemma expandTargetPath_without_placeholder_witness :
  expandTargetPath (Scenes.plugin_at "/data/mirror" (Some "/mnt/$$vol")) = "/data/mirror".
Proof.
  apply (expandTargetPath_without_placeholder
           (Scenes.plugin_at "/data/mirror" (Some "/mnt/$$vol"))).
  apply not_occurs. vm_compute. reflexivity.
Defined.

(** X19. Only the first placeholder is expanded. With a home value
    without a dollar sign, a target directory that reads [before], the
    placeholder, [after], with no occurrence of the placeholder starting
    within [before], expands to [before], the home value, [after]: a
    placeholder in [after] stays as it is written. *)
Theorem expandTargetPath_first_placeholder (this : Plugin)
    (home before after : string) :
  env_HOME this = Some home →
  JsString.dollar_free home = true →
  targetDirectory (settings this) = before +:+ "$HOME" +:+ after →
  ¬ occurs "$HOME" (before +:+ "$HOM") →
  expandTargetPath this = before +:+ home +:+ after.
Proof.
  intros Hhome Hfree Htd Hfirst. unfold expandTargetPath, JsString.replace.
  rewrite Hhome, Htd, (split_first_HOME before after Hfirst).
  by rewrite get_substitution_dollar_free.
Qed.

(** X19 at work: the second placeholder stays. *)
Lemma expandTargetPath_first_placeholder_witness :
  expandTargetPath (Scenes.plugin_at "$HOME/x/$HOME" (Some "/home/u")) =
    "/home/u/x/$HOME".
Proof.
  apply (expandTargetPath_first_placeholder
           (Scenes.plugin_at "$HOME/x/$HOME" (Some "/home/u")) "/home/u" "" "/x/$HOME").
  - reflexivity.
  - vm_compute. reflexivity.
  - reflexivity.
  - apply not_occurs. vm_compute. reflexivity.
Defined.

(** ** What a pass leaves behind *)

(** X20. A reconciliation pass that returns has covered the listing. With
    the target root available and no listed file dated later than the time
    stamps the target filesystem hands out: when the pass returns normally,
    the target path of every listed file names an entry that is not older
    than the file, and every entry that was there before the pass is still
    there with its kind. *)
Theorem reconcile_covers_listing (this : Plugin) (s s' : state) (tr : list event) :
  Fs.is_dir (entry this s (expandTargetPath this)) = true →
  clock_not_behind this s →
  syncExistingFiles this s = (Returns tt, s', tr) →
  advances this s s' ∧
  ∀ f, f ∈ getFiles (vault this) → settled this s' f.
Proof.
  intros Hroot Hclock Hrun.
  rewrite (syncExistingFiles_eq this s Hroot) in Hrun.
  destruct (for_of _ (getFiles (vault this)) no_counts s) as [[[c|e] s1] loop] eqn:Hloop;
    [|done].
  injection Hrun as <- _.
  destruct (for_of_settles this _ _ _ _ _ _ Hloop Hclock) as (Hadv & Hall).
  split; [done|]. by apply Forall_forall.
Qed.

(** X20 at work: a pass over an empty mirror. *)
Lemma reconcile_covers_listing_witness :
  settled Demo.plugin (syncExistingFiles Demo.plugin Demo.empty_mirror).1.2
    (Demo.note 500).
Proof.
  destruct (reconcile_covers_listing Demo.plugin Demo.empty_mirror
              (syncExistingFiles Demo.plugin Demo.empty_mirror).1.2
              (syncExistingFiles Demo.plugin Demo.empty_mirror).2)
    as (_ & Hall).
  - vm_compute. reflexivity.
  - intros f i Hf _. apply list_elem_of_singleton in Hf as ->. simpl. lia.
  - vm_compute. reflexivity.
  - apply Hall. apply list_elem_of_singleton. reflexivity.
Defined.

(** ** The notification settings *)

Section Agreement.

Lemma agree_refl {A} (m : M A) : agree m m.
Proof. by intros s. Qed.

Lemma agree_bind {A B} (m m' : M A) (k k' : A → M B) :
  agree m m' → (∀ a, agree (k a) (k' a)) → agree (bind m k) (bind m' k').
Proof.
  intros Hm Hk s. unfold bind. specialize (Hm s).
  destruct (m s) as [[r1 s1] tr1], (m' s) as [[r1' s1'] tr1'].
  destruct Hm as [[= <- <-] Htr]. simpl in Htr.
  destruct r1 as [a|e]; [|done].
  specialize (Hk a s1).
  destruct (k a s1) as [[r2 s2] tr2], (k' a s1) as [[r2' s2'] tr2'].
  destruct Hk as [[= <- <-] Htr2]. simpl in Htr2.
  split; [done|]. simpl. unfold fs_calls in *. rewrite !omap_app. congruence.
Qed.

Lemma agree_try_catch {A} (body body' handler handler' : M A) :
  agree body body' → agree handler handler' →
  agree (try_catch body handler) (try_catch body' handler').
Proof.
  intros Hb Hh s. unfold try_catch. specialize (Hb s).
  destruct (body s) as [[r1 s1] tr1], (body' s) as [[r1' s1'] tr1'].
  destruct Hb as [[= <- <-] Htr]. simpl in Htr.
  destruct r1 as [a|e]; [done|].
  specialize (Hh s1).
  destruct (handler s1) as [[r2 s2] tr2], (handler' s1) as [[r2' s2'] tr2'].
  destruct Hh as [[= <- <-] Htr2]. simpl in Htr2.
  split; [done|]. simpl. unfold fs_calls in *. rewrite !omap_app. congruence.
Qed.

(** A notice that is shown or not makes no difference to the copying. *)
Lemma agree_notice (b b' : bool) (msg msg' : string) :
  agree (if b then Notice msg else ret tt) (if b' then Notice msg' else ret tt).
Proof. intros s. by destruct b, b'. Qed.

End Agreement.

Ltac solve_agree :=
  repeat first
    [ apply agree_notice
    | apply agree_bind; [|intros ?]
    | apply agree_try_catch
    | match goal with
      | |- agree (if ?b then _ else _) (if ?b then _ else _) => destruct b
      end
    | apply agree_refl ].

(** X21. The notification settings do not steer the copying. Two plugins
    that differ in their four notification settings at most, run on the
    same event or as the reconciliation pass from the same state, end the
    same way, in the same state, after the same filesystem calls. *)
Theorem notifications_do_not_steer (this this' : Plugin) (op : operation)
    (s : state) :
  targetDirectory (settings this) = targetDirectory (settings this') →
  vault this = vault this' →
  env_HOME this = env_HOME this' →
  cwd this = cwd this' →
  clock this = clock this' →
  same_copying (run this op s) (run this' op s).
Proof.
  destruct this as [[td nc nm nd nr] v h w cl], this' as [[td' nc' nm' nd' nr'] v' h' w' cl'].
  simpl. intros <- <- <- <- <-.
  revert s. change (agree (run {| settings := {| targetDirectory := td; notifyCreate := nc;
                        notifyModify := nm; notifyDelete := nd; notifyRename := nr |};
                        vault := v; env_HOME := h; cwd := w; clock := cl |} op)
                    (run {| settings := {| targetDirectory := td; notifyCreate := nc';
                        notifyModify := nm'; notifyDelete := nd'; notifyRename := nr' |};
                        vault := v; env_HOME := h; cwd := w; clock := cl |} op)).
  destruct op as [file|file|file|file oldPath|]; simpl.
  - unfold syncFileCreate, ensureTargetPath. solve_agree.
  - unfold syncFileModify, ensureTargetPath. solve_agree.
  - unfold syncFileDelete. solve_agree.
  - unfold syncFileRename. solve_agree.
  - unfold syncExistingFiles. solve_agree.
Qed.

(** X21 at work: with and without notices, [a/b.md] is copied alike. *)
Lemma notifications_do_not_steer_witness :
  same_copying
    (run Demo.plugin (OnCreate Demo.created_note) Demo.empty_mirror)
    (run Scenes.quiet_plugin (OnCreate Demo.created_note) Demo.empty_mirror).
Proof.
  apply (notifications_do_not_steer Demo.plugin Scenes.quiet_plugin
           (OnCreate Demo.created_note) Demo.empty_mirror); reflexivity.
Defined.

(** ** How the handlers compose *)

Section Compose.
Variable this : Plugin.
Implicit Types (s : state) (k : Fs.key).

(** The Deleted handler on a regular file, evaluated. *)
Lemma syncFileDelete_file_eq (file : TAbstractFile) s k d m :
  Fs.is_dir (entry this s (expandTargetPath this)) = true →
  Fs.resolve (cwd this) (target_of this (path file)) = Some k →
  disk s !! k = Some (Fs.File d m) →
  syncFileDelete this file s =
    (Returns tt,
     mkState (delete k (Fs.touch (Fs.parent k) (clock this (ticks s)) (disk s)))
       (S (ticks s)),
     [Console Log ("Syncing deletion of file '" +:+ path file +:+ "'");
      Call (Stat (expandTargetPath this));
      Call (Rm (target_of this (path file)))] ++
       if notifyDelete (settings this)
       then [Notify ("Synced deleted file '" +:+ name file +:+ "'")] else []).
Proof.
  intros Hroot Hk Hfile.
  rewrite (syncFileDelete_eq this file s Hroot). simpl.
  by rewrite (fs_rm_eq this _ _ s Hk), Hfile.
Qed.

(** Removing a regular file leaves every directory a directory. *)
Lemma delete_keeps_dirs k (t : Z) (fs : gmap Fs.key Fs.node) d m (key : Fs.key) :
  fs !! k = Some (Fs.File d m) →
  Fs.is_dir (fs !! key) = true →
  Fs.is_dir (delete k (Fs.touch (Fs.parent k) t fs) !! key) = true.
Proof.
  intros Hfile Hdir.
  assert (k ≠ key) by (intros ->; by rewrite Hfile in Hdir).
  rewrite lookup_delete_ne by done. rewrite touch_lookup.
  by destruct (fs !! key) as [[]|].
Qed.

Lemma delete_keeps_files k (t : Z) (fs : gmap Fs.key Fs.node) (key : Fs.key) d m :
  key ≠ k → fs !! key = Some (Fs.File d m) →
  delete k (Fs.touch (Fs.parent k) t fs) !! key = Some (Fs.File d m).
Proof.
  intros Hne Hfile. rewrite lookup_delete_ne by done.
  by rewrite touch_lookup, Hfile.
Qed.

End Compose.

(** X22. A Created event followed by a Deleted event for the same file
    takes the copy away again. Under the conditions in which the Created
    handler copies the file, both handlers return normally; afterwards the
    target path names nothing, every other regular file is as it was before
    the two events, and the directories made on the way to the target path
    are still there. *)
Theorem create_then_delete (this : Plugin) (file : TAbstractFile)
    (content : list byte) (s : state) (k : Fs.key) :
  Fs.tree_shaped (disk s) →
  Path.is_absolute (expandTargetPath this) = true →
  Fs.is_dir (entry this s (expandTargetPath this)) = true →
  source_file this (path file) content →
  Fs.resolve (cwd this) (target_of this (path file)) = Some k →
  clear_way (disk s) k →
  Fs.is_dir (disk s !! k) = false →
  ∃ s1 tr1 s2 tr2,
    syncFileCreate this file s = (Returns tt, s1, tr1) ∧
    syncFileDelete this file s1 = (Returns tt, s2, tr2) ∧
    disk s2 !! k = None ∧
    (∀ k' d m, k' ≠ k → disk s !! k' = Some (Fs.File d m) →
               disk s2 !! k' = Some (Fs.File d m)) ∧
    (∀ a, suffix a (Fs.parent k) → Fs.is_dir (disk s2 !! a) = true).
Proof.
  intros Htree Habs Hroot Hsrc Hk Hclear Hnodir.
  destruct (syncFileCreate_copies this file content s k)
    as (s1 & tr1 & t & Hrun & Hcopy & Hchain & Hframe & _ & Hroot1 & _); try done.
  exists s1, tr1. eexists _, _. split; [done|].
  split; [by apply (syncFileDelete_file_eq this file s1 k content t)|]. simpl.
  split; [by rewrite lookup_delete_eq|].
  split.
  - intros k' d m Hne Hfile. apply delete_keeps_files; [done|].
    rewrite Hframe; [done|]. intros Hs.
    destruct k as [|seg up]; [by apply suffix_nil_inv in Hs|].
    apply suffix_cons_cases in Hs as [->|Hs]; [done|]. by eapply Hclear.
  - intros a Ha. eapply delete_keeps_dirs; [done|]. by apply Hchain.
Qed.

(** X22 at work: [a/b.md] is copied and removed again; the folder [a]
    stays. *)
Lemma create_then_delete_witness :
  ∃ s1 tr1 s2 tr2,
    syncFileCreate Demo.plugin Demo.created_note Demo.empty_mirror =
      (Returns tt, s1, tr1) ∧
    syncFileDelete Demo.plugin Demo.created_note s1 = (Returns tt, s2, tr2) ∧
    disk s2 !! Scenes.note_key = None ∧
    Fs.is_dir (disk s2 !! Fs.parent Scenes.note_key) = true.
Proof.
  destruct (create_then_delete Demo.plugin Demo.created_note (Demo.bytes "x")
              Demo.empty_mirror Scenes.note_key)
    as (s1 & tr1 & s2 & tr2 & Hrun1 & Hrun2 & Hgone & _ & Hdirs).
  - apply tree_shapedb_sound. vm_compute. reflexivity.
  - vm_compute. reflexivity.
  - vm_compute. reflexivity.
  - vm_compute. reflexivity.
  - vm_compute. reflexivity.
  - apply clear_wayb_sound. vm_compute. reflexivity.
  - vm_compute. reflexivity.
  - exists s1, tr1, s2, tr2. split; [exact Hrun1|]. split; [exact Hrun2|].
    split; [exact Hgone|]. apply Hdirs. reflexivity.
Defined.

(** X23. The Deleted handler does not bear a replay. In a tree with the
    target root available and a regular file at the target path, a first
    Deleted event is handled normally and a second one for the same file
    throws [ENOENT], from the [lstat] that [fs.rm] starts with; the second
    leaves the filesystem as the first left it and shows no notice. *)
Theorem delete_replay_throws (this : Plugin) (file : TAbstractFile)
    (s : state) (k : Fs.key) (d : list byte) (m : Z) :
  let targetPath := target_of this (path file) in
  Fs.tree_shaped (disk s) →
  Fs.is_dir (entry this s (expandTargetPath this)) = true →
  Fs.resolve (cwd this) targetPath = Some k →
  disk s !! k = Some (Fs.File d m) →
  ∃ s1 tr1 s2 tr2,
    syncFileDelete this file s = (Returns tt, s1, tr1) ∧
    syncFileDelete this file s1 =
      (Throws (FsError Fs.ENOENT "lstat" targetPath), s2, tr2) ∧
    disk s2 = disk s1 ∧
    notices tr2 = [].
Proof.
  intros targetPath Htree Hroot Hk Hfile.
  eexists _, _.
  rewrite (syncFileDelete_file_eq this file s k d m Hroot Hk Hfile).
  set (s1 := mkState _ _).
  assert (Hroot1 : Fs.is_dir (entry this s1 (expandTargetPath this)) = true).
  { unfold entry in *.
    destruct (Fs.resolve (cwd this) (expandTargetPath this)) as [kr|]; [|done].
    simpl in *. by eapply delete_keeps_dirs. }
  assert (Hkne : k ≠ []).
  { intros ->.
    assert (Hdir : Fs.is_dir (disk s !! []) = true).
    { unfold entry in Hroot.
      destruct (Fs.resolve (cwd this) (expandTargetPath this)) as [kr|]; [|done].
      by eapply tree_shaped_root. }
    by rewrite Hfile in Hdir. }
  assert (Hclear : clear_way (disk s1) k).
  { intros a d' m' Ha Hfa.
    assert (Hdir : Fs.is_dir (disk s !! a) = true).
    { eapply (tree_shaped_ancestors _ k); [done|by rewrite Hfile| |].
      - by apply suffix_parent.
      - intros ->. by apply (not_suffix_parent k). }
    eapply (delete_keeps_dirs k (clock this (ticks s))) in Hdir; [|done].
    subst s1. simpl in Hfa. by rewrite Hfa in Hdir. }
  assert (Hnone : disk s1 !! k = None) by apply lookup_delete_eq.
  rewrite (syncFileDelete_eq this file s1 Hroot1). cbv zeta.
  fold targetPath.
  rewrite (fs_rm_eq this _ _ s1 Hk), Hnone, (missing_clear k _ Hclear).
  by eexists _, _.
Qed.

(** X23 at work: the copy of [a/b.md] can be removed once. *)
Lemma delete_replay_throws_witness :
  ∃ s1 tr1 s2 tr2,
    syncFileDelete Demo.plugin Demo.created_note (Demo.copied 0) =
      (Returns tt, s1, tr1) ∧
    syncFileDelete Demo.plugin Demo.created_note s1 =
      (Throws (FsError Fs.ENOENT "lstat" "/home/u/cs/test-notes/a/b.md"), s2, tr2) ∧
    disk s2 = disk s1.
Proof.
  destruct (delete_replay_throws Demo.plugin Demo.created_note (Demo.copied 0)
              Scenes.note_key (Demo.bytes "old") 0)
    as (s1 & tr1 & s2 & tr2 & Hrun1 & Hrun2 & Hdisk & _).
  - apply tree_shapedb_sound. vm_compute. reflexivity.
  - vm_compute. reflexivity.
  - vm_compute. reflexivity.
  - vm_compute. reflexivity.
  - exists s1, tr1, s2, tr2. split; [exact Hrun1|]. split; [exact Hrun2|exact Hdisk].
Defined.

(** X24. A rename there and back restores the copy. Under the conditions
    in which the Renamed handler moves the copy from the old target path
    to the new one, the Renamed event for the way back is handled normally
    too; afterwards the old target path holds the file it held at first,
    bytes and time stamp, the new target path names nothing, and every
    other regular file is as it was. *)
Theorem rename_there_and_back (this : Plugin) (file back : TAbstractFile)
    (s : state) (old new : Fs.key) (data : list byte) (mtime : Z) :
  Fs.tree_shaped (disk s) →
  Path.is_absolute (expandTargetPath this) = true →
  Fs.is_dir (entry this s (expandTargetPath this)) = true →
  Fs.resolve (cwd this) (target_of this (path back)) = Some old →
  Fs.resolve (cwd this) (target_of this (path file)) = Some new →
  disk s !! old = Some (Fs.File data mtime) →
  old ≠ new →
  clear_way (disk s) new →
  Fs.is_dir (disk s !! new) = false →
  ∃ s1 tr1 s2 tr2,
    syncFileRename this file (path back) s = (Returns tt, s1, tr1) ∧
    syncFileRename this back (path file) s1 = (Returns tt, s2, tr2) ∧
    disk s2 !! old = Some (Fs.File data mtime) ∧
    disk s2 !! new = None ∧
    (∀ k d m, k ≠ old → k ≠ new → disk s !! k = Some (Fs.File d m) →
              disk s2 !! k = Some (Fs.File d m)).
Proof.
  intros Htree Habs Hroot Hold Hnew Hfile Hne Hclear Hnodir.
  destruct (syncFileRename_moves this file (path back) s old new data mtime)
    as (s1 & tr1 & Hrun1 & Hat1 & Hgone1 & Hrest1 & Htree1 & Hdirs1 & _); try done.
  assert (Hroot1 : Fs.is_dir (entry this s1 (expandTargetPath this)) = true).
  { unfold entry in *.
    destruct (Fs.resolve (cwd this) (expandTargetPath this)) as [kr|]; [|done].
    simpl in *. by apply Hdirs1. }
  assert (Hold_ne : old ≠ []).
  { intros ->.
    assert (Hdir : Fs.is_dir (disk s !! []) = true).
    { unfold entry in Hroot.
      destruct (Fs.resolve (cwd this) (expandTargetPath this)) as [kr|]; [|done].
      by eapply tree_shaped_root. }
    by rewrite Hfile in Hdir. }
  assert (Hclear1 : clear_way (disk s1) old).
  { intros a d m Ha Hfa.
    assert (Hdir : Fs.is_dir (disk s !! a) = true).
    { eapply (tree_shaped_ancestors _ old); [done|by rewrite Hfile| |].
      - by apply suffix_parent.
      - intros ->. by apply (not_suffix_parent old). }
    apply Hdirs1 in Hdir. by rewrite Hfa in Hdir. }
  destruct (syncFileRename_moves this back (path file) s1 new old data mtime)
    as (s2 & tr2 & Hrun2 & Hat2 & Hgone2 & Hrest2 & _); try done.
  { by rewrite Hgone1. }
  exists s1, tr1, s2, tr2. repeat split; try done.
  intros k d m Hk1 Hk2 Hk. apply Hrest2; [done|done|]. by apply Hrest1.
Qed.

(** X24 at work: [a/b.md] is renamed to [e/new.md] and back. *)
Lemma rename_there_and_back_witness :
  ∃ s1 tr1 s2 tr2,
    syncFileRename Demo.plugin Demo.renamed "a/b.md" (Demo.copied 0) =
      (Returns tt, s1, tr1) ∧
    syncFileRename Demo.plugin Demo.created_note "e/new.md" s1 = (Returns tt, s2, tr2) ∧
    disk s2 !! Scenes.note_key = Some (Fs.File (Demo.bytes "old") 0) ∧
    disk s2 !! Scenes.renamed_key = None.
Proof.
  destruct (rename_there_and_back Demo.plugin Demo.renamed Demo.created_note
              (Demo.copied 0) Scenes.note_key Scenes.renamed_key (Demo.bytes "old") 0)
    as (s1 & tr1 & s2 & tr2 & Hrun1 & Hrun2 & Hback & Hgone & _).
  - apply tree_shapedb_sound. vm_compute. reflexivity.
  - vm_compute. reflexivity.
  - vm_compute. reflexivity.
  - vm_compute. reflexivity.
  - vm_compute. reflexivity.
  - vm_compute. reflexivity.
  - vm_compute. discriminate.
  - apply clear_wayb_sound. vm_compute. reflexivity.
  - vm_compute. reflexivity.
  - exists s1, tr1, s2, tr2. split; [exact Hrun1|]. split; [exact Hrun2|].
    split; [exact Hback|exact Hgone].
Defined.
